(** * Online nonnegative ICA learners (nica_algorithms.py)

    A shallow embedding of the three streaming learners [bio_nica],
    [two_layer_nsm] and [nonnegative_pca], and the properties of their
    per-sample interface.

    Modelling decisions, all visible in the definitions below:
    - numbers are exact rationals ([Qc]); the formulas of the program are
      evaluated without rounding. The properties that rounding, overflow or
      [nan] decide are settled on a second embedding of the three
      [fit_next] methods, over binary64 numbers (module [f64]);
    - a numpy array is a value with its shape: a 1-D array is a [list Qc], a
      2-D array a [matrix] (column count and list of rows); elementwise
      operations broadcast the way numpy does and raise [ValueError] on
      shapes that do not broadcast;
    - the weight matrices are Python objects that callers may share with the
      learner, so they live in an object store ([heap]) and the learner holds
      references; the running means are created by the constructor and held
      by value;
    - a method is a function from the state before the call to the state at
      the point where the call returned or raised, paired with the outcome;
    - the quadratic-programming routine of the [quadprog] package is a
      parameter of the model. *)

From Stdlib Require Import QArith Qcanon ZArith Lia Lqa.
From Stdlib Require Import PrimFloat.
From Stdlib Require Uint63 FloatOps SpecFloat FloatAxioms.
From stdpp Require Import base decidable option list numbers strings.

Set Default Proof Using "Type".
Set Warnings "-inexact-float,-notation-overridden".

(** ** Python outcomes *)

Inductive exn : Set :=
  | AssertionError      (* a failed [assert] *)
  | ValueError          (* numpy: operands could not be broadcast, matmul mismatch *)
  | IndexError          (* numpy: index out of bounds *)
  | LinAlgError         (* numpy.linalg: not square, or singular *)
  | ZeroDivisionError   (* float division by zero *)
  | SolverError         (* quadprog refused the program *)
  | Dangling.           (* a reference that names no object (no Python counterpart) *)

Inductive result (A : Type) : Type :=
  | Ok (a : A)
  | Raise (e : exn).
Arguments Ok {A} a.
Arguments Raise {A} e.

#[global] Instance exn_eq_dec : EqDecision exn.
Proof. solve_decision. Defined.
#[global] Instance result_eq_dec `{EqDecision A} : EqDecision (result A).
Proof. solve_decision. Defined.

Definition rbind {A B} (c : result A) (k : A → result B) : result B :=
  match c with
  | Ok a => k a
  | Raise e => Raise e
  end.

Notation "'let!' x := c 'in' k" := (rbind c (fun x => k))
  (at level 10, x name, c at level 100, k at level 200).

(** ** Numbers *)

(** A decimal literal [n / d]. *)
Definition lit (n : Z) (d : positive) : Qc := Q2Qc (n # d).
Definition of_nat (n : nat) : Qc := Qc_of_Z (Z.of_nat n).

Definition Qcmax (a b : Qc) : Qc := if decide (a ≤ b)%Qc then b else a.

(** Python float division. *)
Definition pydiv (a b : Qc) : result Qc :=
  if decide (b = 0%Qc) then Raise ZeroDivisionError else Ok (a / b)%Qc.

(** ** numpy arrays *)

Abbreviation vec := (list Qc) (only parsing).

Record matrix : Type := Matrix { ncols : nat; rows : list vec }.

#[global] Instance matrix_eq_dec : EqDecision matrix.
Proof. solve_decision. Defined.

Definition nrows (m : matrix) : nat := length (rows m).
Definition shape (m : matrix) : nat * nat := (nrows m, ncols m).

(** Every row has the declared number of columns. *)
Definition wf (m : matrix) : Prop := Forall (λ r, length r = ncols m) (rows m).

Module np.

Definition zeros (n : nat) : vec := replicate n 0%Qc.

Definition eye (n : nat) : matrix :=
  Matrix n (fmap (λ i, fmap (λ j, if decide (i = j) then 1%Qc else 0%Qc) (seq 0 n))
                (seq 0 n)).

(** Broadcasting of one dimension. *)
Definition bdim (m n : nat) : option nat :=
  if decide (m = n) then Some m
  else if decide (m = 1) then Some n
  else if decide (n = 1) then Some m
  else None.

Definition stretch {A} (n : nat) (l : list A) : list A :=
  match l with
  | [a] => replicate n a
  | _ => l
  end.

(** [a op b] on 1-D arrays. *)
Definition bvec (f : Qc → Qc → Qc) (a b : vec) : result vec :=
  match bdim (length a) (length b) with
  | Some n => Ok (zip_with f (stretch n a) (stretch n b))
  | None => Raise ValueError
  end.

(** [a op b] on 2-D arrays. *)
Definition bmat (f : Qc → Qc → Qc) (a b : matrix) : result matrix :=
  match bdim (nrows a) (nrows b), bdim (ncols a) (ncols b) with
  | Some r, Some c =>
      Ok (Matrix c (zip_with (λ ra rb, zip_with f (stretch c ra) (stretch c rb))
                             (stretch r (rows a)) (stretch r (rows b))))
  | _, _ => Raise ValueError
  end.

Definition add := bvec Qcplus.
Definition sub := bvec Qcminus.
Definition madd := bmat Qcplus.
Definition msub := bmat Qcminus.

(** [a += b]: the sum must have the shape of [a]. *)
Definition iadd (a b : vec) : result vec :=
  let! r := add a b in
  if decide (length r = length a) then Ok r else Raise ValueError.

Definition imadd (a b : matrix) : result matrix :=
  let! r := madd a b in
  if decide (shape r = shape a) then Ok r else Raise ValueError.

(** [k * a] and [a / k] with a scalar [k]. *)
Definition scale (k : Qc) (a : vec) : vec := fmap (Qcmult k) a.
Definition mscale (k : Qc) (a : matrix) : matrix :=
  Matrix (ncols a) (fmap (scale k) (rows a)).
Definition divide (a : vec) (k : Qc) : vec := fmap (λ e, e / k)%Qc a.

Definition negative (a : vec) : vec := fmap Qcopp a.

Definition maximum (a : vec) (k : Qc) : vec := fmap (λ e, Qcmax e k) a.

Definition outer (a b : vec) : matrix :=
  Matrix (length b) (fmap (λ ai, fmap (λ bj, ai * bj)%Qc b) a).

Definition dot (a b : vec) : Qc := foldr Qcplus 0%Qc (zip_with Qcmult a b).

Definition T (m : matrix) : matrix :=
  Matrix (nrows m) (fmap (λ j, fmap (λ r, default 0%Qc (r !! j)) (rows m)) (seq 0 (ncols m))).

(** [m @ x], 2-D by 1-D. *)
Definition matvec (m : matrix) (x : vec) : result vec :=
  if decide (ncols m = length x) then Ok (fmap (λ r, dot r x) (rows m))
  else Raise ValueError.

(** [a @ b], 2-D by 2-D. *)
Definition matmul (a b : matrix) : result matrix :=
  if decide (ncols a = nrows b)
  then Ok (Matrix (ncols b) (fmap (λ r, fmap (dot r) (rows (T b))) (rows a)))
  else Raise ValueError.

(** Python indexing of an axis of length [n]: negative indices count from
    the end. *)
Definition index (n : nat) (j : Z) : result nat :=
  if decide (0 ≤ j < Z.of_nat n)%Z then Ok (Z.to_nat j)
  else if decide (- Z.of_nat n ≤ j < 0)%Z then Ok (Z.to_nat (j + Z.of_nat n))
  else Raise IndexError.

(** [m[j,:] = -m[j,:]] *)
Definition negate_row (m : matrix) (j : Z) : result matrix :=
  let! i := index (nrows m) j in
  match rows m !! i with
  | Some r => Ok (Matrix (ncols m) (<[i := negative r]> (rows m)))
  | None => Raise IndexError
  end.

Module linalg.

Definition sign (j : nat) : Qc := if Nat.even j then 1%Qc else (- 1)%Qc.

(** Determinant of the [n] by [n] matrix with rows [rs], expanded along
    the first row. *)
Fixpoint det_rows (n : nat) (rs : list vec) : Qc :=
  match n, rs with
  | S n', r :: rest =>
      foldr Qcplus 0%Qc
        (fmap (λ j, sign j * default 0 (r !! j) * det_rows n' (fmap (delete j) rest))%Qc
             (seq 0 n))
  | _, _ => 1%Qc
  end.

Definition det (m : matrix) : result Qc :=
  if decide (nrows m = ncols m) then Ok (det_rows (nrows m) (rows m))
  else Raise LinAlgError.

Definition cofactor (n : nat) (rs : list vec) (i j : nat) : Qc :=
  (sign (i + j) * det_rows (pred n) (fmap (delete j) (delete i rs)))%Qc.

Definition inv (m : matrix) : result matrix :=
  let! d := det m in
  if decide (d = 0%Qc) then Raise LinAlgError
  else
    let n := nrows m in
    Ok (Matrix n (fmap (λ i, fmap (λ j, cofactor n (rows m) j i / d)%Qc (seq 0 n))
                      (seq 0 n))).

End linalg.

End np.

(** ** The object store *)

Abbreviation loc := nat (only parsing).
Abbreviation heap := (list matrix) (only parsing).

(** A method of an object with fields [S]: from the store and the fields
    before the call to the store and the fields when the call returned or
    raised, with the outcome. *)
Definition Py (S A : Type) : Type := heap * S → (heap * S) * result A.

Definition ret {S A} (a : A) : Py S A := λ st, (st, Ok a).
Definition bind {S A B} (c : Py S A) (k : A → Py S B) : Py S B :=
  λ st, match c st with
        | (st', Ok a) => k a st'
        | (st', Raise e) => (st', Raise e)
        end.
Definition lift {S A} (r : result A) : Py S A := λ st, (st, r).
Definition raise {S A} (e : exn) : Py S A := λ st, (st, Raise e).
Definition assert {S} (b : bool) : Py S unit :=
  if b then ret () else raise AssertionError.
Definition get_self {S} : Py S S := λ st, (st, Ok st.2).
Definition update {S} (f : S → S) : Py S unit := λ st, ((st.1, f st.2), Ok ()).
Definition deref {S} (l : loc) : Py S matrix :=
  λ st, (st, match st.1 !! l with Some m => Ok m | None => Raise Dangling end).
Definition store {S} (l : loc) (m : matrix) : Py S unit :=
  λ st, ((<[l := m]> st.1, st.2), Ok ()).
Definition alloc {S} (m : matrix) : Py S loc :=
  λ st, ((st.1 ++ [m], st.2), Ok (length st.1)).

Notation "'let*' x := c 'in' k" := (bind c (fun x => k))
  (at level 10, x name, c at level 100, k at level 200).
Notation "c >> k" := (bind c (fun _ => k))
  (at level 100, k at level 200, right associativity).

(** ** Construction helpers shared by the three classes *)

(** A matrix the constructor is about to keep: the caller's object, or an
    array the constructor has just built. *)
Definition initial : Type := loc + matrix.

(** [if A0 is not None: assert A0.shape == (r, c); A = A0 else: A = fresh] *)
Definition supplied_or (h : heap) (A0 : option loc) (r c : nat) (fresh : matrix)
    : result initial :=
  match A0 with
  | Some l =>
      match h !! l with
      | Some m => if decide (shape m = (r, c)) then Ok (inl l) else Raise AssertionError
      | None => Raise Dangling
      end
  | None => Ok (inr fresh)
  end.

(** [self.A = A]: a fresh array becomes an object of the store. *)
Definition keep (h : heap) (A : initial) : heap * loc :=
  match A with
  | inl l => (h, l)
  | inr m => (h ++ [m], length h)
  end.

Definition or_default (o : option Qc) (d : Qc) : Qc := from_option id d o.

(** ** Running means *)

(** [m += (v - m)/k], in place. *)
Definition mean_iadd (m v : vec) (k : nat) : result vec :=
  let! d := np.sub v m in
  np.iadd m (np.divide d (of_nat k)).

(** [m = m + (v - m)/k], a new array. *)
Definition mean_add (m v : vec) (k : nat) : result vec :=
  let! d := np.sub v m in
  np.add m (np.divide d (of_nat k)).


(** ** class bio_nica *)

Module bio_nica.

Record obj : Type := Obj {
  t : nat; eta0 : Qc; decay : Qc; tau : Qc; s_dim : nat; x_dim : nat;
  x_bar : vec; c_bar : vec; M : loc; W : loc }.

#[global] Instance obj_eq_dec : EqDecision obj.
Proof. solve_decision. Defined.

Definition set_t (v : nat) (o : obj) : obj :=
  Obj v (eta0 o) (decay o) (tau o) (s_dim o) (x_dim o) (x_bar o) (c_bar o) (M o) (W o).
Definition set_x_bar (v : vec) (o : obj) : obj :=
  Obj (t o) (eta0 o) (decay o) (tau o) (s_dim o) (x_dim o) v (c_bar o) (M o) (W o).
Definition set_c_bar (v : vec) (o : obj) : obj :=
  Obj (t o) (eta0 o) (decay o) (tau o) (s_dim o) (x_dim o) (x_bar o) v (M o) (W o).
Definition set_M (v : loc) (o : obj) : obj :=
  Obj (t o) (eta0 o) (decay o) (tau o) (s_dim o) (x_dim o) (x_bar o) (c_bar o) v (W o).
Definition set_W (v : loc) (o : obj) : obj :=
  Obj (t o) (eta0 o) (decay o) (tau o) (s_dim o) (x_dim o) (x_bar o) (c_bar o) (M o) v.

(** The tuned hyperparameters [(eta0, decay, tau)] of a dataset name. *)
Definition preset (dataset : option string) : Qc * Qc * Qc :=
  if decide (dataset = Some "3-dim_synthetic"%string)
  then (lit 1 10, lit 1 100, lit 8 10)
  else if decide (dataset = Some "10-dim_synthetic"%string)
  then (lit 1 1000, lit 1 10000, lit 3 100)
  else if decide (dataset = Some "image"%string)
  then (lit 1 1000, lit 1 1000000, lit 1 10)
  else (lit 1 10, lit 1 1000, lit 5 10).

(** [randn] is the array that lines 44-46 build when [W0] is [None]: a
    random [s_dim] by [x_dim] matrix with its rows normalised. *)
Definition __init__ (randn : matrix) (s_dim x_dim : nat) (dataset : option string)
    (M0 W0 : option loc) (eta0 decay tau : option Qc) (h : heap)
    : heap * result obj :=
  match supplied_or h M0 s_dim s_dim (np.eye s_dim) with
  | Raise e => (h, Raise e)
  | Ok M =>
  match supplied_or h W0 s_dim x_dim randn with
  | Raise e => (h, Raise e)
  | Ok W =>
      let '(e, d, ta) := preset dataset in
      let '(h1, lM) := keep h M in
      let '(h2, lW) := keep h1 W in
      (h2, Ok (Obj 0 (or_default eta0 e) (or_default decay d) (or_default tau ta)
                   s_dim x_dim (np.zeros x_dim) (np.zeros s_dim) lM lW))
  end end.

Section fit.

(** [quadprog.solve_qp(G, a, C, b)[0]] *)
Variable solve_qp : matrix → vec → matrix → vec → result vec.

Definition fit_next (x : vec) : Py obj vec :=
  let* o := get_self in
  assert (bool_decide (length x = x_dim o)) >>
  let t := t o in
  let s_dim := s_dim o in
  let tau := tau o in
  let M := M o in
  let W := W o in
  (* c = W@x *)
  let* W0 := deref W in
  let* c := lift (np.matvec W0 x) in
  (* y = solve_qp(M, c, np.eye(s_dim), np.zeros(s_dim))[0] *)
  let* M0 := deref M in
  let* y := lift (solve_qp M0 c (np.eye s_dim) (np.zeros s_dim)) in
  (* x_bar += (x - x_bar)/(t+1) *)
  let* x_bar := lift (mean_iadd (x_bar o) x (t + 1)) in
  update (set_x_bar x_bar) >>
  (* c_bar += (c - c_bar)/100 *)
  let* c_bar := lift (mean_iadd (c_bar o) c 100) in
  update (set_c_bar c_bar) >>
  (* step = self.eta0/(1+self.decay*t) *)
  let* step := lift (pydiv (eta0 o) (1 + decay o * of_nat t)%Qc) in
  (* W += 2*step*(np.outer(y,x) - np.outer(c-c_bar,x-x_bar)) *)
  let* dW := lift (let! dc := np.sub c c_bar in
                   let! dx := np.sub x x_bar in
                   let! D := np.msub (np.outer y x) (np.outer dc dx) in
                   Ok (np.mscale (2 * step)%Qc D)) in
  let* W1 := deref W in
  let* W2 := lift (np.imadd W1 dW) in
  store W W2 >>
  (* M += (step/tau)*(np.outer(y,y) - M) *)
  let* k := lift (pydiv step tau) in
  let* M1 := deref M in
  let* dM := lift (let! D := np.msub (np.outer y y) M1 in Ok (np.mscale k D)) in
  let* M2 := lift (np.imadd M1 dM) in
  store M M2 >>
  (* if np.linalg.det(M)<10**-4: M += .1*np.eye(s_dim) *)
  let* M3 := deref M in
  let* d := lift (np.linalg.det M3) in
  (if decide (d < lit 1 10000)%Qc
   then let* M4 := lift (np.imadd M3 (np.mscale (lit 1 10) (np.eye s_dim))) in
        store M M4
   else ret ()) >>
  (* self.M = M; self.W = W; self.t += 1 *)
  update (set_M M) >>
  update (set_W W) >>
  update (λ o', set_t (bio_nica.t o' + 1) o') >>
  ret y.

End fit.

Definition flip_weights (j : Z) : Py obj unit :=
  let* o := get_self in
  assert (bool_decide (0 ≤ j < Z.of_nat (s_dim o))%Z) >>
  let W := W o in
  (* W[j,:] = -W[j,:] *)
  let* W0 := deref W in
  let* W1 := lift (np.negate_row W0 j) in
  store W W1 >>
  update (set_W W).

End bio_nica.

(** ** class two_layer_nsm *)

Module two_layer_nsm.

Record obj : Type := Obj {
  eta0 : Qc; decay : Qc; t : nat; s_dim : nat; x_dim : nat;
  x_bar : vec; h_bar : vec; g_bar : vec;
  Whx : loc; Wgh : loc; Wyh : loc; Wyy : loc }.

#[global] Instance obj_eq_dec : EqDecision obj.
Proof. solve_decision. Defined.

Definition set_t (v : nat) (o : obj) : obj :=
  Obj (eta0 o) (decay o) v (s_dim o) (x_dim o) (x_bar o) (h_bar o) (g_bar o)
      (Whx o) (Wgh o) (Wyh o) (Wyy o).
Definition set_x_bar (v : vec) (o : obj) : obj :=
  Obj (eta0 o) (decay o) (t o) (s_dim o) (x_dim o) v (h_bar o) (g_bar o)
      (Whx o) (Wgh o) (Wyh o) (Wyy o).
Definition set_h_bar (v : vec) (o : obj) : obj :=
  Obj (eta0 o) (decay o) (t o) (s_dim o) (x_dim o) (x_bar o) v (g_bar o)
      (Whx o) (Wgh o) (Wyh o) (Wyy o).
Definition set_g_bar (v : vec) (o : obj) : obj :=
  Obj (eta0 o) (decay o) (t o) (s_dim o) (x_dim o) (x_bar o) (h_bar o) v
      (Whx o) (Wgh o) (Wyh o) (Wyy o).
Definition set_Whx (v : loc) (o : obj) : obj :=
  Obj (eta0 o) (decay o) (t o) (s_dim o) (x_dim o) (x_bar o) (h_bar o) (g_bar o)
      v (Wgh o) (Wyh o) (Wyy o).
Definition set_Wgh (v : loc) (o : obj) : obj :=
  Obj (eta0 o) (decay o) (t o) (s_dim o) (x_dim o) (x_bar o) (h_bar o) (g_bar o)
      (Whx o) v (Wyh o) (Wyy o).
Definition set_Wyh (v : loc) (o : obj) : obj :=
  Obj (eta0 o) (decay o) (t o) (s_dim o) (x_dim o) (x_bar o) (h_bar o) (g_bar o)
      (Whx o) (Wgh o) v (Wyy o).
Definition set_Wyy (v : loc) (o : obj) : obj :=
  Obj (eta0 o) (decay o) (t o) (s_dim o) (x_dim o) (x_bar o) (h_bar o) (g_bar o)
      (Whx o) (Wgh o) (Wyh o) v.

(** The tuned hyperparameters [(eta0, decay)] of a dataset name. *)
Definition preset (dataset : option string) : Qc * Qc :=
  if decide (dataset = Some "3-dim_synthetic"%string)
  then (lit 1 10, lit 1 10000000)
  else if decide (dataset = Some "10-dim_synthetic"%string)
  then (lit 1 10, lit 1 1000000)
  else (lit 1 10, lit 1 1000).

(** [randn_hx] and [randn_yh] are the arrays that lines 166-168 and
    180-182 build when [Whx0], resp. [Wyh0], is [None]: random matrices of
    shape [s_dim] by [x_dim], resp. [s_dim] by [s_dim], with their rows
    normalised. *)
Definition __init__ (randn_hx randn_yh : matrix) (s_dim x_dim : nat)
    (dataset : option string) (Whx0 Wgh0 Wyh0 Wyy0 : option loc)
    (eta0 decay : option Qc) (h : heap) : heap * result obj :=
  match supplied_or h Whx0 s_dim s_dim randn_hx with
  | Raise e => (h, Raise e)
  | Ok Whx =>
  match supplied_or h Wgh0 s_dim s_dim (np.eye s_dim) with
  | Raise e => (h, Raise e)
  | Ok Wgh =>
  match supplied_or h Wyh0 s_dim s_dim randn_yh with
  | Raise e => (h, Raise e)
  | Ok Wyh =>
  match supplied_or h Wyy0 s_dim s_dim (np.eye s_dim) with
  | Raise e => (h, Raise e)
  | Ok Wyy =>
      let '(e, d) := preset dataset in
      let '(h1, lhx) := keep h Whx in
      let '(h2, lgh) := keep h1 Wgh in
      let '(h3, lyh) := keep h2 Wyh in
      let '(h4, lyy) := keep h3 Wyy in
      (h4, Ok (Obj (or_default eta0 e) (or_default decay d) 0 s_dim x_dim
                   (np.zeros x_dim) (np.zeros s_dim) (np.zeros s_dim)
                   lhx lgh lyh lyy))
  end end end end.

(** [A + k*(np.outer(u, v) - A)] *)
Definition relax (A : matrix) (k : Qc) (u v : vec) : result matrix :=
  let! D := np.msub (np.outer u v) A in
  np.madd A (np.mscale k D).

Section fit.

(** [quadprog.solve_qp(G, a, C, b)[0]] *)
Variable solve_qp : matrix → vec → matrix → vec → result vec.

Definition fit_next (x : vec) : Py obj vec :=
  let* o := get_self in
  let t := t o in
  let s_dim := s_dim o in
  (* h = np.linalg.inv(Wgh.T@Wgh)@Whx@x *)
  let* Wgh := deref (Wgh o) in
  let* Whx := deref (Whx o) in
  let* h := lift (let! G := np.matmul (np.T Wgh) Wgh in
                  let! Gi := np.linalg.inv G in
                  let! P := np.matmul Gi Whx in
                  np.matvec P x) in
  (* g = Wgh@h *)
  let* g := lift (np.matvec Wgh h) in
  (* running means *)
  let* x_bar := lift (mean_add (x_bar o) x (t + 1)) in
  let* h_bar := lift (mean_add (h_bar o) h (t + 1)) in
  let* g_bar := lift (mean_add (g_bar o) g (t + 1)) in
  update (set_x_bar x_bar) >>
  update (set_h_bar h_bar) >>
  update (set_g_bar g_bar) >>
  (* Whx = Whx + (1/(100+t))*(np.outer(h - h_bar,x - x_bar) - Whx) *)
  let k := (1 / of_nat (100 + t))%Qc in
  let* Whx1 := lift (let! dh := np.sub h h_bar in
                     let! dx := np.sub x x_bar in
                     relax Whx k dh dx) in
  (* Wgh = Wgh + (1/(100+t))*(np.outer(g - g_bar,h - h_bar) - Wgh) *)
  let* Wgh1 := lift (let! dg := np.sub g g_bar in
                     let! dh := np.sub h h_bar in
                     relax Wgh k dg dh) in
  (* self.Whx = Whx; self.Wgh = Wgh *)
  let* lhx := alloc Whx1 in
  update (set_Whx lhx) >>
  let* lgh := alloc Wgh1 in
  update (set_Wgh lgh) >>
  (* c = Wyh@h; y = solve_qp(Wyy, c, np.eye(s_dim), np.zeros(s_dim))[0] *)
  let* Wyh := deref (Wyh o) in
  let* Wyy := deref (Wyy o) in
  let* c := lift (np.matvec Wyh h) in
  let* y := lift (solve_qp Wyy c (np.eye s_dim) (np.zeros s_dim)) in
  (* step = self.eta0/(1+self.decay*t) *)
  let* step := lift (pydiv (eta0 o) (1 + decay o * of_nat t)%Qc) in
  (* Wyh = Wyh + step*(np.outer(y,h) - Wyh) *)
  let* Wyh1 := lift (relax Wyh step y h) in
  (* Wyy = Wyy + step*(np.outer(y,y) - Wyy) *)
  let* Wyy1 := lift (relax Wyy step y y) in
  (* if np.linalg.det(Wyy)<10**-4: Wyy += .1*np.eye(s_dim) *)
  let* d := lift (np.linalg.det Wyy1) in
  let* Wyy2 := (if decide (d < lit 1 10000)%Qc
                then lift (np.imadd Wyy1 (np.mscale (lit 1 10) (np.eye s_dim)))
                else ret Wyy1) in
  (* self.Wyh = Wyh; self.Wyy = Wyy; self.t += 1 *)
  let* lyh := alloc Wyh1 in
  update (set_Wyh lyh) >>
  let* lyy := alloc Wyy2 in
  update (set_Wyy lyy) >>
  update (λ o', set_t (two_layer_nsm.t o' + 1) o') >>
  ret y.

End fit.

Definition flip_weights (j : Z) : Py obj unit :=
  let* o := get_self in
  assert (bool_decide (0 ≤ j < Z.of_nat (s_dim o))%Z) >>
  let Wyh := Wyh o in
  (* Wyh[j,:] = -Wyh[j,:] *)
  let* A := deref Wyh in
  let* A' := lift (np.negate_row A j) in
  store Wyh A' >>
  update (set_Wyh Wyh).

End two_layer_nsm.

(** ** class nonnegative_pca *)

Module nonnegative_pca.

Record obj : Type := Obj {
  t : nat; eta0 : Qc; decay : Qc; s_dim : nat; x_dim : nat; W : loc }.

#[global] Instance obj_eq_dec : EqDecision obj.
Proof. solve_decision. Defined.

Definition set_t (v : nat) (o : obj) : obj :=
  Obj v (eta0 o) (decay o) (s_dim o) (x_dim o) (W o).
Definition set_W (v : loc) (o : obj) : obj :=
  Obj (t o) (eta0 o) (decay o) (s_dim o) (x_dim o) v.

(** The tuned hyperparameters [(eta0, decay)] of a dataset name. *)
Definition preset (dataset : option string) : Qc * Qc :=
  if decide (dataset = Some "3-dim_synthetic"%string)
  then (lit 1 10, lit 1 100000)
  else if decide (dataset = Some "10-dim_synthetic"%string)
  then (lit 1 100, lit 1 100000)
  else (lit 1 10, lit 1 1000).

(** [randn] is the array that lines 303-305 build when [W0] is [None]. *)
Definition __init__ (randn : matrix) (s_dim x_dim : nat) (dataset : option string)
    (W0 : option loc) (eta0 decay : option Qc) (h : heap) : heap * result obj :=
  match supplied_or h W0 s_dim x_dim randn with
  | Raise e => (h, Raise e)
  | Ok W =>
      let '(e, d) := preset dataset in
      let '(h1, lW) := keep h W in
      (h1, Ok (Obj 0 (or_default eta0 e) (or_default decay d) s_dim x_dim lW))
  end.

Definition fit_next (x : vec) : Py obj vec :=
  let* o := get_self in
  assert (bool_decide (length x = x_dim o)) >>
  let t := t o in
  let W := W o in
  (* y = np.maximum(W@x,0) *)
  let* W0 := deref W in
  let* p := lift (np.matvec W0 x) in
  let y := np.maximum p 0%Qc in
  (* step = self.eta0/(1+self.decay*t) *)
  let* step := lift (pydiv (eta0 o) (1 + decay o * of_nat t)%Qc) in
  (* W += step*(np.outer(y,x)-np.outer(y,y)@W) *)
  let* dW := lift (let! B := np.matmul (np.outer y y) W0 in
                   let! D := np.msub (np.outer y x) B in
                   Ok (np.mscale step D)) in
  let* W1 := lift (np.imadd W0 dW) in
  store W W1 >>
  (* self.W = W; self.t = t+1 *)
  update (set_W W) >>
  update (set_t (t + 1)) >>
  ret y.

Definition flip_weights (j : Z) : Py obj unit :=
  let* o := get_self in
  let W := W o in
  (* W[j,:] = -W[j,:] *)
  let* W0 := deref W in
  let* W1 := lift (np.negate_row W0 j) in
  store W W1 >>
  update (set_W W).

End nonnegative_pca.

(** ** The quadratic-programming primitive

    [solve_qp(G, a, C, b)] minimises [1/2 yᵗGy − aᵗy] subject to
    [Cᵗy ≥ b]. *)

Module quadprog.

Definition objective (G : matrix) (a y : vec) : Qc :=
  (lit 1 2 * np.dot y (fmap (λ r, np.dot r y) (rows G)) - np.dot a y)%Qc.

Definition feasible (C : matrix) (b y : vec) : Prop :=
  Forall2 Qcle b (fmap (λ r, np.dot r y) (rows (np.T C))).

Record solution (G : matrix) (a : vec) (C : matrix) (b y : vec) : Prop := {
  sol_dims : shape G = (length a, length a) ∧ shape C = (length a, length b);
  sol_length : length y = length a;
  sol_feasible : feasible C b y;
  sol_optimal : ∀ z, length z = length a → feasible C b z →
                     (objective G a y ≤ objective G a z)%Qc }.

(** What the learners assume of the routine: a returned vector is the
    constrained minimiser. *)
Definition correct (solve_qp : matrix → vec → matrix → vec → result vec) : Prop :=
  ∀ G a C b y, solve_qp G a C b = Ok y → solution G a C b y.

(** The routine on the programs with [G = Identity], [C = Identity],
    [b = 0], whose minimiser is the rectification of [a]; every other
    program is refused. *)
Definition solve_qp_eye (G : matrix) (a : vec) (C : matrix) (b : vec) : result vec :=
  let n := length a in
  if decide (G = np.eye n ∧ C = np.eye n ∧ b = np.zeros n)
  then Ok (np.maximum a 0%Qc)
  else Raise SolverError.

End quadprog.


(** ** The common interface

    The three classes offer the same two methods; a call [l.fit_next(x)] or
    [l.flip_weights(j)] runs the method of the class of [l]. *)

Inductive learner : Type :=
  | BioNICA (o : bio_nica.obj)
  | TwoLayerNSM (o : two_layer_nsm.obj)
  | NonnegativePCA (o : nonnegative_pca.obj).

#[global] Instance learner_eq_dec : EqDecision learner.
Proof. solve_decision. Defined.

Definition s_dim (l : learner) : nat :=
  match l with
  | BioNICA o => bio_nica.s_dim o
  | TwoLayerNSM o => two_layer_nsm.s_dim o
  | NonnegativePCA o => nonnegative_pca.s_dim o
  end.

Definition x_dim (l : learner) : nat :=
  match l with
  | BioNICA o => bio_nica.x_dim o
  | TwoLayerNSM o => two_layer_nsm.x_dim o
  | NonnegativePCA o => nonnegative_pca.x_dim o
  end.

(** The matrix whose rows [flip_weights] negates. *)
Definition designated (l : learner) : loc :=
  match l with
  | BioNICA o => bio_nica.W o
  | TwoLayerNSM o => two_layer_nsm.Wyh o
  | NonnegativePCA o => nonnegative_pca.W o
  end.

Definition call {S A} (inj : S → learner) (m : Py S A) (h : heap) (o : S)
    : (heap * learner) * result A :=
  let '((h', o'), r) := m (h, o) in ((h', inj o'), r).

Definition fit_next (solve_qp : matrix → vec → matrix → vec → result vec)
    (x : vec) (st : heap * learner) : (heap * learner) * result vec :=
  match st.2 with
  | BioNICA o => call BioNICA (bio_nica.fit_next solve_qp x) st.1 o
  | TwoLayerNSM o => call TwoLayerNSM (two_layer_nsm.fit_next solve_qp x) st.1 o
  | NonnegativePCA o => call NonnegativePCA (nonnegative_pca.fit_next x) st.1 o
  end.

Definition flip_weights (j : Z) (st : heap * learner) : (heap * learner) * result unit :=
  match st.2 with
  | BioNICA o => call BioNICA (bio_nica.flip_weights j) st.1 o
  | TwoLayerNSM o => call TwoLayerNSM (two_layer_nsm.flip_weights j) st.1 o
  | NonnegativePCA o => call NonnegativePCA (nonnegative_pca.flip_weights j) st.1 o
  end.

(** ** The update rules as the specification words them

    Componentwise arithmetic on vectors and matrices of matching shapes, and
    the formulas of the BioNICA learner (steps 3 to 7 of its [fit_next]).
    These are compared below with what the program computes. *)

Module spec.

Definition vadd (a b : vec) : vec := zip_with Qcplus a b.
Definition vsub (a b : vec) : vec := zip_with Qcminus a b.
Definition vdiv (a : vec) (k : Qc) : vec := (λ e, e / k)%Qc <$> a.
Definition madd (A B : matrix) : matrix :=
  Matrix (ncols A) (zip_with vadd (rows A) (rows B)).
Definition msub (A B : matrix) : matrix :=
  Matrix (ncols A) (zip_with vsub (rows A) (rows B)).
Definition smul (k : Qc) (A : matrix) : matrix :=
  Matrix (ncols A) ((λ r : vec, Qcmult k <$> r) <$> rows A).
Definition apply (A : matrix) (x : vec) : vec := (λ r : vec, np.dot r x) <$> rows A.
Definition det (A : matrix) : Qc := np.linalg.det_rows (nrows A) (rows A).

(** [mean += (sample - mean) / (t + 1)] *)
Definition full_history (mean sample : vec) (t : nat) : vec :=
  vadd mean (vdiv (vsub sample mean) (of_nat (t + 1))).

(** [mean += (sample - mean) / W] *)
Definition fixed_window (mean sample : vec) (W : nat) : vec :=
  vadd mean (vdiv (vsub sample mean) (of_nat W)).

(** [step = eta0 / (1 + decay * t)] *)
Definition step (eta0 decay : Qc) (t : nat) : Qc :=
  (eta0 / (1 + decay * of_nat t))%Qc.

(** [W ← W + 2·step·(y xᵗ − (c−c̄)(x−x̄)ᵗ)] *)
Definition W_update (W : matrix) (step : Qc) (y x c cbar xbar : vec) : matrix :=
  madd W (smul (2 * step)%Qc
               (msub (np.outer y x) (np.outer (vsub c cbar) (vsub x xbar)))).

(** [M ← M + (step/tau)·(y yᵗ − M)] *)
Definition M_update (M : matrix) (step tau : Qc) (y : vec) : matrix :=
  madd M (smul (step / tau)%Qc (msub (np.outer y y) M)).

(** WeightStabilizer: below the threshold, add [0.1 × Identity]. *)
Definition stabilizer (s : nat) (A : matrix) : matrix :=
  if decide (det A < lit 1 10000)%Qc
  then madd A (smul (lit 1 10) (np.eye s))
  else A.

End spec.

(** ** Predicates of the statements *)

(** The state in which [bio_nica.fit_next] is called: the two matrices are
    distinct objects of the declared shapes and the running means have the
    declared lengths. *)
Record bio_nica_state (h : heap) (o : bio_nica.obj) (Wm Mm : matrix) : Prop := {
  bs_W : h !! bio_nica.W o = Some Wm;
  bs_M : h !! bio_nica.M o = Some Mm;
  bs_distinct : bio_nica.W o ≠ bio_nica.M o;
  bs_wf_W : wf Wm;
  bs_wf_M : wf Mm;
  bs_shape_W : shape Wm = (bio_nica.s_dim o, bio_nica.x_dim o);
  bs_shape_M : shape Mm = (bio_nica.s_dim o, bio_nica.s_dim o);
  bs_x_bar : length (bio_nica.x_bar o) = bio_nica.x_dim o;
  bs_c_bar : length (bio_nica.c_bar o) = bio_nica.s_dim o }.

(** A computation that leaves every existing object as it is: the store can
    only grow at its end. *)
Definition grows {S A} (c : Py S A) : Prop :=
  ∀ st st' r, c st = (st', r) → st.1 `prefix_of` st'.1.

(** ** Observations on a learner and successive calls *)

(** [l.t] *)
Definition counter (l : learner) : nat :=
  match l with
  | BioNICA o => bio_nica.t o
  | TwoLayerNSM o => two_layer_nsm.t o
  | NonnegativePCA o => nonnegative_pca.t o
  end.

(** [(l.eta0, l.decay, l.tau)], the last only for [bio_nica]. *)
Definition rates (l : learner) : Qc * Qc * option Qc :=
  match l with
  | BioNICA o => (bio_nica.eta0 o, bio_nica.decay o, Some (bio_nica.tau o))
  | TwoLayerNSM o => (two_layer_nsm.eta0 o, two_layer_nsm.decay o, None)
  | NonnegativePCA o => (nonnegative_pca.eta0 o, nonnegative_pca.decay o, None)
  end.

(** [ys = [l.fit_next(x) for x in xs]]: the calls one after the other, up to
    the first that raises. *)
Fixpoint fit_all (solve_qp : matrix → vec → matrix → vec → result vec)
    (xs : list vec) (st : heap * learner) : (heap * learner) * result (list vec) :=
  match xs with
  | [] => (st, Ok [])
  | x :: xs' =>
      match fit_next solve_qp x st with
      | (st', Ok y) =>
          match fit_all solve_qp xs' st' with
          | (st'', Ok ys) => (st'', Ok (y :: ys))
          | (st'', Raise e) => (st'', Raise e)
          end
      | (st', Raise e) => (st', Raise e)
      end
  end.

(** From a state in [I], the computation ends in [Qok] when it returns and
    in [Qerr] when it raises. *)
Definition hoare {S A} (I : heap * S → Prop) (c : Py S A)
    (Qok Qerr : heap * S → Prop) : Prop :=
  ∀ st st' r, I st → c st = (st', r) →
    match r with Ok _ => Qok st' | Raise _ => Qerr st' end.

(** ** Further formulas and state predicates *)

(** The fields a call never assigns anew. *)
Definition bio_nica_fixed (o : bio_nica.obj) :=
  (bio_nica.eta0 o, bio_nica.decay o, bio_nica.tau o, bio_nica.s_dim o,
   bio_nica.x_dim o, bio_nica.M o, bio_nica.W o).
Definition two_layer_nsm_fixed (o : two_layer_nsm.obj) :=
  (two_layer_nsm.eta0 o, two_layer_nsm.decay o, two_layer_nsm.s_dim o,
   two_layer_nsm.x_dim o).
Definition nonnegative_pca_fixed (o : nonnegative_pca.obj) :=
  (nonnegative_pca.eta0 o, nonnegative_pca.decay o, nonnegative_pca.s_dim o,
   nonnegative_pca.x_dim o, nonnegative_pca.W o).

(** The matrix product, entry by entry. *)
Definition mmul (A B : matrix) : matrix :=
  Matrix (ncols B) ((λ r : vec, np.dot r <$> rows (np.T B)) <$> rows A).

(** [W ← W + step·(y xᵗ − (y yᵗ)·W)] *)
Definition pca_update (W : matrix) (step : Qc) (y x : vec) : matrix :=
  spec.madd W (spec.smul step (spec.msub (np.outer y x) (mmul (np.outer y y) W))).


(** The state in which [nonnegative_pca.fit_next] is called. *)
Record nonnegative_pca_state (h : heap) (o : nonnegative_pca.obj) (Wm : matrix)
    : Prop := {
  ps_W : h !! nonnegative_pca.W o = Some Wm;
  ps_wf_W : wf Wm;
  ps_shape_W : shape Wm = (nonnegative_pca.s_dim o, nonnegative_pca.x_dim o) }.

(** [A + k·(u vᵗ − A)] *)
Definition relaxed (A : matrix) (k : Qc) (u v : vec) : matrix :=
  spec.madd A (spec.smul k (spec.msub (np.outer u v) A)).

(** The state in which [two_layer_nsm.fit_next] is called: four well-formed
    matrices of shapes [s×x], [s×s], [s×s], [s×s] and running means of the
    matching lengths. *)
Record two_layer_nsm_state (h : heap) (o : two_layer_nsm.obj)
    (Whx Wgh Wyh Wyy : matrix) : Prop := {
  ns_Whx : h !! two_layer_nsm.Whx o = Some Whx;
  ns_Wgh : h !! two_layer_nsm.Wgh o = Some Wgh;
  ns_Wyh : h !! two_layer_nsm.Wyh o = Some Wyh;
  ns_Wyy : h !! two_layer_nsm.Wyy o = Some Wyy;
  ns_wf_Whx : wf Whx;
  ns_wf_Wgh : wf Wgh;
  ns_wf_Wyh : wf Wyh;
  ns_wf_Wyy : wf Wyy;
  ns_shape_Whx : shape Whx = (two_layer_nsm.s_dim o, two_layer_nsm.x_dim o);
  ns_shape_Wgh : shape Wgh = (two_layer_nsm.s_dim o, two_layer_nsm.s_dim o);
  ns_shape_Wyh : shape Wyh = (two_layer_nsm.s_dim o, two_layer_nsm.s_dim o);
  ns_shape_Wyy : shape Wyy = (two_layer_nsm.s_dim o, two_layer_nsm.s_dim o);
  ns_x_bar : length (two_layer_nsm.x_bar o) = two_layer_nsm.x_dim o;
  ns_h_bar : length (two_layer_nsm.h_bar o) = two_layer_nsm.s_dim o;
  ns_g_bar : length (two_layer_nsm.g_bar o) = two_layer_nsm.s_dim o }.

(** A learner whose matrices are objects of the store with the shapes its
    methods rely on. *)
Definition valid (h : heap) (l : learner) : Prop :=
  match l with
  | BioNICA o => ∃ Wm Mm, bio_nica_state h o Wm Mm
  | TwoLayerNSM o => ∃ Whx Wgh Wyh Wyy, two_layer_nsm_state h o Whx Wgh Wyh Wyy
  | NonnegativePCA o => ∃ Wm, nonnegative_pca_state h o Wm
  end.

(** [l.x_bar], which [nonnegative_pca] does not have. *)
Definition input_mean (l : learner) : option vec :=
  match l with
  | BioNICA o => Some (bio_nica.x_bar o)
  | TwoLayerNSM o => Some (two_layer_nsm.x_bar o)
  | NonnegativePCA _ => None
  end.

(** The sum of the vectors [xs], each of length [d]. *)
Definition vsum (d : nat) (xs : list vec) : vec := foldr spec.vadd (np.zeros d) xs.


(** ** Concrete states

    Small learners on which the statements below are run. *)

Module ex.

Definition I2 : matrix := np.eye 2.
Definition Z2 : matrix := Matrix 2 [[0%Qc; 0%Qc]; [0%Qc; 0%Qc]].
Definition e1 : vec := [1%Qc; 0%Qc].
Definition ones : vec := [1%Qc; 1%Qc].

(** [bio_nica(2, 2, M0=I2, W0=I2)] with the caller's two arrays at
    references 0 and 1. *)
Definition bio : bio_nica.obj :=
  bio_nica.Obj 0 (lit 1 10) (lit 1 1000) (lit 5 10) 2 2 (np.zeros 2) (np.zeros 2) 0 1.

(** [two_layer_nsm(2, 1, Whx0=I2, Wyh0=I2)] with the caller's two arrays at
    references 0 and 1 and the constructor's two identities at 2 and 3. *)
Definition nsm : two_layer_nsm.obj :=
  two_layer_nsm.Obj (lit 1 10) (lit 1 1000) 0 2 1 (np.zeros 1) (np.zeros 2) (np.zeros 2)
                    0 2 1 3.

(** [two_layer_nsm(2, 2, Whx0=I2, Wgh0=I2, Wyh0=I2, Wyy0=I2)] *)
Definition nsm2 : two_layer_nsm.obj :=
  two_layer_nsm.Obj (lit 1 10) (lit 1 1000) 0 2 2 (np.zeros 2) (np.zeros 2) (np.zeros 2)
                    0 1 2 3.

(** [nonnegative_pca(2, 2, W0=I2)] with the caller's array at reference 0. *)
Definition pca : nonnegative_pca.obj :=
  nonnegative_pca.Obj 0 (lit 1 10) (lit 1 1000) 2 2 0.

End ex.

(** * The methods in binary64

    Python floats and the float64 arrays of numpy are IEEE 754 binary64
    numbers. The module [f64] embeds the three [fit_next] methods a second
    time, statement by statement as above, over Rocq's primitive binary64
    numbers: every sum, product and quotient rounds to nearest, overflows
    to an infinity, and [nan] arises and propagates as in the program. It
    carries the properties that rounding, overflow or [nan] decide. The
    routines the methods call in other packages ([quadprog.solve_qp],
    [numpy.linalg.inv], [numpy.linalg.det]) are parameters. *)

Module f64.

#[local] Open Scope float_scope.

Abbreviation vec := (list float) (only parsing).

Record matrix : Type := Matrix { ncols : nat; rows : list vec }.

Definition nrows (m : matrix) : nat := length (rows m).
Definition shape (m : matrix) : nat * nat := (nrows m, ncols m).

(** Every row has the declared number of columns. *)
Definition wf (m : matrix) : Prop := Forall (λ r, length r = ncols m) (rows m).

Definition is_nan (a : float) : bool := negb (a =? a).

(** A Python [int] as a float. *)
Definition of_nat (n : nat) : float :=
  FloatOps.SF2Prim
    (SpecFloat.binary_normalize FloatOps.prec FloatOps.emax (Z.of_nat n) 0 false).

(** Python float division. *)
Definition pydiv (a b : float) : result float :=
  if b =? 0 then Raise ZeroDivisionError else Ok (a / b).

(** The rational number a finite float stands for. *)
Definition exact (a : float) : Qc :=
  match FloatOps.Prim2SF a with
  | SpecFloat.S754_finite s m e =>
      Q2Qc ((if s then - inject_Z (Zpos m) else inject_Z (Zpos m)) * Qpower 2 e)
  | _ => 0%Qc
  end.

(** ** numpy arrays of float64 *)

Module np.

Definition zeros (n : nat) : vec := replicate n 0.

Definition eye (n : nat) : matrix :=
  Matrix n (fmap (λ i, fmap (λ j, if decide (i = j) then 1 else 0) (seq 0 n))
                (seq 0 n)).

Definition bdim (m n : nat) : option nat :=
  if decide (m = n) then Some m
  else if decide (m = 1%nat) then Some n
  else if decide (n = 1%nat) then Some m
  else None.

Definition stretch {A} (n : nat) (l : list A) : list A :=
  match l with
  | [a] => replicate n a
  | _ => l
  end.

Definition bvec (f : float → float → float) (a b : vec) : result vec :=
  match bdim (length a) (length b) with
  | Some n => Ok (zip_with f (stretch n a) (stretch n b))
  | None => Raise ValueError
  end.

Definition bmat (f : float → float → float) (a b : matrix) : result matrix :=
  match bdim (nrows a) (nrows b), bdim (ncols a) (ncols b) with
  | Some r, Some c =>
      Ok (Matrix c (zip_with (λ ra rb, zip_with f (stretch c ra) (stretch c rb))
                             (stretch r (rows a)) (stretch r (rows b))))
  | _, _ => Raise ValueError
  end.

Definition add := bvec PrimFloat.add.
Definition sub := bvec PrimFloat.sub.
Definition madd := bmat PrimFloat.add.
Definition msub := bmat PrimFloat.sub.

(** [a += b]: the sum must have the shape of [a]. *)
Definition iadd (a b : vec) : result vec :=
  let! r := add a b in
  if decide (length r = length a) then Ok r else Raise ValueError.

Definition imadd (a b : matrix) : result matrix :=
  let! r := madd a b in
  if decide (shape r = shape a) then Ok r else Raise ValueError.

Definition scale (k : float) (a : vec) : vec := fmap (PrimFloat.mul k) a.
Definition mscale (k : float) (a : matrix) : matrix :=
  Matrix (ncols a) (fmap (scale k) (rows a)).
Definition divide (a : vec) (k : float) : vec := fmap (λ e, e / k) a.

(** [np.maximum(a, k)]: the larger of the two, and [nan] where [a] is. *)
Definition maximum (a : vec) (k : float) : vec :=
  fmap (λ e, if (k <=? e) || is_nan e then e else k) a.

Definition outer (a b : vec) : matrix :=
  Matrix (length b) (fmap (λ ai, fmap (λ bj, ai * bj) b) a).

(** The products are summed in the order of the index. *)
Definition dot (a b : vec) : float :=
  foldl PrimFloat.add 0 (zip_with PrimFloat.mul a b).

Definition T (m : matrix) : matrix :=
  Matrix (nrows m) (fmap (λ j, fmap (λ r, default 0 (r !! j)) (rows m)) (seq 0 (ncols m))).

Definition matvec (m : matrix) (x : vec) : result vec :=
  if decide (ncols m = length x) then Ok (fmap (λ r, dot r x) (rows m))
  else Raise ValueError.

Definition matmul (a b : matrix) : result matrix :=
  if decide (ncols a = nrows b)
  then Ok (Matrix (ncols b) (fmap (λ r, fmap (dot r) (rows (T b))) (rows a)))
  else Raise ValueError.

End np.

(** ** The routines of other packages *)

Record extern : Type := Extern {
  (* quadprog.solve_qp(G, a, C, b)[0] *)
  solve_qp : matrix → vec → matrix → vec → result vec;
  (* np.linalg.inv *)
  linalg_inv : matrix → result matrix;
  (* np.linalg.det *)
  linalg_det : matrix → result float }.

(** ** The object store *)

Abbreviation heap := (list matrix) (only parsing).

Definition Py (S A : Type) : Type := heap * S → (heap * S) * result A.

Definition ret {S A} (a : A) : Py S A := λ st, (st, Ok a).
Definition bind {S A B} (c : Py S A) (k : A → Py S B) : Py S B :=
  λ st, match c st with
        | (st', Ok a) => k a st'
        | (st', Raise e) => (st', Raise e)
        end.
Definition lift {S A} (r : result A) : Py S A := λ st, (st, r).
Definition raise {S A} (e : exn) : Py S A := λ st, (st, Raise e).
Definition assert {S} (b : bool) : Py S unit :=
  if b then ret () else raise AssertionError.
Definition get_self {S} : Py S S := λ st, (st, Ok st.2).
Definition update {S} (f : S → S) : Py S unit := λ st, ((st.1, f st.2), Ok ()).
Definition deref {S} (l : loc) : Py S matrix :=
  λ st, (st, match st.1 !! l with Some m => Ok m | None => Raise Dangling end).
Definition store {S} (l : loc) (m : matrix) : Py S unit :=
  λ st, ((<[l := m]> st.1, st.2), Ok ()).
Definition alloc {S} (m : matrix) : Py S loc :=
  λ st, ((st.1 ++ [m], st.2), Ok (length st.1)).

#[local] Notation "'let*' x := c 'in' k" := (bind c (fun x => k))
  (at level 10, x name, c at level 100, k at level 200).
#[local] Notation "c >> k" := (bind c (fun _ => k))
  (at level 100, k at level 200, right associativity).

(** [m += (v - m)/k], in place. *)
Definition mean_iadd (m v : vec) (k : nat) : result vec :=
  let! d := np.sub v m in
  np.iadd m (np.divide d (of_nat k)).

(** [m = m + (v - m)/k], a new array. *)
Definition mean_add (m v : vec) (k : nat) : result vec :=
  let! d := np.sub v m in
  np.add m (np.divide d (of_nat k)).

(** ** class bio_nica *)

Module bio_nica.

Record obj : Type := Obj {
  t : nat; eta0 : float; decay : float; tau : float; s_dim : nat; x_dim : nat;
  x_bar : vec; c_bar : vec; M : loc; W : loc }.

Definition set_t (v : nat) (o : obj) : obj :=
  Obj v (eta0 o) (decay o) (tau o) (s_dim o) (x_dim o) (x_bar o) (c_bar o) (M o) (W o).
Definition set_x_bar (v : vec) (o : obj) : obj :=
  Obj (t o) (eta0 o) (decay o) (tau o) (s_dim o) (x_dim o) v (c_bar o) (M o) (W o).
Definition set_c_bar (v : vec) (o : obj) : obj :=
  Obj (t o) (eta0 o) (decay o) (tau o) (s_dim o) (x_dim o) (x_bar o) v (M o) (W o).
Definition set_M (v : loc) (o : obj) : obj :=
  Obj (t o) (eta0 o) (decay o) (tau o) (s_dim o) (x_dim o) (x_bar o) (c_bar o) v (W o).
Definition set_W (v : loc) (o : obj) : obj :=
  Obj (t o) (eta0 o) (decay o) (tau o) (s_dim o) (x_dim o) (x_bar o) (c_bar o) (M o) v.

Section fit.

Variable lib : extern.

Definition fit_next (x : vec) : Py obj vec :=
  let* o := get_self in
  assert (bool_decide (length x = x_dim o)) >>
  let t := t o in
  let s_dim := s_dim o in
  let tau := tau o in
  let M := M o in
  let W := W o in
  (* c = W@x *)
  let* W0 := deref W in
  let* c := lift (np.matvec W0 x) in
  (* y = solve_qp(M, c, np.eye(s_dim), np.zeros(s_dim))[0] *)
  let* M0 := deref M in
  let* y := lift (solve_qp lib M0 c (np.eye s_dim) (np.zeros s_dim)) in
  (* x_bar += (x - x_bar)/(t+1) *)
  let* x_bar := lift (mean_iadd (x_bar o) x (t + 1)) in
  update (set_x_bar x_bar) >>
  (* c_bar += (c - c_bar)/100 *)
  let* c_bar := lift (mean_iadd (c_bar o) c 100) in
  update (set_c_bar c_bar) >>
  (* step = self.eta0/(1+self.decay*t) *)
  let* step := lift (pydiv (eta0 o) (1 + decay o * of_nat t)) in
  (* W += 2*step*(np.outer(y,x) - np.outer(c-c_bar,x-x_bar)) *)
  let* dW := lift (let! dc := np.sub c c_bar in
                   let! dx := np.sub x x_bar in
                   let! D := np.msub (np.outer y x) (np.outer dc dx) in
                   Ok (np.mscale (2 * step) D)) in
  let* W1 := deref W in
  let* W2 := lift (np.imadd W1 dW) in
  store W W2 >>
  (* M += (step/tau)*(np.outer(y,y) - M) *)
  let* k := lift (pydiv step tau) in
  let* M1 := deref M in
  let* dM := lift (let! D := np.msub (np.outer y y) M1 in Ok (np.mscale k D)) in
  let* M2 := lift (np.imadd M1 dM) in
  store M M2 >>
  (* if np.linalg.det(M)<10**-4: M += .1*np.eye(s_dim) *)
  let* M3 := deref M in
  let* d := lift (linalg_det lib M3) in
  (if d <? 1e-4
   then let* M4 := lift (np.imadd M3 (np.mscale 0.1 (np.eye s_dim))) in
        store M M4
   else ret ()) >>
  (* self.M = M; self.W = W; self.t += 1 *)
  update (set_M M) >>
  update (set_W W) >>
  update (λ o', set_t (bio_nica.t o' + 1) o') >>
  ret y.

End fit.

End bio_nica.

(** ** class two_layer_nsm *)

Module two_layer_nsm.

Record obj : Type := Obj {
  eta0 : float; decay : float; t : nat; s_dim : nat; x_dim : nat;
  x_bar : vec; h_bar : vec; g_bar : vec;
  Whx : loc; Wgh : loc; Wyh : loc; Wyy : loc }.

Definition set_t (v : nat) (o : obj) : obj :=
  Obj (eta0 o) (decay o) v (s_dim o) (x_dim o) (x_bar o) (h_bar o) (g_bar o)
      (Whx o) (Wgh o) (Wyh o) (Wyy o).
Definition set_x_bar (v : vec) (o : obj) : obj :=
  Obj (eta0 o) (decay o) (t o) (s_dim o) (x_dim o) v (h_bar o) (g_bar o)
      (Whx o) (Wgh o) (Wyh o) (Wyy o).
Definition set_h_bar (v : vec) (o : obj) : obj :=
  Obj (eta0 o) (decay o) (t o) (s_dim o) (x_dim o) (x_bar o) v (g_bar o)
      (Whx o) (Wgh o) (Wyh o) (Wyy o).
Definition set_g_bar (v : vec) (o : obj) : obj :=
  Obj (eta0 o) (decay o) (t o) (s_dim o) (x_dim o) (x_bar o) (h_bar o) v
      (Whx o) (Wgh o) (Wyh o) (Wyy o).
Definition set_Whx (v : loc) (o : obj) : obj :=
  Obj (eta0 o) (decay o) (t o) (s_dim o) (x_dim o) (x_bar o) (h_bar o) (g_bar o)
      v (Wgh o) (Wyh o) (Wyy o).
Definition set_Wgh (v : loc) (o : obj) : obj :=
  Obj (eta0 o) (decay o) (t o) (s_dim o) (x_dim o) (x_bar o) (h_bar o) (g_bar o)
      (Whx o) v (Wyh o) (Wyy o).
Definition set_Wyh (v : loc) (o : obj) : obj :=
  Obj (eta0 o) (decay o) (t o) (s_dim o) (x_dim o) (x_bar o) (h_bar o) (g_bar o)
      (Whx o) (Wgh o) v (Wyy o).
Definition set_Wyy (v : loc) (o : obj) : obj :=
  Obj (eta0 o) (decay o) (t o) (s_dim o) (x_dim o) (x_bar o) (h_bar o) (g_bar o)
      (Whx o) (Wgh o) (Wyh o) v.

(** [A + k*(np.outer(u, v) - A)] *)
Definition relax (A : matrix) (k : float) (u v : vec) : result matrix :=
  let! D := np.msub (np.outer u v) A in
  np.madd A (np.mscale k D).

Section fit.

Variable lib : extern.

Definition fit_next (x : vec) : Py obj vec :=
  let* o := get_self in
  let t := t o in
  let s_dim := s_dim o in
  (* h = np.linalg.inv(Wgh.T@Wgh)@Whx@x *)
  let* Wgh := deref (Wgh o) in
  let* Whx := deref (Whx o) in
  let* h := lift (let! G := np.matmul (np.T Wgh) Wgh in
                  let! Gi := linalg_inv lib G in
                  let! P := np.matmul Gi Whx in
                  np.matvec P x) in
  (* g = Wgh@h *)
  let* g := lift (np.matvec Wgh h) in
  (* running means *)
  let* x_bar := lift (mean_add (x_bar o) x (t + 1)) in
  let* h_bar := lift (mean_add (h_bar o) h (t + 1)) in
  let* g_bar := lift (mean_add (g_bar o) g (t + 1)) in
  update (set_x_bar x_bar) >>
  update (set_h_bar h_bar) >>
  update (set_g_bar g_bar) >>
  (* Whx = Whx + (1/(100+t))*(np.outer(h - h_bar,x - x_bar) - Whx) *)
  let k := 1 / of_nat (100 + t) in
  let* Whx1 := lift (let! dh := np.sub h h_bar in
                     let! dx := np.sub x x_bar in
                     relax Whx k dh dx) in
  (* Wgh = Wgh + (1/(100+t))*(np.outer(g - g_bar,h - h_bar) - Wgh) *)
  let* Wgh1 := lift (let! dg := np.sub g g_bar in
                     let! dh := np.sub h h_bar in
                     relax Wgh k dg dh) in
  (* self.Whx = Whx; self.Wgh = Wgh *)
  let* lhx := alloc Whx1 in
  update (set_Whx lhx) >>
  let* lgh := alloc Wgh1 in
  update (set_Wgh lgh) >>
  (* c = Wyh@h; y = solve_qp(Wyy, c, np.eye(s_dim), np.zeros(s_dim))[0] *)
  let* Wyh := deref (Wyh o) in
  let* Wyy := deref (Wyy o) in
  let* c := lift (np.matvec Wyh h) in
  let* y := lift (solve_qp lib Wyy c (np.eye s_dim) (np.zeros s_dim)) in
  (* step = self.eta0/(1+self.decay*t) *)
  let* step := lift (pydiv (eta0 o) (1 + decay o * of_nat t)) in
  (* Wyh = Wyh + step*(np.outer(y,h) - Wyh) *)
  let* Wyh1 := lift (relax Wyh step y h) in
  (* Wyy = Wyy + step*(np.outer(y,y) - Wyy) *)
  let* Wyy1 := lift (relax Wyy step y y) in
  (* if np.linalg.det(Wyy)<10**-4: Wyy += .1*np.eye(s_dim) *)
  let* d := lift (linalg_det lib Wyy1) in
  let* Wyy2 := (if d <? 1e-4
                then lift (np.imadd Wyy1 (np.mscale 0.1 (np.eye s_dim)))
                else ret Wyy1) in
  (* self.Wyh = Wyh; self.Wyy = Wyy; self.t += 1 *)
  let* lyh := alloc Wyh1 in
  update (set_Wyh lyh) >>
  let* lyy := alloc Wyy2 in
  update (set_Wyy lyy) >>
  update (λ o', set_t (two_layer_nsm.t o' + 1) o') >>
  ret y.

End fit.

End two_layer_nsm.

(** ** class nonnegative_pca *)

Module nonnegative_pca.

Record obj : Type := Obj {
  t : nat; eta0 : float; decay : float; s_dim : nat; x_dim : nat; W : loc }.

Definition set_t (v : nat) (o : obj) : obj :=
  Obj v (eta0 o) (decay o) (s_dim o) (x_dim o) (W o).
Definition set_W (v : loc) (o : obj) : obj :=
  Obj (t o) (eta0 o) (decay o) (s_dim o) (x_dim o) v.

Definition fit_next (x : vec) : Py obj vec :=
  let* o := get_self in
  assert (bool_decide (length x = x_dim o)) >>
  let t := t o in
  let W := W o in
  (* y = np.maximum(W@x,0) *)
  let* W0 := deref W in
  let* p := lift (np.matvec W0 x) in
  let y := np.maximum p 0 in
  (* step = self.eta0/(1+self.decay*t) *)
  let* step := lift (pydiv (eta0 o) (1 + decay o * of_nat t)) in
  (* W += step*(np.outer(y,x)-np.outer(y,y)@W) *)
  let* dW := lift (let! B := np.matmul (np.outer y y) W0 in
                   let! D := np.msub (np.outer y x) B in
                   Ok (np.mscale step D)) in
  let* W1 := lift (np.imadd W0 dW) in
  store W W1 >>
  (* self.W = W; self.t = t+1 *)
  update (set_W W) >>
  update (set_t (t + 1)) >>
  ret y.

End nonnegative_pca.

(** ** The common interface *)

Inductive learner : Type :=
  | BioNICA (o : bio_nica.obj)
  | TwoLayerNSM (o : two_layer_nsm.obj)
  | NonnegativePCA (o : nonnegative_pca.obj).

Definition call {S A} (inj : S → learner) (m : Py S A) (h : heap) (o : S)
    : (heap * learner) * result A :=
  let '((h', o'), r) := m (h, o) in ((h', inj o'), r).

Definition fit_next (lib : extern) (x : vec) (st : heap * learner)
    : (heap * learner) * result vec :=
  match st.2 with
  | BioNICA o => call BioNICA (bio_nica.fit_next lib x) st.1 o
  | TwoLayerNSM o => call TwoLayerNSM (two_layer_nsm.fit_next lib x) st.1 o
  | NonnegativePCA o => call NonnegativePCA (nonnegative_pca.fit_next x) st.1 o
  end.

(** ** Predicates of the statements *)

(** [0 <= e], which [nan] fails. *)
Definition nonneg (e : float) : Prop := (0 <=? e) = true.

(** What the learners assume of [solve_qp] on their programs, whose
    constraints are [C = Identity], [b = 0]: a returned vector satisfies
    the constraints. *)
Definition feasible_solver (solve_qp : matrix → vec → matrix → vec → result vec)
    : Prop :=
  ∀ G a n y, solve_qp G a (np.eye n) (np.zeros n) = Ok y → Forall nonneg y.



(** ** The routines on the programs of the examples *)

(** [solve_qp] on a program with a diagonal [G] of positive entries,
    [C = Identity] and [b = 0], where the minimiser is known entry by
    entry: [max(a/g, 0)]; every other program is refused. *)
Module quadprog.

Definition same_vec (a b : vec) : bool :=
  bool_decide (length a = length b) && forallb (λ p, p.1 =? p.2) (zip a b).

Definition same_matrix (A B : matrix) : bool :=
  bool_decide (shape A = shape B) &&
  forallb (λ p, same_vec p.1 p.2) (zip (rows A) (rows B)).

Definition diagonal (G : matrix) : bool :=
  forallb (λ p, forallb (λ q, if decide (p.1 = q.1) then 0 <? q.2 else q.2 =? 0)
                        (imap pair p.2))
          (imap pair (rows G)).

Definition solve_qp_diag (G : matrix) (a : vec) (C : matrix) (b : vec) : result vec :=
  let n := length a in
  if bool_decide (shape G = (n, n)) && diagonal G
     && same_matrix C (np.eye n) && same_vec b (np.zeros n)
  then Ok (imap (λ i ai, let g := match rows G !! i with
                                   | Some r => default 1 (r !! i)
                                   | None => 1
                                   end in
                         if 0 <? ai / g then ai / g else 0) a)
  else Raise SolverError.

End quadprog.

(** LAPACK's LU factorisation with partial pivoting, by which numpy
    inverts and takes determinants. *)
Module lapack.

(** The smallest positive normal number. *)
Definition sfmin : float := 0x1p-1022.

(** The index of the first entry of largest absolute value. *)
Fixpoint idamax_from (best : float) (bi i : nat) (col : list float) : nat :=
  match col with
  | [] => bi
  | a :: rest =>
      if best <? abs a then idamax_from (abs a) i (S i) rest
      else idamax_from best bi (S i) rest
  end.

Definition idamax (col : list float) : nat :=
  match col with
  | [] => 0%nat
  | a :: rest => idamax_from (abs a) 0 1 rest
  end.

(** Rows [0] and [p] exchanged. *)
Definition swap {A} (p : nat) (l : list A) : list A :=
  match l !! 0%nat, l !! p with
  | Some a0, Some ap => <[p := a0]> (<[0%nat := ap]> l)
  | _, _ => l
  end.

(** The multiplier of a row: the entry below the pivot, scaled by the
    reciprocal of the pivot. *)
Definition multiplier (piv a : float) : float :=
  if sfmin <=? abs piv then a * (1 / piv) else a / piv.

Definition eliminate (l : float) (u r : vec) : vec :=
  zip_with (λ a b, a - l * b) r u.

(** [gesv]: the solution [X] of [A X = B] for the [n] rows [(A_i, B_i)],
    by elimination with row exchanges and back substitution; an exactly
    zero pivot is the only thing that raises. *)
Fixpoint gesv (n : nat) (sys : list (vec * vec)) : result (list vec) :=
  match n with
  | O => Ok []
  | S n' =>
      let p := idamax (fmap (λ r, default 0 (head r.1)) sys) in
      match swap p sys with
      | (piv :: u, b) :: rest =>
          if piv =? 0 then Raise LinAlgError
          else
            let! X := gesv n'
                        (fmap (λ r, let l := multiplier piv (default 0 (head r.1)) in
                                    (eliminate l u (tail r.1), eliminate l b r.2))
                              rest) in
            let b' := foldl (λ acc q, zip_with (λ bj xj, bj - xj * q.1) acc q.2)
                            b (reverse (zip u X)) in
            Ok (fmap (λ bj, bj / piv) b' :: X)
      | _ => Raise LinAlgError
      end
  end.

Definition inv (m : matrix) : result matrix :=
  if decide (nrows m = ncols m)
  then let! X := gesv (nrows m) (zip (rows m) (rows (np.eye (nrows m)))) in
       Ok (Matrix (nrows m) X)
  else Raise LinAlgError.

(** The product of the pivots, with the sign of the row exchanges. (numpy
    multiplies the pivots through their logarithms.) *)
Fixpoint pivots (n : nat) (rs : list vec) : float :=
  match n with
  | O => 1
  | S n' =>
      let p := idamax (fmap (λ r, default 0 (head r)) rs) in
      match swap p rs with
      | (piv :: u) :: rest =>
          if piv =? 0 then 0
          else
            let d := piv * pivots n'
                             (fmap (λ r, eliminate (multiplier piv (default 0 (head r)))
                                                   u (tail r)) rest) in
            if decide (p = 0%nat) then d else - d
      | _ => 0
      end
  end.

Definition det (m : matrix) : result float :=
  if decide (nrows m = ncols m) then Ok (pivots (nrows m) (rows m))
  else Raise LinAlgError.

End lapack.

Definition lib : extern := Extern quadprog.solve_qp_diag lapack.inv lapack.det.

(** ** Concrete states *)

Module ex.

Definition I2 : matrix := Matrix 2 [[1; 0]; [0; 1]].

(** [nonnegative_pca(1, 2, W0=A)] and [nonnegative_pca(2, 2, W0=A)] with the
    caller's array at reference 0. *)
Definition pca12 : nonnegative_pca.obj := nonnegative_pca.Obj 0 0.1 0.001 1 2 0.
Definition pca22 : nonnegative_pca.obj := nonnegative_pca.Obj 0 0.1 0.001 2 2 0.

(** [two_layer_nsm(2, 2, Whx0=A, Wgh0=B, Wyh0=C, Wyy0=D)] with the four
    arrays at references 0 to 3. *)
Definition nsm : two_layer_nsm.obj :=
  two_layer_nsm.Obj 0.1 0.001 0 2 2 (np.zeros 2) (np.zeros 2) (np.zeros 2) 0 1 2 3.

(** [bio_nica(s, s, M0=A, W0=B, eta0=e, decay=0, tau=ta)] with [M0] at
    reference 0 and [W0] at reference 1. *)
Definition bio (s : nat) (e ta : float) : bio_nica.obj :=
  bio_nica.Obj 0 e 0 ta s s (np.zeros s) (np.zeros s) 0 1.



End ex.

End f64.

(** The matrix of the rationals that the entries of [A] stand for. *)
Definition exact_matrix (A : f64.matrix) : matrix :=
  Matrix (f64.ncols A) ((λ r : list float, f64.exact <$> r) <$> f64.rows A).

(** * Properties *)

(** ** Running a method step by step *)

Section monad_facts.
Context {S A B : Type}.
Implicit Types (c : Py S A) (k : A → Py S B).

Lemma bind_inv c k st st' b :
  bind c k st = (st', Ok b) →
  ∃ st1 a, c st = (st1, Ok a) ∧ k a st1 = (st', Ok b).
Proof.
  unfold bind. destruct (c st) as [st1 [a|e]]; [eauto|discriminate].
Qed.
End monad_facts.

Lemma lift_inv {S A} (r : result A) (st st' : heap * S) a :
  lift r st = (st', Ok a) → st' = st ∧ r = Ok a.
Proof. unfold lift. by intros [= -> ->]. Qed.

Lemma deref_inv {S} l (st st' : heap * S) m :
  deref l st = (st', Ok m) → st' = st ∧ st.1 !! l = Some m.
Proof.
  unfold deref. destruct (st.1 !! l); intros [= <- ?]; by subst.
Qed.

Lemma assert_inv {S} b (st st' : heap * S) u :
  assert b st = (st', Ok u) → st' = st ∧ b = true.
Proof. destruct b; unfold assert, ret, raise; by intros [= <-]. Qed.

Lemma rbind_inv {A B} (c : result A) (k : A → result B) b :
  rbind c k = Ok b → ∃ a, c = Ok a ∧ k a = Ok b.
Proof. destruct c; [eauto|discriminate]. Qed.

(** ** Indexing and row negation *)

Lemma index_in_range n (j : Z) :
  (0 ≤ j < Z.of_nat n)%Z → np.index n j = Ok (Z.to_nat j).
Proof. intros. unfold np.index. by rewrite decide_True. Qed.

Lemma negative_involutive (r : vec) : np.negative (np.negative r) = r.
Proof.
  unfold np.negative. rewrite <-list_fmap_compose.
  rewrite <-(list_fmap_id r) at 2. apply list_fmap_ext.
  intros _ x _. apply Qcopp_involutive.
Qed.

Lemma negate_row_in_range A (j : Z) r :
  (0 ≤ j < Z.of_nat (nrows A))%Z →
  rows A !! Z.to_nat j = Some r →
  np.negate_row A j = Ok (Matrix (ncols A) (<[Z.to_nat j := np.negative r]> (rows A))).
Proof.
  intros Hj Hr. unfold np.negate_row. rewrite index_in_range by done.
  simpl. by rewrite Hr.
Qed.

Lemma negate_row_defined A (j : Z) :
  (0 ≤ j < Z.of_nat (nrows A))%Z →
  ∃ r, rows A !! Z.to_nat j = Some r ∧
       np.negate_row A j =
         Ok (Matrix (ncols A) (<[Z.to_nat j := np.negative r]> (rows A))).
Proof.
  intros Hj. destruct (lookup_lt_is_Some_2 (rows A) (Z.to_nat j)) as [r Hr].
  { unfold nrows in Hj. lia. }
  exists r. split; [done|]. by apply negate_row_in_range.
Qed.

Lemma negate_row_twice A A' (j : Z) :
  (0 ≤ j < Z.of_nat (nrows A))%Z →
  np.negate_row A j = Ok A' → np.negate_row A' j = Ok A.
Proof.
  intros Hj HA'. destruct (negate_row_defined A j Hj) as (r & Hr & E).
  rewrite E in HA'. injection HA' as <-.
  assert (Z.to_nat j < length (rows A)) by (by eapply lookup_lt_Some).
  rewrite (negate_row_in_range _ j (np.negative r)); simpl.
  - rewrite list_insert_insert_eq, negative_involutive, list_insert_id by done.
    by destruct A.
  - unfold nrows. simpl. by rewrite length_insert.
  - by rewrite list_lookup_insert_eq.
Qed.

(** ** [flip_weights] *)

Lemma bio_nica_flip_run h o (j : Z) A A' :
  (0 ≤ j < Z.of_nat (bio_nica.s_dim o))%Z →
  h !! bio_nica.W o = Some A →
  np.negate_row A j = Ok A' →
  bio_nica.flip_weights j (h, o) = ((<[bio_nica.W o := A']> h, o), Ok ()).
Proof.
  intros Hj HA HA'.
  unfold bio_nica.flip_weights, bind, get_self, assert, deref, lift, store, update.
  cbn. rewrite bool_decide_eq_true_2 by done. cbn. rewrite HA, HA'.
  by destruct o.
Qed.

Lemma two_layer_nsm_flip_run h o (j : Z) A A' :
  (0 ≤ j < Z.of_nat (two_layer_nsm.s_dim o))%Z →
  h !! two_layer_nsm.Wyh o = Some A →
  np.negate_row A j = Ok A' →
  two_layer_nsm.flip_weights j (h, o) = ((<[two_layer_nsm.Wyh o := A']> h, o), Ok ()).
Proof.
  intros Hj HA HA'.
  unfold two_layer_nsm.flip_weights, bind, get_self, assert, deref, lift, store, update.
  cbn. rewrite bool_decide_eq_true_2 by done. cbn. rewrite HA, HA'.
  by destruct o.
Qed.

Lemma nonnegative_pca_flip_run h o (j : Z) A A' :
  h !! nonnegative_pca.W o = Some A →
  np.negate_row A j = Ok A' →
  nonnegative_pca.flip_weights j (h, o) = ((<[nonnegative_pca.W o := A']> h, o), Ok ()).
Proof.
  intros HA HA'.
  unfold nonnegative_pca.flip_weights, bind, get_self, deref, lift, store, update.
  cbn. rewrite HA, HA'. by destruct o.
Qed.

(** One valid call of any learner stores the row-negated matrix and touches
    nothing else. *)
Lemma flip_weights_run (l : learner) h (j : Z) A A' :
  (0 ≤ j < Z.of_nat (s_dim l))%Z →
  h !! designated l = Some A →
  np.negate_row A j = Ok A' →
  flip_weights j (h, l) = ((<[designated l := A']> h, l), Ok ()).
Proof.
  intros Hj HA HA'. destruct l as [o|o|o]; unfold flip_weights, call; cbv [fst snd].
  - by rewrite (bio_nica_flip_run h o j A A').
  - by rewrite (two_layer_nsm_flip_run h o j A A').
  - by rewrite (nonnegative_pca_flip_run h o j A A').
Qed.

(** The failed index assertion of [bio_nica] and [two_layer_nsm]. *)
Lemma flip_weights_asserted (l : learner) h (j : Z) :
  (∀ o, l ≠ NonnegativePCA o) →
  ¬ (0 ≤ j < Z.of_nat (s_dim l))%Z →
  flip_weights j (h, l) = ((h, l), Raise AssertionError).
Proof.
  intros Hl Hj. destruct l as [o|o|o]; [| |by destruct (Hl o)];
    unfold flip_weights, call, bio_nica.flip_weights, two_layer_nsm.flip_weights,
      bind, get_self, assert, raise; cbn;
    by rewrite bool_decide_eq_false_2.
Qed.

(** C8. For every learner, whose designated matrix has [s_dim] rows, and
    every index [j] in [[0, s_dim)], a call [flip_weights(j)] returns,
    leaves the learner's fields and every object other than the designated
    matrix as they were, keeps the shape of the designated matrix and every
    row other than row [j]; a second call [flip_weights(j)] restores the
    state before the first call exactly. *)
Theorem flip_weights_involution (l : learner) (h : heap) (j : Z) (A : matrix) :
  (0 ≤ j < Z.of_nat (s_dim l))%Z →
  h !! designated l = Some A →
  nrows A = s_dim l →
  ∃ h1 A1,
    flip_weights j (h, l) = ((h1, l), Ok ()) ∧
    flip_weights j (h1, l) = ((h, l), Ok ()) ∧
    h1 !! designated l = Some A1 ∧
    shape A1 = shape A ∧
    (∀ i, i ≠ Z.to_nat j → rows A1 !! i = rows A !! i) ∧
    (∀ l', l' ≠ designated l → h1 !! l' = h !! l').
Proof.
  intros Hj HA Hn.
  assert (Hj' : (0 ≤ j < Z.of_nat (nrows A))%Z) by lia.
  destruct (negate_row_defined A j Hj') as (r & Hr & E).
  pose proof (lookup_lt_Some _ _ _ HA) as Hl.
  set (A1 := Matrix (ncols A) (<[Z.to_nat j := np.negative r]> (rows A))) in *.
  exists (<[designated l := A1]> h), A1. split_and!.
  - by apply flip_weights_run with A.
  - rewrite (flip_weights_run l _ j A1 A); try done.
    + by rewrite list_insert_insert_eq, list_insert_id.
    + by rewrite list_lookup_insert_eq.
    + by apply negate_row_twice.
  - by rewrite list_lookup_insert_eq.
  - unfold shape, nrows, A1. simpl. by rewrite length_insert.
  - intros i Hi. unfold A1. simpl. by rewrite list_lookup_insert_ne.
  - intros l' Hl'. by rewrite list_lookup_insert_ne.
Qed.

Lemma flip_weights_involution_witness :
  ∃ h1 A1,
    flip_weights 1 ([ex.I2; ex.I2], BioNICA ex.bio) = ((h1, BioNICA ex.bio), Ok ()) ∧
    flip_weights 1 (h1, BioNICA ex.bio) = (([ex.I2; ex.I2], BioNICA ex.bio), Ok ()) ∧
    h1 !! designated (BioNICA ex.bio) = Some A1 ∧
    shape A1 = shape ex.I2 ∧
    (∀ i, i ≠ Z.to_nat 1 → rows A1 !! i = rows ex.I2 !! i) ∧
    (∀ l', l' ≠ designated (BioNICA ex.bio) → h1 !! l' = [ex.I2; ex.I2] !! l').
Proof.
  apply (flip_weights_involution (BioNICA ex.bio) [ex.I2; ex.I2] 1 ex.I2).
  - simpl. lia.
  - reflexivity.
  - reflexivity.
Defined.

(** Past both ends of the axis numpy refuses the index and nothing is
    written. *)
Lemma nonnegative_pca_flip_out_of_bounds h o (j : Z) A :
  h !! nonnegative_pca.W o = Some A →
  (j < - Z.of_nat (nrows A) ∨ Z.of_nat (nrows A) ≤ j)%Z →
  nonnegative_pca.flip_weights j (h, o) = ((h, o), Raise IndexError).
Proof.
  intros HA Hj.
  unfold nonnegative_pca.flip_weights, bind, get_self, deref, lift. cbn.
  rewrite HA. unfold np.negate_row, np.index.
  rewrite !decide_False by lia. done.
Qed.

(** C4, at the failing input. [nonnegative_pca.flip_weights] has no index
    assertion: on a learner with [s_dim = 2] the call [flip_weights(-1)]
    returns normally and has negated the last row of [W]. *)
Theorem nonnegative_pca_flip_weights_negative_index :
  flip_weights (-1) ([ex.I2], NonnegativePCA ex.pca) =
    (([Matrix 2 [[1%Qc; 0%Qc]; [0%Qc; (-1)%Qc]]], NonnegativePCA ex.pca), Ok ()).
Proof. compute_done. Qed.

(** ** Construction *)

Lemma supplied_or_accepts h l m r c fresh :
  h !! l = Some m → shape m = (r, c) → supplied_or h (Some l) r c fresh = Ok (inl l).
Proof. intros Hl Hm. unfold supplied_or. rewrite Hl. by rewrite decide_True. Qed.

Lemma supplied_or_rejects h l m r c fresh :
  h !! l = Some m → shape m ≠ (r, c) →
  supplied_or h (Some l) r c fresh = Raise AssertionError.
Proof. intros Hl Hm. unfold supplied_or. rewrite Hl. by rewrite decide_False. Qed.

(** The assertion on [Whx0] compares with [(s_dim, s_dim)]: an array of the
    documented shape [(s_dim, x_dim)] is rejected whenever the two
    dimensions differ. *)
Lemma two_layer_nsm_init_Whx0 randn_hx randn_yh s x dataset l m
    Wgh0 Wyh0 Wyy0 eta0 decay (h : heap) :
  h !! l = Some m → shape m = (s, x) → s ≠ x →
  two_layer_nsm.__init__ randn_hx randn_yh s x dataset (Some l) Wgh0 Wyh0 Wyy0
    eta0 decay h = (h, Raise AssertionError).
Proof.
  intros Hl Hm Hsx. unfold two_layer_nsm.__init__.
  rewrite (supplied_or_rejects h l m); [done..|].
  rewrite Hm. intros [= ?]. done.
Qed.

(** C7, at the failing input. Constructing [two_layer_nsm(2, 3, Whx0=A)]
    with [A] of shape [(2, 3)] fails on the shape assertion. *)
Theorem two_layer_nsm_init_rejects_s_by_x randn_hx randn_yh :
  let A := Matrix 3 [[1%Qc; 0%Qc; 0%Qc]; [0%Qc; 1%Qc; 0%Qc]] in
  shape A = (2, 3) ∧
  two_layer_nsm.__init__ randn_hx randn_yh 2 3 None (Some 0) None None None
    None None [A] = ([A], Raise AssertionError).
Proof. split; reflexivity. Qed.

(** ** Wrong-length inputs *)

Lemma bio_nica_fit_next_asserted solve_qp (x : vec) h o :
  length x ≠ bio_nica.x_dim o →
  bio_nica.fit_next solve_qp x (h, o) = ((h, o), Raise AssertionError).
Proof.
  intros Hx. unfold bio_nica.fit_next, bind, get_self, assert, raise. cbn.
  by rewrite bool_decide_eq_false_2.
Qed.

Lemma nonnegative_pca_fit_next_asserted (x : vec) h o :
  length x ≠ nonnegative_pca.x_dim o →
  nonnegative_pca.fit_next x (h, o) = ((h, o), Raise AssertionError).
Proof.
  intros Hx. unfold nonnegative_pca.fit_next, bind, get_self, assert, raise. cbn.
  by rewrite bool_decide_eq_false_2.
Qed.

(** [bio_nica] and [nonnegative_pca] check the length of the input before
    anything else. *)
Lemma fit_next_asserted solve_qp (l : learner) (x : vec) h :
  (∀ o, l ≠ TwoLayerNSM o) →
  length x ≠ x_dim l →
  fit_next solve_qp x (h, l) = ((h, l), Raise AssertionError).
Proof.
  intros Hl Hx. destruct l as [o|o|o]; [|by destruct (Hl o)|];
    unfold fit_next, call; cbv [fst snd].
  - by rewrite bio_nica_fit_next_asserted.
  - by rewrite nonnegative_pca_fit_next_asserted.
Qed.

(** C3, at the failing input. [two_layer_nsm.fit_next] has no assertion on
    its input. The learner [two_layer_nsm(2, 1, Whx0=I2, Wyh0=I2)] is
    constructed ([Whx0] passes the assertion against [(s_dim, s_dim)]), and
    on the input [[1, 1]], of length 2 where [x_dim = 1], [fit_next]
    returns [[1, 1]]: the running mean of the inputs has become a vector of
    length 2, all four matrices have been replaced and [t] is 1. *)
Theorem two_layer_nsm_fit_next_wrong_length :
  two_layer_nsm.__init__ ex.I2 ex.I2 2 1 None (Some 0) None (Some 1) None None None
    [ex.I2; ex.I2] = ([ex.I2; ex.I2; ex.I2; ex.I2], Ok ex.nsm) ∧
  length ex.ones ≠ x_dim (TwoLayerNSM ex.nsm) ∧
  fit_next quadprog.solve_qp_eye ex.ones
    ([ex.I2; ex.I2; ex.I2; ex.I2], TwoLayerNSM ex.nsm) =
  (([ex.I2; ex.I2; ex.I2; ex.I2;
     np.mscale (lit 99 100) ex.I2; np.mscale (lit 99 100) ex.I2;
     Matrix 2 [[1%Qc; lit 1 10]; [lit 1 10; 1%Qc]];
     Matrix 2 [[1%Qc; lit 1 10]; [lit 1 10; 1%Qc]]],
    TwoLayerNSM (two_layer_nsm.Obj (lit 1 10) (lit 1 1000) 1 2 1
                   ex.ones ex.ones ex.ones 4 5 6 7)),
   Ok ex.ones).
Proof. split_and!; compute_done. Qed.

(** ** Elementwise operations on equal shapes *)

Lemma bdim_same n : np.bdim n n = Some n.
Proof. unfold np.bdim. by rewrite decide_True. Qed.

Lemma stretch_id {A} n (l : list A) : length l = n → np.stretch n l = l.
Proof. destruct l as [|a [|b l]]; simpl; intros <-; done. Qed.

Lemma bvec_same_length f (a b : vec) :
  length a = length b → np.bvec f a b = Ok (zip_with f a b).
Proof.
  intros Hab. unfold np.bvec. rewrite Hab, bdim_same.
  by rewrite !stretch_id.
Qed.

Lemma iadd_same_length (a b : vec) :
  length a = length b → np.iadd a b = Ok (zip_with Qcplus a b).
Proof.
  intros Hab. unfold np.iadd, np.add. rewrite bvec_same_length by done.
  simpl. rewrite decide_True; [done|].
  rewrite length_zip_with. lia.
Qed.

Lemma length_divide (a : vec) k : length (np.divide a k) = length a.
Proof. unfold np.divide. by rewrite length_fmap. Qed.

Lemma length_zeros n : length (np.zeros n) = n.
Proof. unfold np.zeros. by rewrite length_replicate. Qed.

(** ** Full-history running means *)












(** ** Order facts on [Qc], through [Q] *)

Ltac qc2q :=
  unfold Qcle, Qclt, Qcminus, Qcdiv, lit in *;
  repeat match goal with
  | H : @eq Qc _ _ |- _ => apply (f_equal this) in H
  | |- @eq Qc _ _ => apply Qc_is_canon
  end;
  cbn [this Qcplus Qcmult Qcopp Qcinv Q2Qc] in *;
  rewrite ?Qred_correct in *;
  repeat match goal with
  | x : Qc |- _ => generalize dependent (this x); clear x
  end;
  intros.

Lemma Qsquare_nonneg (x : Q) : (0 <= x * x)%Q.
Proof. nra. Qed.

Lemma Qcmax_ge_r (a b : Qc) : (b ≤ Qcmax a b)%Qc.
Proof. unfold Qcmax. destruct (decide (a ≤ b)%Qc); [done|]. by apply Qclt_le_weak, Qclt_nge. Qed.

Lemma maximum_nonneg (p : vec) : Forall (λ e, 0 ≤ e)%Qc (np.maximum p 0%Qc).
Proof.
  unfold np.maximum. apply Forall_fmap, Forall_true. intros e. apply Qcmax_ge_r.
Qed.

(** ** The identity matrix *)

Lemma nrows_eye n : nrows (np.eye n) = n.
Proof. unfold nrows, np.eye. simpl. by rewrite length_fmap, length_seq. Qed.

Lemma shape_eye n : shape (np.eye n) = (n, n).
Proof. unfold shape. by rewrite nrows_eye. Qed.

Lemma T_eye n : np.T (np.eye n) = np.eye n.
Proof.
  unfold np.T. rewrite nrows_eye. unfold np.eye. simpl. f_equal.
  apply list_fmap_ext. intros k j Hk.
  apply lookup_seq in Hk as [-> Hk]. simpl.
  rewrite <-list_fmap_compose. apply list_fmap_ext. intros k' i Hk'.
  apply lookup_seq in Hk' as [-> Hk']. simpl.
  rewrite list_lookup_fmap, lookup_seq_lt by done. simpl.
  destruct (decide (k' = k)), (decide (k = k')); done || lia.
Qed.

Lemma dot_nil_r (a : vec) : np.dot a [] = 0%Qc.
Proof. unfold np.dot. by rewrite zip_with_nil_r. Qed.

Lemma dot_cons a0 (a : vec) b0 (b : vec) :
  np.dot (a0 :: a) (b0 :: b) = (a0 * b0 + np.dot a b)%Qc.
Proof. done. Qed.

Lemma dot_unit_before (i s n : nat) (y : vec) :
  i < s →
  np.dot ((λ j, if decide (i = j) then 1%Qc else 0%Qc) <$> seq s n) y = 0%Qc.
Proof.
  revert s y. induction n as [|n IH]; intros s y Hi; [done|].
  destruct y as [|e y]; [apply dot_nil_r|].
  simpl. rewrite dot_cons, IH by lia.
  rewrite decide_False by lia. ring.
Qed.

Lemma dot_unit (i s n : nat) (y : vec) :
  s ≤ i < s + n →
  np.dot ((λ j, if decide (i = j) then 1%Qc else 0%Qc) <$> seq s n) y
    = default 0%Qc (y !! (i - s)).
Proof.
  revert s y. induction n as [|n IH]; intros s y Hi; [lia|].
  destruct y as [|e y]; [apply dot_nil_r|].
  simpl. rewrite dot_cons. destruct (decide (i = s)) as [->|Hne].
  - rewrite dot_unit_before by lia. rewrite Nat.sub_diag. simpl. ring.
  - rewrite IH by lia. replace (i - s) with (S (i - S s)) by lia. simpl. ring.
Qed.

Lemma eye_matvec n (y : vec) :
  length y = n → (λ r, np.dot r y) <$> rows (np.eye n) = y.
Proof.
  intros Hy. apply list_eq. intros i.
  unfold np.eye. simpl. rewrite !list_lookup_fmap.
  destruct (decide (i < n)) as [Hi|Hi].
  - rewrite lookup_seq_lt by done. simpl.
    rewrite dot_unit by lia. rewrite Nat.sub_0_r.
    destruct (lookup_lt_is_Some_2 y i) as [e He]; [lia|]. by rewrite He.
  - rewrite lookup_seq_ge by lia. simpl. symmetry. apply lookup_ge_None. lia.
Qed.

(** ** Feasibility under [C = Identity], [b = 0] *)

Lemma zeros_le (y : vec) n :
  Forall2 Qcle (np.zeros n) y ↔ length y = n ∧ Forall (λ e, 0 ≤ e)%Qc y.
Proof.
  unfold np.zeros. revert y. induction n as [|n IH]; intros y; simpl.
  - split.
    + intros ->%Forall2_nil_inv_l. by split.
    + intros [->%nil_length_inv _]. constructor.
  - split.
    + intros (e & y' & He & Hy' & ->)%Forall2_cons_inv_l.
      apply IH in Hy' as [<- Hy']. split; [done|]. by constructor.
    + intros [Hlen Hy]. destruct y as [|e y]; [done|].
      apply Forall_cons in Hy as [He Hy]. constructor; [done|].
      apply IH. split; [|done]. simpl in Hlen. lia.
Qed.

Lemma feasible_eye n (y : vec) :
  length y = n →
  quadprog.feasible (np.eye n) (np.zeros n) y ↔ Forall (λ e, 0 ≤ e)%Qc y.
Proof.
  intros Hy. unfold quadprog.feasible. rewrite T_eye, eye_matvec by done.
  rewrite zeros_le. split; [by intros [_ ?]|by split].
Qed.

(** ** The rectifying instance of the primitive *)

Lemma length_maximum (a : vec) k : length (np.maximum a k) = length a.
Proof. unfold np.maximum. by rewrite length_fmap. Qed.

Lemma rectify_pointwise (a z : Qc) :
  (0 ≤ z)%Qc →
  (lit 1 2 * (Qcmax a 0 * Qcmax a 0) - a * Qcmax a 0
     ≤ lit 1 2 * (z * z) - a * z)%Qc.
Proof.
  intros Hz. unfold Qcmax. destruct (decide (a ≤ 0)%Qc) as [Ha|Ha].
  - qc2q. nra.
  - apply Qclt_nge in Ha. qc2q.
    match goal with a : Q, z : Q |- _ => pose proof (Qsquare_nonneg (z - a)) end.
    lra.
Qed.

Lemma rectify_optimal (a z : vec) :
  length z = length a →
  Forall (λ e, 0 ≤ e)%Qc z →
  (lit 1 2 * np.dot (np.maximum a 0) (np.maximum a 0) - np.dot a (np.maximum a 0)
     ≤ lit 1 2 * np.dot z z - np.dot a z)%Qc.
Proof.
  revert z. induction a as [|a0 a IH]; intros z Hlen Hz.
  - destruct z; [|done]. apply Qcle_refl.
  - destruct z as [|z0 z]; [done|].
    apply Forall_cons in Hz as [Hz0 Hz].
    specialize (IH z ltac:(simpl in Hlen; lia) Hz).
    pose proof (rectify_pointwise a0 z0 Hz0) as H0.
    change (np.maximum (a0 :: a) 0) with (Qcmax a0 0 :: np.maximum a 0).
    rewrite !dot_cons.
    generalize dependent (np.dot (np.maximum a 0) (np.maximum a 0)).
    generalize dependent (np.dot a (np.maximum a 0)).
    generalize dependent (np.dot z z). generalize dependent (np.dot a z).
    generalize dependent (Qcmax a0 0).
    clear. intros. qc2q. lra.
Qed.

Lemma solve_qp_eye_correct : quadprog.correct quadprog.solve_qp_eye.
Proof.
  intros G a C b y. unfold quadprog.solve_qp_eye.
  destruct (decide _) as [(-> & -> & ->)|]; [|discriminate].
  intros [= <-]. split.
  - by rewrite shape_eye, length_zeros.
  - apply length_maximum.
  - apply feasible_eye; [apply length_maximum|apply maximum_nonneg].
  - intros z Hlen Hz. apply feasible_eye in Hz; [|done].
    unfold quadprog.objective.
    rewrite !eye_matvec by (done || apply length_maximum).
    by apply rectify_optimal.
Qed.

Lemma call_inv {S A} (inj : S → learner) (m : Py S A) h o h' l' r :
  call inj m h o = ((h', l'), r) → ∃ o', l' = inj o' ∧ m (h, o) = ((h', o'), r).
Proof.
  unfold call. destruct (m (h, o)) as [[h1 o1] r1]. intros [= <- <- <-]. eauto.
Qed.

(** ** Shapes *)

Lemma wf_outer (a b : vec) : wf (np.outer a b).
Proof.
  unfold wf, np.outer. simpl. apply Forall_fmap, Forall_true.
  intros e. simpl. by rewrite length_fmap.
Qed.

Lemma shape_outer (a b : vec) : shape (np.outer a b) = (length a, length b).
Proof. unfold shape, nrows, np.outer. simpl. by rewrite length_fmap. Qed.

Lemma wf_eye n : wf (np.eye n).
Proof.
  unfold wf, np.eye. simpl. apply Forall_fmap, Forall_true.
  intros i. simpl. by rewrite length_fmap, length_seq.
Qed.

Lemma mscale_spec k A : np.mscale k A = spec.smul k A.
Proof. done. Qed.

Lemma wf_smul k A : wf A → wf (spec.smul k A).
Proof.
  unfold wf, spec.smul. simpl. intros HA. apply Forall_fmap.
  eapply Forall_impl; [exact HA|]. intros r Hr. simpl. by rewrite length_fmap.
Qed.

Lemma shape_smul k A : shape (spec.smul k A) = shape A.
Proof. unfold shape, nrows, spec.smul. simpl. by rewrite length_fmap. Qed.

Lemma zip_rows_stretch (f : Qc → Qc → Qc) c (ra rb : list (list Qc)) :
  Forall (λ r, length r = c) ra → Forall (λ r, length r = c) rb →
  zip_with (λ a b, zip_with f (np.stretch c a) (np.stretch c b)) ra rb
    = zip_with (zip_with f) ra rb.
Proof.
  intros Ha. revert rb. induction Ha as [|a ra Hlen Ha IH]; intros rb Hb; [done|].
  destruct Hb as [|b rb Hlenb Hb]; [done|]. simpl.
  rewrite !stretch_id by done. f_equal. by apply IH.
Qed.

Lemma bmat_same_shape f A B :
  wf A → wf B → shape A = shape B →
  np.bmat f A B = Ok (Matrix (ncols A) (zip_with (zip_with f) (rows A) (rows B))).
Proof.
  intros HA HB [= Hr Hc]. unfold np.bmat. rewrite <-Hr, <-Hc, !bdim_same.
  rewrite !stretch_id by done. rewrite zip_rows_stretch; [done..|].
  unfold wf in HB. by rewrite Hc.
Qed.

Lemma Forall_zip_length (f : Qc → Qc → Qc) c (ra rb : list (list Qc)) :
  Forall (λ r, length r = c) ra → Forall (λ r, length r = c) rb →
  Forall (λ r, length r = c) (zip_with (zip_with f) ra rb).
Proof.
  intros Ha. revert rb. induction Ha as [|a ra Hlen Ha IH]; intros rb Hb; [constructor|].
  destruct Hb as [|b rb Hlenb Hb]; [constructor|]. simpl. constructor.
  - rewrite length_zip_with. lia.
  - by apply IH.
Qed.

Lemma wf_zip f A B :
  wf A → wf B → shape A = shape B →
  wf (Matrix (ncols A) (zip_with (zip_with f) (rows A) (rows B))).
Proof.
  intros HA HB [= Hr Hc]. unfold wf in *. simpl. rewrite <-Hc in HB.
  by apply Forall_zip_length.
Qed.

Lemma shape_zip f A B :
  shape A = shape B →
  shape (Matrix (ncols A) (zip_with (zip_with f) (rows A) (rows B))) = shape A.
Proof.
  intros [= Hr Hc]. unfold shape, nrows in *. simpl.
  rewrite length_zip_with. f_equal. lia.
Qed.

Lemma msub_same_shape A B :
  wf A → wf B → shape A = shape B → np.msub A B = Ok (spec.msub A B).
Proof. apply bmat_same_shape. Qed.

Lemma imadd_same_shape A B :
  wf A → wf B → shape A = shape B → np.imadd A B = Ok (spec.madd A B).
Proof.
  intros HA HB Hs. unfold np.imadd, np.madd. rewrite bmat_same_shape by done.
  simpl. rewrite decide_True; [done|]. by apply shape_zip.
Qed.

Lemma wf_madd A B : wf A → wf B → shape A = shape B → wf (spec.madd A B).
Proof. apply wf_zip. Qed.
Lemma wf_msub A B : wf A → wf B → shape A = shape B → wf (spec.msub A B).
Proof. apply wf_zip. Qed.
Lemma shape_madd A B : shape A = shape B → shape (spec.madd A B) = shape A.
Proof. apply shape_zip. Qed.
Lemma shape_msub A B : shape A = shape B → shape (spec.msub A B) = shape A.
Proof. apply shape_zip. Qed.

Lemma matvec_defined A (x : vec) :
  ncols A = length x → np.matvec A x = Ok (spec.apply A x).
Proof. intros Hx. unfold np.matvec. by rewrite decide_True. Qed.

Lemma length_apply A (x : vec) : length (spec.apply A x) = nrows A.
Proof. unfold spec.apply. by rewrite length_fmap. Qed.

Lemma sub_same_length (a b : vec) :
  length a = length b → np.sub a b = Ok (spec.vsub a b).
Proof. apply bvec_same_length. Qed.

Lemma length_vsub (a b : vec) :
  length a = length b → length (spec.vsub a b) = length a.
Proof. intros Hab. unfold spec.vsub. rewrite length_zip_with. lia. Qed.

Lemma mean_iadd_same_length (m v : vec) k :
  length m = length v →
  mean_iadd m v k = Ok (spec.vadd m (spec.vdiv (spec.vsub v m) (of_nat k))).
Proof.
  intros Hmv. unfold mean_iadd. rewrite sub_same_length by done. simpl.
  rewrite iadd_same_length; [done|].
  by rewrite length_divide, length_vsub.
Qed.

Lemma length_mean (m v : vec) k :
  length m = length v →
  length (spec.vadd m (spec.vdiv (spec.vsub v m) k)) = length m.
Proof.
  intros Hmv. unfold spec.vadd, spec.vdiv.
  rewrite length_zip_with, length_fmap, length_vsub by done. lia.
Qed.

Lemma pydiv_defined a b : b ≠ 0%Qc → pydiv a b = Ok (a / b)%Qc.
Proof. intros Hb. unfold pydiv. by rewrite decide_False. Qed.

Lemma det_square A : nrows A = ncols A → np.linalg.det A = Ok (spec.det A).
Proof. intros HA. unfold np.linalg.det. by rewrite decide_True. Qed.

(** ** One step of [bio_nica] *)

Lemma bio_nica_fit_next_run solve_qp (x : vec) h o Wm Mm (y : vec) :
  bio_nica_state h o Wm Mm →
  length x = bio_nica.x_dim o →
  (1 + bio_nica.decay o * of_nat (bio_nica.t o))%Qc ≠ 0%Qc →
  bio_nica.tau o ≠ 0%Qc →
  solve_qp Mm (spec.apply Wm x) (np.eye (bio_nica.s_dim o))
    (np.zeros (bio_nica.s_dim o)) = Ok y →
  length y = bio_nica.s_dim o →
  let c := spec.apply Wm x in
  let xbar := spec.full_history (bio_nica.x_bar o) x (bio_nica.t o) in
  let cbar := spec.fixed_window (bio_nica.c_bar o) c 100 in
  let step := spec.step (bio_nica.eta0 o) (bio_nica.decay o) (bio_nica.t o) in
  let W' := spec.W_update Wm step y x c cbar xbar in
  let M' := spec.M_update Mm step (bio_nica.tau o) y in
  bio_nica.fit_next solve_qp x (h, o) =
    ((<[bio_nica.M o := spec.stabilizer (bio_nica.s_dim o) M']>
        (<[bio_nica.W o := W']> h),
      bio_nica.Obj (bio_nica.t o + 1) (bio_nica.eta0 o) (bio_nica.decay o)
        (bio_nica.tau o) (bio_nica.s_dim o) (bio_nica.x_dim o) xbar cbar
        (bio_nica.M o) (bio_nica.W o)),
     Ok y).
Proof.
  intros [HW HM Hne HwfW HwfM HsW HsM Hxb Hcb] Hx Hdecay Htau Hy Hly.
  intros c xbar cbar step W' M'.
  injection HsW as HrW HcW. injection HsM as HrM HcM.
  unfold bio_nica.fit_next.
  cbv [bind get_self assert deref lift store update ret fst snd].
  rewrite bool_decide_eq_true_2 by done.
  rewrite HW. rewrite matvec_defined by congruence.
  rewrite HM.
  rewrite Hy.
  rewrite mean_iadd_same_length by congruence.
  rewrite mean_iadd_same_length by (rewrite length_apply; congruence).
  rewrite pydiv_defined by done.
  change (spec.apply Wm x) with c.
  change (spec.vadd (bio_nica.c_bar o) _) with cbar.
  change (spec.vadd (bio_nica.x_bar o) _) with xbar.
  change (bio_nica.eta0 o / _)%Qc with step.
  assert (Hlc : length c = bio_nica.s_dim o)
    by (unfold c; rewrite length_apply; congruence).
  assert (Hlxbar : length xbar = bio_nica.x_dim o)
    by (unfold xbar, spec.full_history; rewrite length_mean; congruence).
  assert (Hlcbar : length cbar = bio_nica.s_dim o)
    by (unfold cbar, spec.fixed_window; rewrite length_mean; congruence).
  rewrite (sub_same_length c cbar) by congruence.
  rewrite (sub_same_length x xbar) by congruence.
  cbv [rbind].
  assert (HsD : shape (np.outer y x)
                = shape (np.outer (spec.vsub c cbar) (spec.vsub x xbar))).
  { rewrite !shape_outer, !length_vsub by congruence. congruence. }
  rewrite msub_same_shape by (done || apply wf_outer).
  rewrite mscale_spec.
  rewrite imadd_same_shape; cycle 1.
  { done. }
  { apply wf_smul, wf_msub; done || apply wf_outer. }
  { rewrite shape_smul, shape_msub, shape_outer by done. unfold shape. congruence. }
  change (spec.madd Wm _) with W'.
  rewrite pydiv_defined by done.
  rewrite list_lookup_insert_ne by done. rewrite HM.
  rewrite msub_same_shape; cycle 1.
  { apply wf_outer. }
  { done. }
  { rewrite shape_outer. unfold shape. congruence. }
  rewrite mscale_spec.
  assert (HsYY : shape (np.outer y y) = shape Mm)
    by (rewrite shape_outer; unfold shape; congruence).
  rewrite imadd_same_shape; cycle 1.
  { done. }
  { apply wf_smul, wf_msub; done || apply wf_outer. }
  { by rewrite shape_smul, shape_msub, HsYY. }
  change (spec.madd Mm _) with M'.
  assert (HwfM' : wf M').
  { apply wf_madd; [done|apply wf_smul, wf_msub; done || apply wf_outer|].
    by rewrite shape_smul, shape_msub, HsYY. }
  assert (HsM' : shape M' = shape Mm).
  { apply shape_madd. by rewrite shape_smul, shape_msub, HsYY. }
  pose proof (lookup_lt_Some _ _ _ HM) as HltM.
  rewrite list_lookup_insert_eq by (by rewrite length_insert).
  assert (nrows M' = ncols M') by (unfold shape in HsM'; injection HsM'; congruence).
  rewrite det_square by done.
  unfold spec.stabilizer.
  destruct (decide (spec.det M' < lit 1 10000)%Qc).
  - rewrite mscale_spec, imadd_same_shape; cycle 1.
    { done. }
    { apply wf_smul, wf_eye. }
    { rewrite shape_smul, shape_eye, HsM'. unfold shape. congruence. }
    rewrite list_insert_insert_eq. by destruct o.
  - by destruct o.
Qed.


(** The constructor establishes [bio_nica_state] when it is given two
    distinct well-formed arrays, and a call that returns preserves it. *)
Lemma bio_nica_init_state randn s x dataset lM lW Mm Wm eta0 decay tau (h : heap) :
  h !! lM = Some Mm → wf Mm → shape Mm = (s, s) →
  h !! lW = Some Wm → wf Wm → shape Wm = (s, x) →
  lW ≠ lM →
  ∃ o, bio_nica.__init__ randn s x dataset (Some lM) (Some lW) eta0 decay tau h
         = (h, Ok o) ∧
       bio_nica_state h o Wm Mm ∧ bio_nica.t o = 0.
Proof.
  intros HM HwfM HsM HW HwfW HsW Hne. unfold bio_nica.__init__.
  rewrite (supplied_or_accepts h lM Mm), (supplied_or_accepts h lW Wm) by done.
  destruct (bio_nica.preset dataset) as [[e d] ta]. simpl.
  eexists. split; [done|]. split; [|done].
  split; simpl; try done; apply length_zeros.
Qed.

Lemma bio_nica_state_preserved (x : vec) h o Wm Mm (y : vec) :
  bio_nica_state h o Wm Mm →
  length x = bio_nica.x_dim o →
  length y = bio_nica.s_dim o →
  let c := spec.apply Wm x in
  let xbar := spec.full_history (bio_nica.x_bar o) x (bio_nica.t o) in
  let cbar := spec.fixed_window (bio_nica.c_bar o) c 100 in
  let step := spec.step (bio_nica.eta0 o) (bio_nica.decay o) (bio_nica.t o) in
  let W' := spec.W_update Wm step y x c cbar xbar in
  let M' := spec.stabilizer (bio_nica.s_dim o)
              (spec.M_update Mm step (bio_nica.tau o) y) in
  bio_nica_state
    (<[bio_nica.M o := M']> (<[bio_nica.W o := W']> h))
    (bio_nica.Obj (bio_nica.t o + 1) (bio_nica.eta0 o) (bio_nica.decay o)
       (bio_nica.tau o) (bio_nica.s_dim o) (bio_nica.x_dim o) xbar cbar
       (bio_nica.M o) (bio_nica.W o))
    W' M'.
Proof.
  intros [HW HM Hne HwfW HwfM HsW HsM Hxb Hcb] Hx Hly. intros c xbar cbar step W' M'.
  pose proof (lookup_lt_Some _ _ _ HW) as HltW.
  pose proof (lookup_lt_Some _ _ _ HM) as HltM.
  assert (Hlc : length c = bio_nica.s_dim o).
  { unfold c. rewrite length_apply. by injection HsW. }
  assert (Hlxbar : length xbar = bio_nica.x_dim o)
    by (unfold xbar, spec.full_history; rewrite length_mean; congruence).
  assert (Hlcbar : length cbar = bio_nica.s_dim o)
    by (unfold cbar, spec.fixed_window; rewrite length_mean; congruence).
  assert (HsD : shape (np.outer y x)
                = shape (np.outer (spec.vsub c cbar) (spec.vsub x xbar))).
  { rewrite !shape_outer, !length_vsub by congruence. congruence. }
  assert (HsDW : shape Wm = shape (spec.smul (2 * step)
           (spec.msub (np.outer y x) (np.outer (spec.vsub c cbar) (spec.vsub x xbar))))).
  { rewrite shape_smul, shape_msub, shape_outer by done. congruence. }
  assert (HsYY : shape (np.outer y y) = shape Mm)
    by (rewrite shape_outer; congruence).
  set (Mr := spec.M_update Mm step (bio_nica.tau o) y) in *.
  assert (HwfMr : wf Mr).
  { apply wf_madd; [done|apply wf_smul, wf_msub; done || apply wf_outer|].
    by rewrite shape_smul, shape_msub, HsYY. }
  assert (HsMr : shape Mr = shape Mm).
  { apply shape_madd. by rewrite shape_smul, shape_msub, HsYY. }
  split; simpl; try done.
  - rewrite list_lookup_insert_ne by done. by rewrite list_lookup_insert_eq.
  - rewrite list_lookup_insert_eq; [done|]. by rewrite length_insert.
  - apply wf_madd; [done| |done].
    apply wf_smul, wf_msub; done || apply wf_outer.
  - unfold M', spec.stabilizer. case_decide; [|done].
    apply wf_madd; [done|apply wf_smul, wf_eye|].
    rewrite shape_smul, shape_eye. congruence.
  - unfold W', spec.W_update. rewrite shape_madd; done.
  - unfold M', spec.stabilizer. case_decide; [|congruence].
    rewrite shape_madd; [congruence|].
    rewrite shape_smul, shape_eye. congruence.
Qed.

(** C2. One call [fit_next(x)] of a [bio_nica] learner in a state of the
    declared shapes ([bio_nica_state]), with [x] of length [x_dim],
    [c = W·x] and [y] the constrained minimiser returned for [(M, c)],
    first replaces the running means by [x̄ + (x − x̄)/(t+1)] and
    [c̄ + (c − c̄)/100], then, with [step = eta0/(1+decay·t)] for the [t]
    before the call, writes [W + 2·step·(y xᵗ − (c−c̄)(x−x̄)ᵗ)] into [W],
    with the means already updated, and [M + (step/tau)·(y yᵗ − M)] into
    [M], on which the stabilizer then acts; [t] becomes [t + 1] and [y] is
    returned. *)
Theorem bio_nica_fit_next_updates solve_qp (x : vec) (h : heap) (o : bio_nica.obj)
    (Wm Mm : matrix) (y : vec) :
  quadprog.correct solve_qp →
  bio_nica_state h o Wm Mm →
  length x = bio_nica.x_dim o →
  (1 + bio_nica.decay o * of_nat (bio_nica.t o))%Qc ≠ 0%Qc →
  bio_nica.tau o ≠ 0%Qc →
  solve_qp Mm (spec.apply Wm x) (np.eye (bio_nica.s_dim o))
    (np.zeros (bio_nica.s_dim o)) = Ok y →
  let c := spec.apply Wm x in
  let xbar := spec.full_history (bio_nica.x_bar o) x (bio_nica.t o) in
  let cbar := spec.fixed_window (bio_nica.c_bar o) c 100 in
  let step := spec.step (bio_nica.eta0 o) (bio_nica.decay o) (bio_nica.t o) in
  let W' := spec.W_update Wm step y x c cbar xbar in
  let M' := spec.M_update Mm step (bio_nica.tau o) y in
  fit_next solve_qp x (h, BioNICA o) =
    ((<[bio_nica.M o := spec.stabilizer (bio_nica.s_dim o) M']>
        (<[bio_nica.W o := W']> h),
      BioNICA (bio_nica.Obj (bio_nica.t o + 1) (bio_nica.eta0 o) (bio_nica.decay o)
                 (bio_nica.tau o) (bio_nica.s_dim o) (bio_nica.x_dim o) xbar cbar
                 (bio_nica.M o) (bio_nica.W o))),
     Ok y).
Proof.
  intros Hqp Hst Hx Hdecay Htau Hy. cbv zeta.
  unfold fit_next, call; cbv [fst snd].
  rewrite (bio_nica_fit_next_run solve_qp x h o Wm Mm y); try done.
  destruct (Hqp _ _ _ _ _ Hy) as [_ Hlen _ _].
  rewrite Hlen, length_apply. by destruct Hst as [_ _ _ _ _ [= -> _] _ _ _].
Qed.

Lemma ex_bio_state (o : bio_nica.obj) :
  bio_nica.W o = 1 → bio_nica.M o = 0 →
  bio_nica.s_dim o = 2 → bio_nica.x_dim o = 2 →
  bio_nica.x_bar o = np.zeros 2 → bio_nica.c_bar o = np.zeros 2 →
  bio_nica_state [ex.I2; ex.I2] o ex.I2 ex.I2.
Proof.
  intros HW HM Hs Hx Hxb Hcb.
  split; rewrite ?HW, ?HM, ?Hs, ?Hx, ?Hxb, ?Hcb; try done; apply wf_eye.
Qed.

Lemma bio_nica_fit_next_updates_witness :
  fit_next quadprog.solve_qp_eye ex.e1 ([ex.I2; ex.I2], BioNICA ex.bio) =
    (([Matrix 2 [[1%Qc; 0%Qc]; [0%Qc; lit 4 5]];
       Matrix 2 [[lit 6 5; 0%Qc]; [0%Qc; 1%Qc]]],
      BioNICA (bio_nica.Obj 1 (lit 1 10) (lit 1 1000) (lit 5 10) 2 2
                 ex.e1 [lit 1 100; 0%Qc] 0 1)),
     Ok ex.e1).
Proof.
  etrans.
  - apply (bio_nica_fit_next_updates quadprog.solve_qp_eye ex.e1 [ex.I2; ex.I2]
             ex.bio ex.I2 ex.I2 ex.e1).
    + exact solve_qp_eye_correct.
    + by apply ex_bio_state.
    + reflexivity.
    + compute_done.
    + compute_done.
    + compute_done.
  - compute_done.
Defined.

(** ** The stabilizer inside [fit_next] *)

Lemma update_inv {S} (f : S → S) (st st' : heap * S) u :
  update f st = (st', Ok u) → st' = (st.1, f st.2).
Proof. unfold update. by intros [= <-]. Qed.

Lemma alloc_inv {S} m (st st' : heap * S) l :
  alloc m st = (st', Ok l) → st' = (st.1 ++ [m], st.2) ∧ l = length st.1.
Proof. unfold alloc. by intros [= <- <-]. Qed.

(** ** Caller-supplied matrices *)

Lemma grows_bind {S A B} (c : Py S A) (k : A → Py S B) :
  grows c → (∀ a, grows (k a)) → grows (bind c k).
Proof.
  intros Hc Hk st st' r. unfold bind.
  destruct (c st) as [st1 [a|e]] eqn:E; intros H.
  - etrans; [by eapply Hc|by eapply Hk].
  - injection H as <- <-. by eapply Hc.
Qed.

Lemma grows_pure {S A} (f : heap * S → result A) : grows (λ st, (st, f st)).
Proof. by intros st st' r [= <- <-]. Qed.

Lemma grows_lift {S A} (r : result A) : grows (S := S) (lift r).
Proof. apply grows_pure. Qed.
Lemma grows_ret {S A} (a : A) : grows (S := S) (ret a).
Proof. apply grows_pure. Qed.
Lemma grows_get_self {S} : grows (S := S) get_self.
Proof. apply (grows_pure (λ st, Ok st.2)). Qed.
Lemma grows_deref {S} l : grows (S := S) (deref l).
Proof. apply (grows_pure (λ st, match st.1 !! l with Some m => Ok m | None => Raise Dangling end)). Qed.
Lemma grows_update {S} (f : S → S) : grows (update f).
Proof. by intros st st' r [= <- <-]. Qed.
Lemma grows_alloc {S} m : grows (S := S) (alloc m).
Proof. intros st st' r [= <- <-]. by apply prefix_app_r. Qed.

Lemma two_layer_nsm_fit_next_grows solve_qp (x : vec) :
  grows (two_layer_nsm.fit_next solve_qp x).
Proof.
  unfold two_layer_nsm.fit_next.
  repeat first
    [ apply grows_bind; [|intros ?]
    | apply grows_get_self | apply grows_deref | apply grows_lift
    | apply grows_update | apply grows_alloc | apply grows_ret
    | case_decide ].
Qed.

Lemma bio_nica_init_aliases randn s x dataset lM lW Mm Wm eta0 decay tau (h : heap) :
  h !! lM = Some Mm → shape Mm = (s, s) →
  h !! lW = Some Wm → shape Wm = (s, x) →
  ∃ o, bio_nica.__init__ randn s x dataset (Some lM) (Some lW) eta0 decay tau h
         = (h, Ok o) ∧
       bio_nica.M o = lM ∧ bio_nica.W o = lW ∧
       bio_nica.s_dim o = s ∧ bio_nica.x_dim o = x.
Proof.
  intros HM HsM HW HsW. unfold bio_nica.__init__.
  rewrite (supplied_or_accepts h lM Mm), (supplied_or_accepts h lW Wm) by done.
  destruct (bio_nica.preset dataset) as [[e d] ta]. simpl. eauto 10.
Qed.

Lemma two_layer_nsm_init_aliases randn_hx randn_yh s x dataset l1 l2 l3 l4
    A1 A2 A3 A4 eta0 decay (h : heap) :
  h !! l1 = Some A1 → shape A1 = (s, s) →
  h !! l2 = Some A2 → shape A2 = (s, s) →
  h !! l3 = Some A3 → shape A3 = (s, s) →
  h !! l4 = Some A4 → shape A4 = (s, s) →
  ∃ o, two_layer_nsm.__init__ randn_hx randn_yh s x dataset
         (Some l1) (Some l2) (Some l3) (Some l4) eta0 decay h = (h, Ok o) ∧
       two_layer_nsm.Whx o = l1 ∧ two_layer_nsm.Wgh o = l2 ∧
       two_layer_nsm.Wyh o = l3 ∧ two_layer_nsm.Wyy o = l4 ∧
       two_layer_nsm.s_dim o = s ∧ two_layer_nsm.x_dim o = x.
Proof.
  intros H1 Hs1 H2 Hs2 H3 Hs3 H4 Hs4. unfold two_layer_nsm.__init__.
  rewrite (supplied_or_accepts h l1 A1), (supplied_or_accepts h l2 A2),
    (supplied_or_accepts h l3 A3), (supplied_or_accepts h l4 A4) by done.
  destruct (two_layer_nsm.preset dataset) as [e d]. simpl. eauto 10.
Qed.

Lemma nonnegative_pca_init_aliases randn s x dataset lW Wm eta0 decay (h : heap) :
  h !! lW = Some Wm → shape Wm = (s, x) →
  ∃ o, nonnegative_pca.__init__ randn s x dataset (Some lW) eta0 decay h
         = (h, Ok o) ∧
       nonnegative_pca.W o = lW ∧
       nonnegative_pca.s_dim o = s ∧ nonnegative_pca.x_dim o = x.
Proof.
  intros HW HsW. unfold nonnegative_pca.__init__.
  rewrite (supplied_or_accepts h lW Wm) by done.
  destruct (nonnegative_pca.preset dataset) as [e d]. simpl. eauto 10.
Qed.

(** C6, as the program has it. A constructor that is given initial matrices
    keeps the caller's objects themselves: the weight fields of the new
    learner are the supplied references and no object is created for them.
    A later [flip_weights(j)] with [j] in [[0, s_dim)] therefore negates
    row [j] of the caller's own designated matrix. [two_layer_nsm.fit_next]
    binds its fields to new arrays and leaves every object that existed
    before the call as it was, whatever the outcome of the call. *)
Theorem construction_keeps_references :
  (∀ randn s x dataset lM lW Mm Wm eta0 decay tau (h : heap),
     h !! lM = Some Mm → shape Mm = (s, s) →
     h !! lW = Some Wm → shape Wm = (s, x) →
     ∃ o, bio_nica.__init__ randn s x dataset (Some lM) (Some lW) eta0 decay tau h
            = (h, Ok o) ∧
          bio_nica.M o = lM ∧ bio_nica.W o = lW) ∧
  (∀ randn_hx randn_yh s x dataset l1 l2 l3 l4 A1 A2 A3 A4 eta0 decay (h : heap),
     h !! l1 = Some A1 → shape A1 = (s, s) →
     h !! l2 = Some A2 → shape A2 = (s, s) →
     h !! l3 = Some A3 → shape A3 = (s, s) →
     h !! l4 = Some A4 → shape A4 = (s, s) →
     ∃ o, two_layer_nsm.__init__ randn_hx randn_yh s x dataset
            (Some l1) (Some l2) (Some l3) (Some l4) eta0 decay h = (h, Ok o) ∧
          two_layer_nsm.Whx o = l1 ∧ two_layer_nsm.Wgh o = l2 ∧
          two_layer_nsm.Wyh o = l3 ∧ two_layer_nsm.Wyy o = l4) ∧
  (∀ randn s x dataset lW Wm eta0 decay (h : heap),
     h !! lW = Some Wm → shape Wm = (s, x) →
     ∃ o, nonnegative_pca.__init__ randn s x dataset (Some lW) eta0 decay h
            = (h, Ok o) ∧
          nonnegative_pca.W o = lW) ∧
  (∀ (l : learner) (h : heap) (j : Z) A,
     (0 ≤ j < Z.of_nat (s_dim l))%Z →
     h !! designated l = Some A → nrows A = s_dim l →
     ∃ r, rows A !! Z.to_nat j = Some r ∧
          flip_weights j (h, l) =
            ((<[designated l :=
                  Matrix (ncols A) (<[Z.to_nat j := np.negative r]> (rows A))]> h, l),
             Ok ())) ∧
  (∀ solve_qp (x : vec) (h : heap) o h' l' r lc Ac,
     fit_next solve_qp x (h, TwoLayerNSM o) = ((h', l'), r) →
     h !! lc = Some Ac → h' !! lc = Some Ac).
Proof.
  split_and!.
  - intros randn s x dataset lM lW Mm Wm eta0 decay tau h HM HsM HW HsW.
    destruct (bio_nica_init_aliases randn s x dataset lM lW Mm Wm eta0 decay tau h
                HM HsM HW HsW) as (o & ? & ? & ? & _).
    by exists o.
  - intros randn_hx randn_yh s x dataset l1 l2 l3 l4 A1 A2 A3 A4 eta0 decay h
      H1 Hs1 H2 Hs2 H3 Hs3 H4 Hs4.
    destruct (two_layer_nsm_init_aliases randn_hx randn_yh s x dataset l1 l2 l3 l4
                A1 A2 A3 A4 eta0 decay h H1 Hs1 H2 Hs2 H3 Hs3 H4 Hs4)
      as (o & ? & ? & ? & ? & ? & _).
    by exists o.
  - intros randn s x dataset lW Wm eta0 decay h HW HsW.
    destruct (nonnegative_pca_init_aliases randn s x dataset lW Wm eta0 decay h
                HW HsW) as (o & ? & ? & _).
    by exists o.
  - intros l h j A Hj HA Hn.
    destruct (negate_row_defined A j) as (r & Hr & E); [lia|].
    exists r. split; [done|]. by apply flip_weights_run with A.
  - intros solve_qp x h o h' l' r lc Ac H HA.
    unfold fit_next, call in H. cbv [fst snd] in H.
    destruct (two_layer_nsm.fit_next solve_qp x (h, o)) as [[h1 o1] r1] eqn:E.
    injection H as <- _ _.
    apply two_layer_nsm_fit_next_grows in E. simpl in E.
    by eapply prefix_lookup_Some.
Qed.

Lemma construction_keeps_references_witness :
  ∃ o, bio_nica.__init__ ex.Z2 2 2 None (Some 0) (Some 1) None None None
         [ex.I2; ex.I2] = ([ex.I2; ex.I2], Ok o) ∧
       bio_nica.M o = 0 ∧ bio_nica.W o = 1.
Proof.
  apply (proj1 construction_keeps_references ex.Z2 2 2 None 0 1 ex.I2 ex.I2
           None None None [ex.I2; ex.I2]); reflexivity.
Defined.

(** Caller and learner share the arrays. The learner
    [bio_nica(2, 2, M0=A, W0=B)] holds the caller's arrays [A] and [B]
    (references 0 and 1): [flip_weights(0)] changes the caller's [B], and
    after the caller has overwritten [B] with zeros the same input is
    answered differently. *)
Lemma caller_matrix_shared :
  bio_nica.__init__ ex.Z2 2 2 None (Some 0) (Some 1) None None None [ex.I2; ex.I2]
    = ([ex.I2; ex.I2], Ok ex.bio) ∧
  flip_weights 0 ([ex.I2; ex.I2], BioNICA ex.bio)
    = (([ex.I2; Matrix 2 [[(-1)%Qc; 0%Qc]; [0%Qc; 1%Qc]]], BioNICA ex.bio), Ok ()) ∧
  [ex.I2; Matrix 2 [[(-1)%Qc; 0%Qc]; [0%Qc; 1%Qc]]] !! 1 ≠ [ex.I2; ex.I2] !! 1 ∧
  (fit_next quadprog.solve_qp_eye ex.e1 ([ex.I2; ex.I2], BioNICA ex.bio)).2 = Ok ex.e1 ∧
  (fit_next quadprog.solve_qp_eye ex.e1 ([ex.I2; ex.Z2], BioNICA ex.bio)).2
    = Ok [0%Qc; 0%Qc].
Proof. split_and!; compute_done. Qed.

(** * Further properties *)

(** ** Reasoning along the statements of a method *)

Lemma hoare_bind {S A B} (I J : heap * S → Prop) (c : Py S A) (k : A → Py S B)
    (Qok Qerr : heap * S → Prop) :
  hoare I c J Qerr → (∀ a, hoare J (k a) Qok Qerr) → hoare I (bind c k) Qok Qerr.
Proof.
  intros Hc Hk st st' r HI. unfold bind.
  destruct (c st) as [st1 [a|e]] eqn:E; intros H.
  - eapply (Hk a); [|exact H]. exact (Hc _ _ _ HI E).
  - injection H as <- <-. exact (Hc _ _ _ HI E).
Qed.

Lemma hoare_pure {S A} (I : heap * S → Prop) (f : heap * S → result A) :
  hoare I (λ st, (st, f st)) I I.
Proof. intros st st' r HI [= <- <-]. by destruct (f st). Qed.

Lemma hoare_lift {S A} (I : heap * S → Prop) (r : result A) : hoare I (lift r) I I.
Proof. apply (hoare_pure I (λ _, r)). Qed.
Lemma hoare_ret {S A} (I Qerr : heap * S → Prop) (a : A) : hoare I (ret a) I Qerr.
Proof. by intros st st' r HI [= <- <-]. Qed.
Lemma hoare_get_self {S} (I Qerr : heap * S → Prop) : hoare I get_self I Qerr.
Proof. by intros st st' r HI [= <- <-]. Qed.
Lemma hoare_deref {S} (I : heap * S → Prop) l : hoare I (deref l) I I.
Proof.
  apply (hoare_pure I
           (λ st, match st.1 !! l with Some m => Ok m | None => Raise Dangling end)).
Qed.
Lemma hoare_assert {S} (I : heap * S → Prop) b : hoare I (assert b) I I.
Proof. destruct b; [apply hoare_ret|apply (hoare_pure I (λ _, Raise AssertionError))]. Qed.

Lemma hoare_update {S} (I J : heap * S → Prop) (f : S → S) (Qerr : heap * S → Prop) :
  (∀ st, I st → J (st.1, f st.2)) → hoare I (update f) J Qerr.
Proof. intros H st st' r HI [= <- <-]. by apply H. Qed.

Lemma hoare_store {S} (I J : heap * S → Prop) l m (Qerr : heap * S → Prop) :
  (∀ st, I st → J (<[l := m]> st.1, st.2)) → hoare I (store l m) J Qerr.
Proof. intros H st st' r HI [= <- <-]. by apply H. Qed.

Lemma hoare_alloc {S} (I J : heap * S → Prop) m (Qerr : heap * S → Prop) :
  (∀ st, I st → J (st.1 ++ [m], st.2)) → hoare I (alloc m) J Qerr.
Proof. intros H st st' r HI [= <- <-]. by apply H. Qed.

(** The fields read at the start of a method satisfy what the state does. *)
Lemma hoare_self {S B} (I : heap * S → Prop) (k : S → Py S B)
    (Qok Qerr : heap * S → Prop) :
  (∀ o, (∃ h, I (h, o)) → hoare I (k o) Qok Qerr) →
  hoare I (bind get_self k) Qok Qerr.
Proof.
  intros H [h o] st' r HI. unfold bind, get_self. simpl.
  apply H; [by exists h|done].
Qed.

(** One statement that keeps [I], followed by the rest. *)
Ltac hoare_keep tac :=
  match goal with |- hoare ?I _ _ _ => eapply (hoare_bind I I) end;
  [ first [ apply hoare_get_self | apply hoare_deref | apply hoare_lift
          | apply hoare_assert | apply hoare_ret
          | apply hoare_update; tac | apply hoare_store; tac
          | apply hoare_alloc; tac ]
  | intros ? ].

(** ** The step counter and the parameters *)

Lemma bio_nica_fit_next_counter solve_qp (x : vec) (o0 : bio_nica.obj) :
  let I := λ st : heap * bio_nica.obj,
    bio_nica.t st.2 = bio_nica.t o0 ∧ bio_nica_fixed st.2 = bio_nica_fixed o0 in
  hoare I (bio_nica.fit_next solve_qp x)
    (λ st, bio_nica.t st.2 = bio_nica.t o0 + 1 ∧
           bio_nica_fixed st.2 = bio_nica_fixed o0) I.
Proof.
  intros I. unfold bio_nica.fit_next.
  assert (Hupd : ∀ f : bio_nica.obj → bio_nica.obj,
            (∀ o, bio_nica.t (f o) = bio_nica.t o ∧
                  (bio_nica_fixed o = bio_nica_fixed o0 →
                   bio_nica_fixed (f o) = bio_nica_fixed o0)) →
            ∀ st : heap * bio_nica.obj, I st → I (st.1, f st.2)).
  { intros f Hf [h o] [Ht Hc]. destruct (Hf o) as [Hft Hfc]. split; simpl in *.
    - congruence.
    - by apply Hfc. }
  apply hoare_self. intros o (h0 & Ht0 & Hc0). simpl in Ht0, Hc0.
  do 6 hoare_keep idtac.
  hoare_keep ltac:(apply Hupd; by intros []).
  hoare_keep idtac.
  hoare_keep ltac:(apply Hupd; by intros []).
  do 4 hoare_keep idtac.
  hoare_keep ltac:(by intros []).
  do 4 hoare_keep idtac.
  hoare_keep ltac:(by intros []).
  do 2 hoare_keep idtac.
  eapply (hoare_bind I I).
  { case_decide; [|apply hoare_ret].
    hoare_keep idtac. apply hoare_store. by intros []. }
  intros _.
  assert (HM : ∀ o', bio_nica_fixed o' = bio_nica_fixed o0 →
                     bio_nica.M o' = bio_nica.M o ∧ bio_nica.W o' = bio_nica.W o).
  { intros o' Ho'. rewrite <-Hc0 in Ho'. by injection Ho'. }
  hoare_keep ltac:(intros [h1 o1] [Ht1 Hc1]; destruct (HM o1 Hc1) as [<- _];
                   by destruct o1).
  hoare_keep ltac:(intros [h1 o1] [Ht1 Hc1]; destruct (HM o1 Hc1) as [_ <-];
                   by destruct o1).
  eapply hoare_bind; [|intros ?; apply hoare_ret].
  apply hoare_update. intros [h1 o1] [Ht1 Hc1]. simpl in *. split; [|done].
  by rewrite Ht1.
Qed.

Lemma two_layer_nsm_fit_next_counter solve_qp (x : vec) (o0 : two_layer_nsm.obj) :
  let I := λ st : heap * two_layer_nsm.obj,
    two_layer_nsm.t st.2 = two_layer_nsm.t o0 ∧
    two_layer_nsm_fixed st.2 = two_layer_nsm_fixed o0 in
  hoare I (two_layer_nsm.fit_next solve_qp x)
    (λ st, two_layer_nsm.t st.2 = two_layer_nsm.t o0 + 1 ∧
           two_layer_nsm_fixed st.2 = two_layer_nsm_fixed o0) I.
Proof.
  intros I. unfold two_layer_nsm.fit_next.
  apply hoare_self. intros o _.
  do 7 hoare_keep idtac.
  do 3 hoare_keep ltac:(by intros [? []]).
  do 2 hoare_keep idtac.
  hoare_keep ltac:(by intros []).
  hoare_keep ltac:(by intros [? []]).
  hoare_keep ltac:(by intros []).
  hoare_keep ltac:(by intros [? []]).
  do 8 hoare_keep idtac.
  eapply (hoare_bind I I); [case_decide; [apply hoare_lift|apply hoare_ret]|intros ?].
  hoare_keep ltac:(by intros []).
  hoare_keep ltac:(by intros [? []]).
  hoare_keep ltac:(by intros []).
  hoare_keep ltac:(by intros [? []]).
  eapply hoare_bind; [|intros ?; apply hoare_ret].
  apply hoare_update. intros [h1 o1] [Ht1 Hc1]. simpl in *. split; [|done].
  by rewrite Ht1.
Qed.

Lemma nonnegative_pca_fit_next_counter (x : vec) (o0 : nonnegative_pca.obj) :
  let I := λ st : heap * nonnegative_pca.obj,
    nonnegative_pca.t st.2 = nonnegative_pca.t o0 ∧
    nonnegative_pca_fixed st.2 = nonnegative_pca_fixed o0 in
  hoare I (nonnegative_pca.fit_next x)
    (λ st, nonnegative_pca.t st.2 = nonnegative_pca.t o0 + 1 ∧
           nonnegative_pca_fixed st.2 = nonnegative_pca_fixed o0) I.
Proof.
  intros I. unfold nonnegative_pca.fit_next.
  apply hoare_self. intros o (h0 & Ht0 & Hc0). simpl in Ht0, Hc0.
  do 6 hoare_keep idtac.
  hoare_keep ltac:(by intros []).
  assert (HW : ∀ o', nonnegative_pca_fixed o' = nonnegative_pca_fixed o0 →
                     nonnegative_pca.W o' = nonnegative_pca.W o).
  { intros o' Ho'. rewrite <-Hc0 in Ho'. by injection Ho'. }
  hoare_keep ltac:(intros [h1 o1] [Ht1 Hc1]; rewrite <-(HW o1 Hc1); by destruct o1).
  eapply hoare_bind; [|intros ?; apply hoare_ret].
  apply hoare_update. intros [h1 o1] [Ht1 Hc1]. simpl in *. split; [|done].
  by rewrite Ht0.
Qed.

(** ** Calls that raise before they write *)

Lemma bio_nica_flip_atomic (j : Z) (st0 : heap * bio_nica.obj) :
  hoare (λ st, st = st0) (bio_nica.flip_weights j)
        (λ st, st.2 = st0.2) (λ st, st = st0).
Proof.
  unfold bio_nica.flip_weights.
  apply hoare_self. intros o (h0 & E). subst st0.
  do 3 hoare_keep idtac.
  eapply (hoare_bind _ (λ st, st.2 = o));
    [apply hoare_store|intros ?; apply hoare_update].
  - by intros ? ->.
  - intros [h1 o1]; simpl. intros ->. by destruct o.
Qed.

Lemma two_layer_nsm_flip_atomic (j : Z) (st0 : heap * two_layer_nsm.obj) :
  hoare (λ st, st = st0) (two_layer_nsm.flip_weights j)
        (λ st, st.2 = st0.2) (λ st, st = st0).
Proof.
  unfold two_layer_nsm.flip_weights.
  apply hoare_self. intros o (h0 & E). subst st0.
  do 3 hoare_keep idtac.
  eapply (hoare_bind _ (λ st, st.2 = o));
    [apply hoare_store|intros ?; apply hoare_update].
  - by intros ? ->.
  - intros [h1 o1]; simpl. intros ->. by destruct o.
Qed.

Lemma nonnegative_pca_flip_atomic (j : Z) (st0 : heap * nonnegative_pca.obj) :
  hoare (λ st, st = st0) (nonnegative_pca.flip_weights j)
        (λ st, st.2 = st0.2) (λ st, st = st0).
Proof.
  unfold nonnegative_pca.flip_weights.
  apply hoare_self. intros o (h0 & E). subst st0.
  do 2 hoare_keep idtac.
  eapply (hoare_bind _ (λ st, st.2 = o));
    [apply hoare_store|intros ?; apply hoare_update].
  - by intros ? ->.
  - intros [h1 o1]; simpl. intros ->. by destruct o.
Qed.

Lemma nonnegative_pca_fit_next_atomic (x : vec) (st0 : heap * nonnegative_pca.obj) :
  hoare (λ st, st = st0) (nonnegative_pca.fit_next x) (λ _, True) (λ st, st = st0).
Proof.
  unfold nonnegative_pca.fit_next.
  apply hoare_self. intros o _.
  do 6 hoare_keep idtac.
  eapply (hoare_bind _ (λ _, True)); [by apply hoare_store|intros ?].
  eapply (hoare_bind _ (λ _, True)); [by apply hoare_update|intros ?].
  eapply (hoare_bind _ (λ _, True)); [by apply hoare_update|intros ?].
  apply hoare_ret.
Qed.

Lemma fit_next_counted solve_qp (x : vec) (h h' : heap) (l l' : learner)
    (r : result vec) :
  fit_next solve_qp x (h, l) = ((h', l'), r) →
  rates l' = rates l ∧ s_dim l' = s_dim l ∧ x_dim l' = x_dim l ∧
  counter l' = counter l + (if r is Ok _ then 1 else 0).
Proof.
  intros H. unfold fit_next in H. cbv [fst snd] in H.
  destruct l as [o|o|o]; apply call_inv in H as (o' & -> & H).
  - pose proof (bio_nica_fit_next_counter solve_qp x o (h, o) (h', o') r
                  (conj eq_refl eq_refl) H) as Hc.
    destruct r; destruct Hc as [Ht [= ? ? ? ? ? ? ?]]; simpl in *;
      rewrite ?Nat.add_0_r; split_and!; congruence.
  - pose proof (two_layer_nsm_fit_next_counter solve_qp x o (h, o) (h', o') r
                  (conj eq_refl eq_refl) H) as Hc.
    destruct r; destruct Hc as [Ht [= ? ? ? ?]]; simpl in *;
      rewrite ?Nat.add_0_r; split_and!; congruence.
  - pose proof (nonnegative_pca_fit_next_counter x o (h, o) (h', o') r
                  (conj eq_refl eq_refl) H) as Hc.
    destruct r; destruct Hc as [Ht [= ? ? ? ? ?]]; simpl in *;
      rewrite ?Nat.add_0_r; split_and!; congruence.
Qed.

(** X1. Whatever the outcome of a call of [fit_next], the learning rates and
    the two dimensions of the learner are what they were; the step counter
    has grown by exactly one when the call returned and is unchanged when
    it raised. *)
Theorem fit_next_counter solve_qp (x : vec) (h h' : heap) (l l' : learner)
    (r : result vec) :
  fit_next solve_qp x (h, l) = ((h', l'), r) →
  rates l' = rates l ∧ s_dim l' = s_dim l ∧ x_dim l' = x_dim l ∧
  counter l' = counter l + (if r is Ok _ then 1 else 0).
Proof. apply fit_next_counted. Qed.

Lemma fit_next_counter_witness :
  rates (BioNICA (bio_nica.Obj 1 (lit 1 10) (lit 1 1000) (lit 5 10) 2 2
                    ex.e1 [lit 1 100; 0%Qc] 0 1)) = rates (BioNICA ex.bio) ∧
  s_dim (BioNICA (bio_nica.Obj 1 (lit 1 10) (lit 1 1000) (lit 5 10) 2 2
                    ex.e1 [lit 1 100; 0%Qc] 0 1)) = s_dim (BioNICA ex.bio) ∧
  x_dim (BioNICA (bio_nica.Obj 1 (lit 1 10) (lit 1 1000) (lit 5 10) 2 2
                    ex.e1 [lit 1 100; 0%Qc] 0 1)) = x_dim (BioNICA ex.bio) ∧
  counter (BioNICA (bio_nica.Obj 1 (lit 1 10) (lit 1 1000) (lit 5 10) 2 2
                    ex.e1 [lit 1 100; 0%Qc] 0 1)) = counter (BioNICA ex.bio) + 1.
Proof.
  apply (fit_next_counter quadprog.solve_qp_eye ex.e1 [ex.I2; ex.I2]
           [Matrix 2 [[1%Qc; 0%Qc]; [0%Qc; lit 4 5]];
            Matrix 2 [[lit 6 5; 0%Qc]; [0%Qc; 1%Qc]]]
           (BioNICA ex.bio)
           (BioNICA (bio_nica.Obj 1 (lit 1 10) (lit 1 1000) (lit 5 10) 2 2
                       ex.e1 [lit 1 100; 0%Qc] 0 1))
           (Ok ex.e1)).
  compute_done.
Defined.

(** X2. A stream of inputs: when all the calls return there is one output
    per input and the step counter has grown by the number of inputs; when
    one raises, the calls before it all returned, one output each, and the
    counter has grown by their number. In both cases rates and dimensions
    are unchanged. *)
Theorem fit_all_counter solve_qp (xs : list vec) (h h' : heap) (l l' : learner)
    (r : result (list vec)) :
  fit_all solve_qp xs (h, l) = ((h', l'), r) →
  rates l' = rates l ∧ s_dim l' = s_dim l ∧ x_dim l' = x_dim l ∧
  match r with
  | Ok ys => length ys = length xs ∧ counter l' = counter l + length xs
  | Raise e =>
      ∃ (k : nat) (x : vec) (hk : heap) (lk : learner) (ys : list vec),
        xs !! k = Some x ∧
        fit_all solve_qp (take k xs) (h, l) = ((hk, lk), Ok ys) ∧
        length ys = k ∧
        fit_next solve_qp x (hk, lk) = ((h', l'), Raise e) ∧
        counter l' = counter l + k
  end.
Proof.
  revert h l h' l' r. induction xs as [|x xs IH]; intros h l h' l' r H; simpl in H.
  - injection H as <- <- <-. simpl. split_and!; done || lia.
  - destruct (fit_next solve_qp x (h, l)) as [[h1 l1] [y|e]] eqn:E.
    + pose proof E as (Hr & Hs & Hx & Hc)%fit_next_counted.
      destruct (fit_all solve_qp xs (h1, l1)) as [[h2 l2] [ys|e]] eqn:E2;
        injection H as <- <- <-;
        apply IH in E2 as (Hr2 & Hs2 & Hx2 & Hc2); simpl.
      * split_and!; try congruence; lia.
      * split_and!; try congruence.
        destruct Hc2 as (k & x' & hk & lk & ys & Hk & Hpre & Hlen & Hcall & Hcnt).
        exists (S k), x', hk, lk, (y :: ys).
        split_and!; [done| |by simpl; rewrite Hlen|done|simpl in Hc; lia].
        simpl. by rewrite E, Hpre.
    + injection H as <- <- <-.
      pose proof E as (Hr & Hs & Hx & Hc)%fit_next_counted. simpl.
      split_and!; try done.
      exists 0, x, h, l, []. split_and!; done || (simpl in Hc; lia).
Qed.

Lemma fit_all_counter_witness :
  rates (NonnegativePCA (nonnegative_pca.set_t 1 ex.pca)) = rates (NonnegativePCA ex.pca) ∧
  s_dim (NonnegativePCA (nonnegative_pca.set_t 1 ex.pca)) = s_dim (NonnegativePCA ex.pca) ∧
  x_dim (NonnegativePCA (nonnegative_pca.set_t 1 ex.pca)) = x_dim (NonnegativePCA ex.pca) ∧
  ∃ (k : nat) (x : vec) (hk : heap) (lk : learner) (ys : list vec),
    [ex.e1; [1%Qc]; ex.ones] !! k = Some x ∧
    fit_all quadprog.solve_qp_eye (take k [ex.e1; [1%Qc]; ex.ones])
      ([ex.I2], NonnegativePCA ex.pca) = ((hk, lk), Ok ys) ∧
    length ys = k ∧
    fit_next quadprog.solve_qp_eye x (hk, lk)
      = (([ex.I2], NonnegativePCA (nonnegative_pca.set_t 1 ex.pca)),
         Raise AssertionError) ∧
    counter (NonnegativePCA (nonnegative_pca.set_t 1 ex.pca))
      = counter (NonnegativePCA ex.pca) + k.
Proof.
  apply (fit_all_counter quadprog.solve_qp_eye [ex.e1; [1%Qc]; ex.ones] [ex.I2] [ex.I2]
           (NonnegativePCA ex.pca)
           (NonnegativePCA (nonnegative_pca.set_t 1 ex.pca))
           (Raise AssertionError)).
  compute_done.
Defined.

(** X3. [flip_weights] of every learner never changes a field of the
    learner, and when it raises the store is unchanged too;
    [nonnegative_pca.fit_next] writes only after its last computation, so a
    call that raises leaves store and learner exactly as they were. *)
Theorem all_or_nothing :
  (∀ (l : learner) (h : heap) (j : Z) h' l' r,
     flip_weights j (h, l) = ((h', l'), r) →
     l' = l ∧ (∀ e, r = Raise e → h' = h)) ∧
  (∀ solve_qp (x : vec) (h : heap) o h' l' e,
     fit_next solve_qp x (h, NonnegativePCA o) = ((h', l'), Raise e) →
     h' = h ∧ l' = NonnegativePCA o).
Proof.
  split.
  - intros l h j h' l' r H. unfold flip_weights in H. cbv [fst snd] in H.
    destruct l as [o|o|o]; apply call_inv in H as (o' & -> & H).
    + pose proof (bio_nica_flip_atomic j (h, o) _ _ _ eq_refl H) as Hc.
      destruct r; simpl in Hc.
      * subst. by split.
      * injection Hc as -> ->. split; [done|]. by intros.
    + pose proof (two_layer_nsm_flip_atomic j (h, o) _ _ _ eq_refl H) as Hc.
      destruct r; simpl in Hc.
      * subst. by split.
      * injection Hc as -> ->. split; [done|]. by intros.
    + pose proof (nonnegative_pca_flip_atomic j (h, o) _ _ _ eq_refl H) as Hc.
      destruct r; simpl in Hc.
      * subst. by split.
      * injection Hc as -> ->. split; [done|]. by intros.
  - intros solve_qp x h o h' l' e H. unfold fit_next in H. cbv [fst snd] in H.
    apply call_inv in H as (o' & -> & H).
    pose proof (nonnegative_pca_fit_next_atomic x (h, o) _ _ _ eq_refl H) as Hc.
    simpl in Hc. by injection Hc as -> ->.
Qed.

Lemma all_or_nothing_witness :
  BioNICA ex.bio = BioNICA ex.bio ∧
  (∀ e, Raise (A := unit) AssertionError = Raise e → [ex.I2; ex.I2] = [ex.I2; ex.I2]).
Proof.
  apply (proj1 all_or_nothing (BioNICA ex.bio) [ex.I2; ex.I2] 5%Z [ex.I2; ex.I2]
           (BioNICA ex.bio) (Raise AssertionError)).
  reflexivity.
Defined.

(** ** The length of the output *)

Lemma length_matvec A (x p : vec) : np.matvec A x = Ok p → length p = nrows A.
Proof.
  unfold np.matvec. case_decide; [|done]. intros [= <-]. by rewrite length_fmap.
Qed.

Lemma bio_nica_fit_next_output solve_qp (x : vec) h o st' (y : vec) :
  bio_nica.fit_next solve_qp x (h, o) = (st', Ok y) →
  ∃ Wm Mm c, h !! bio_nica.W o = Some Wm ∧ h !! bio_nica.M o = Some Mm ∧
             length x = bio_nica.x_dim o ∧
             np.matvec Wm x = Ok c ∧
             solve_qp Mm c (np.eye (bio_nica.s_dim o)) (np.zeros (bio_nica.s_dim o))
               = Ok y.
Proof.
  unfold bio_nica.fit_next. intros H.
  apply bind_inv in H as (? & ? & [= <- <-] & H).
  apply bind_inv in H as (? & ? & [-> Hx]%assert_inv & H).
  apply bind_inv in H as (? & Wm & [-> HW]%deref_inv & H).
  apply bind_inv in H as (? & c & [-> Hc]%lift_inv & H).
  apply bind_inv in H as (? & Mm & [-> HM]%deref_inv & H).
  apply bind_inv in H as (? & y' & [-> Hy]%lift_inv & H).
  exists Wm, Mm, c. split_and!; try done.
  - exact (bool_decide_eq_true_1 _ Hx).
  - rewrite Hy. f_equal.
    repeat (apply bind_inv in H as (? & ? & _ & H)).
    by injection H.
Qed.

Lemma nonnegative_pca_fit_next_output (x : vec) h o st' (y : vec) :
  nonnegative_pca.fit_next x (h, o) = (st', Ok y) →
  ∃ Wm p, h !! nonnegative_pca.W o = Some Wm ∧
          length x = nonnegative_pca.x_dim o ∧
          np.matvec Wm x = Ok p ∧ y = np.maximum p 0%Qc.
Proof.
  unfold nonnegative_pca.fit_next. intros H.
  apply bind_inv in H as (? & ? & [= <- <-] & H).
  apply bind_inv in H as (? & ? & [-> Hx]%assert_inv & H).
  apply bind_inv in H as (? & Wm & [-> HW]%deref_inv & H).
  apply bind_inv in H as (? & p & [-> Hp]%lift_inv & H).
  exists Wm, p. split_and!; try done.
  - exact (bool_decide_eq_true_1 _ Hx).
  - repeat (apply bind_inv in H as (? & ? & _ & H)).
    by injection H.
Qed.

Lemma two_layer_nsm_fit_next_output solve_qp (x : vec) h o st' (y : vec) :
  two_layer_nsm.fit_next solve_qp x (h, o) = (st', Ok y) →
  ∃ Wyh Wyy hv c Whx1 Wgh1,
    (h ++ [Whx1; Wgh1]) !! two_layer_nsm.Wyh o = Some Wyh ∧
    np.matvec Wyh hv = Ok c ∧
    solve_qp Wyy c (np.eye (two_layer_nsm.s_dim o)) (np.zeros (two_layer_nsm.s_dim o))
      = Ok y.
Proof.
  unfold two_layer_nsm.fit_next. intros H.
  apply bind_inv in H as (? & ? & [= <- <-] & H).
  apply bind_inv in H as (? & Wgh & [-> _]%deref_inv & H).
  apply bind_inv in H as (? & Whx & [-> _]%deref_inv & H).
  apply bind_inv in H as (? & hv & [-> _]%lift_inv & H).
  apply bind_inv in H as (? & gv & [-> _]%lift_inv & H).
  apply bind_inv in H as (? & xb & [-> _]%lift_inv & H).
  apply bind_inv in H as (? & hb & [-> _]%lift_inv & H).
  apply bind_inv in H as (? & gb & [-> _]%lift_inv & H).
  apply bind_inv in H as (? & ? & ->%update_inv & H).
  apply bind_inv in H as (? & ? & ->%update_inv & H).
  apply bind_inv in H as (? & ? & ->%update_inv & H).
  apply bind_inv in H as (? & Whx1 & [-> _]%lift_inv & H).
  apply bind_inv in H as (? & Wgh1 & [-> _]%lift_inv & H).
  apply bind_inv in H as (? & ? & [-> ->]%alloc_inv & H).
  apply bind_inv in H as (? & ? & ->%update_inv & H).
  apply bind_inv in H as (? & ? & [-> ->]%alloc_inv & H).
  apply bind_inv in H as (? & ? & ->%update_inv & H).
  apply bind_inv in H as (? & Wyh & [-> HWyh]%deref_inv & H).
  apply bind_inv in H as (? & Wyy & [-> _]%deref_inv & H).
  apply bind_inv in H as (? & c & [-> Hc]%lift_inv & H).
  apply bind_inv in H as (? & y' & [-> Hy]%lift_inv & H).
  exists Wyh, Wyy, hv, c, Whx1, Wgh1. cbn [fst snd] in *. split_and!; try done.
  - by rewrite <-app_assoc in HWyh.
  - rewrite Hy. f_equal.
    repeat (apply bind_inv in H as (? & ? & _ & H)).
    by injection H.
Qed.

(** X4. When the quadratic-programming routine keeps its contract, the
    vector that [fit_next] returns has one component per row of the matrix
    that [flip_weights] acts on ([W], resp. [Wyh]). *)
Theorem fit_next_output_length solve_qp (l : learner) (x : vec) (h h' : heap)
    (l' : learner) (y : vec) (A : matrix) :
  quadprog.correct solve_qp →
  fit_next solve_qp x (h, l) = ((h', l'), Ok y) →
  h !! designated l = Some A →
  length y = nrows A.
Proof.
  intros Hqp H HA. unfold fit_next in H. cbv [fst snd] in H.
  destruct l as [o|o|o]; apply call_inv in H as (o' & _ & H); simpl in HA.
  - apply bio_nica_fit_next_output in H as (Wm & Mm & c & HW & _ & _ & Hc & Hy).
    destruct (Hqp _ _ _ _ _ Hy) as [_ -> _ _].
    apply length_matvec in Hc. congruence.
  - apply two_layer_nsm_fit_next_output in H
      as (Wyh & Wyy & hv & c & Whx1 & Wgh1 & HWyh & Hc & Hy).
    destruct (Hqp _ _ _ _ _ Hy) as [_ -> _ _].
    apply length_matvec in Hc.
    rewrite (lookup_app_l_Some _ _ _ _ HA) in HWyh. congruence.
  - apply nonnegative_pca_fit_next_output in H as (Wm & p & HW & _ & Hp & ->).
    rewrite length_maximum. apply length_matvec in Hp. congruence.
Qed.

Lemma fit_next_output_length_witness : length ex.ones = nrows ex.I2.
Proof.
  apply (fit_next_output_length quadprog.solve_qp_eye (TwoLayerNSM ex.nsm) ex.ones
           [ex.I2; ex.I2; ex.I2; ex.I2]
           [ex.I2; ex.I2; ex.I2; ex.I2;
            np.mscale (lit 99 100) ex.I2; np.mscale (lit 99 100) ex.I2;
            Matrix 2 [[1%Qc; lit 1 10]; [lit 1 10; 1%Qc]];
            Matrix 2 [[1%Qc; lit 1 10]; [lit 1 10; 1%Qc]]]
           (TwoLayerNSM (two_layer_nsm.Obj (lit 1 10) (lit 1 1000) 1 2 1
                           ex.ones ex.ones ex.ones 4 5 6 7))
           ex.ones ex.I2).
  - exact solve_qp_eye_correct.
  - compute_done.
  - reflexivity.
Defined.

(** ** One step of [nonnegative_pca] *)

Lemma wf_mmul A B : wf (mmul A B).
Proof.
  unfold wf, mmul. simpl. apply Forall_fmap, Forall_true. intros r. simpl.
  unfold nrows. by rewrite !length_fmap, length_seq.
Qed.

Lemma shape_mmul A B : shape (mmul A B) = (nrows A, ncols B).
Proof. unfold shape, nrows, mmul. simpl. by rewrite length_fmap. Qed.

Lemma nrows_mmul A B : nrows (mmul A B) = nrows A.
Proof. unfold nrows, mmul. simpl. by rewrite length_fmap. Qed.

Lemma matmul_defined A B : ncols A = nrows B → np.matmul A B = Ok (mmul A B).
Proof. intros H. unfold np.matmul. by rewrite decide_True. Qed.

Lemma nonnegative_pca_fit_next_run (x : vec) h o Wm :
  nonnegative_pca_state h o Wm →
  length x = nonnegative_pca.x_dim o →
  (1 + nonnegative_pca.decay o * of_nat (nonnegative_pca.t o))%Qc ≠ 0%Qc →
  let y := np.maximum (spec.apply Wm x) 0%Qc in
  let step := spec.step (nonnegative_pca.eta0 o) (nonnegative_pca.decay o)
                (nonnegative_pca.t o) in
  let W' := pca_update Wm step y x in
  nonnegative_pca.fit_next x (h, o) =
    ((<[nonnegative_pca.W o := W']> h, nonnegative_pca.set_t (nonnegative_pca.t o + 1) o),
     Ok y) ∧
  nonnegative_pca_state (<[nonnegative_pca.W o := W']> h)
    (nonnegative_pca.set_t (nonnegative_pca.t o + 1) o) W'.
Proof.
  intros [HW Hwf HsW] Hx Hdecay. intros y step W'.
  injection HsW as HrW HcW.
  assert (Hly : length y = nonnegative_pca.s_dim o).
  { unfold y. rewrite length_maximum, length_apply. done. }
  assert (HsB : shape (np.outer y x) = shape (mmul (np.outer y y) Wm)).
  { rewrite shape_outer, shape_mmul. unfold nrows, np.outer. simpl.
    rewrite length_fmap. congruence. }
  assert (HsD : shape Wm = shape (spec.smul step
                  (spec.msub (np.outer y x) (mmul (np.outer y y) Wm)))).
  { rewrite shape_smul, shape_msub, shape_outer by done. unfold shape. congruence. }
  assert (HwfD : wf (spec.smul step
                  (spec.msub (np.outer y x) (mmul (np.outer y y) Wm)))).
  { apply wf_smul, wf_msub; [apply wf_outer|apply wf_mmul|done]. }
  split.
  - unfold nonnegative_pca.fit_next.
    cbv [bind get_self assert deref lift store update ret fst snd].
    rewrite bool_decide_eq_true_2 by done.
    rewrite HW. rewrite matvec_defined by congruence.
    rewrite pydiv_defined by done.
    change (np.maximum (spec.apply Wm x) 0%Qc) with y.
    change (nonnegative_pca.eta0 o / _)%Qc with step.
    rewrite matmul_defined by (unfold np.outer; simpl; congruence).
    cbv [rbind].
    rewrite msub_same_shape by (done || apply wf_outer || apply wf_mmul).
    rewrite mscale_spec.
    rewrite imadd_same_shape by done.
    by destruct o.
  - pose proof (lookup_lt_Some _ _ _ HW) as Hlt.
    split; simpl.
    + by rewrite list_lookup_insert_eq.
    + by apply wf_madd.
    + unfold W', pca_update. rewrite shape_madd by done. unfold shape. congruence.
Qed.

(** X5. One call [fit_next(x)] of a [nonnegative_pca] learner whose [W] has
    the declared shape, with [x] of length [x_dim]: the output is the
    rectified projection [y = max(W·x, 0)] computed from the weights before
    the call, [W] becomes [W + step·(y xᵗ − (y yᵗ)·W)] with
    [step = eta0/(1+decay·t)], in the same object, [t] becomes [t + 1], and
    the new state has the declared shape again. *)
Theorem nonnegative_pca_fit_next_updates solve_qp (x : vec) (h : heap)
    (o : nonnegative_pca.obj) (Wm : matrix) :
  nonnegative_pca_state h o Wm →
  length x = nonnegative_pca.x_dim o →
  (1 + nonnegative_pca.decay o * of_nat (nonnegative_pca.t o))%Qc ≠ 0%Qc →
  let y := np.maximum (spec.apply Wm x) 0%Qc in
  let step := spec.step (nonnegative_pca.eta0 o) (nonnegative_pca.decay o)
                (nonnegative_pca.t o) in
  let W' := pca_update Wm step y x in
  let o' := nonnegative_pca.set_t (nonnegative_pca.t o + 1) o in
  fit_next solve_qp x (h, NonnegativePCA o) =
    ((<[nonnegative_pca.W o := W']> h, NonnegativePCA o'), Ok y) ∧
  nonnegative_pca_state (<[nonnegative_pca.W o := W']> h) o' W'.
Proof.
  intros Hst Hx Hd. cbv zeta.
  destruct (nonnegative_pca_fit_next_run x h o Wm Hst Hx Hd) as [Hrun Hst'].
  split; [|done]. unfold fit_next, call; cbv [fst snd]. by rewrite Hrun.
Qed.

Lemma ex_pca_state : nonnegative_pca_state [ex.I2] ex.pca ex.I2.
Proof. split; [done|apply wf_eye|done]. Qed.

Lemma nonnegative_pca_fit_next_updates_witness :
  fit_next quadprog.solve_qp_eye ex.ones ([ex.I2], NonnegativePCA ex.pca) =
    ((<[0 := pca_update ex.I2 (spec.step (lit 1 10) (lit 1 1000) 0)
              (np.maximum (spec.apply ex.I2 ex.ones) 0%Qc) ex.ones]> [ex.I2],
      NonnegativePCA (nonnegative_pca.set_t 1 ex.pca)),
     Ok (np.maximum (spec.apply ex.I2 ex.ones) 0%Qc)) ∧
  nonnegative_pca_state
    (<[0 := pca_update ex.I2 (spec.step (lit 1 10) (lit 1 1000) 0)
             (np.maximum (spec.apply ex.I2 ex.ones) 0%Qc) ex.ones]> [ex.I2])
    (nonnegative_pca.set_t 1 ex.pca)
    (pca_update ex.I2 (spec.step (lit 1 10) (lit 1 1000) 0)
       (np.maximum (spec.apply ex.I2 ex.ones) 0%Qc) ex.ones).
Proof.
  apply (nonnegative_pca_fit_next_updates quadprog.solve_qp_eye ex.ones [ex.I2]
           ex.pca ex.I2).
  - exact ex_pca_state.
  - reflexivity.
  - compute_done.
Defined.

(** ** An input that activates no unit *)







Lemma nrows_T B : nrows (np.T B) = ncols B.
Proof. unfold nrows, np.T. simpl. by rewrite length_fmap, length_seq. Qed.






Lemma vadd_zeros_r (v : vec) : spec.vadd v (np.zeros (length v)) = v.
Proof.
  unfold spec.vadd. induction v as [|e v IH]; [done|].
  change (np.zeros (length (e :: v))) with (0%Qc :: np.zeros (length v)).
  cbn [zip_with]. rewrite IH. f_equal. ring.
Qed.





(** ** One step of [two_layer_nsm] *)

Lemma inv_shape G Gi :
  np.linalg.inv G = Ok Gi → wf Gi ∧ shape Gi = (nrows G, nrows G).
Proof.
  unfold np.linalg.inv. intros (d & _ & H)%rbind_inv.
  case_decide; [done|]. injection H as <-. split.
  - unfold wf. simpl. apply Forall_fmap, Forall_true. intros i. simpl.
    by rewrite length_fmap, length_seq.
  - unfold shape, nrows. simpl. by rewrite length_fmap, length_seq.
Qed.

Lemma mean_add_same_length (m v : vec) k :
  length m = length v →
  mean_add m v k = Ok (spec.vadd m (spec.vdiv (spec.vsub v m) (of_nat k))).
Proof.
  intros Hmv. unfold mean_add. rewrite sub_same_length by done. simpl.
  unfold np.add. rewrite bvec_same_length; [done|].
  by rewrite length_divide, length_vsub.
Qed.

Lemma relax_defined A k (u v : vec) :
  wf A → shape A = (length u, length v) →
  two_layer_nsm.relax A k u v = Ok (relaxed A k u v) ∧
  wf (relaxed A k u v) ∧ shape (relaxed A k u v) = shape A.
Proof.
  intros Hwf Hs. unfold two_layer_nsm.relax, relaxed.
  assert (HsO : shape (np.outer u v) = shape A) by (by rewrite shape_outer).
  rewrite msub_same_shape by (done || apply wf_outer). simpl.
  assert (HwfD : wf (spec.smul k (spec.msub (np.outer u v) A)))
    by (apply wf_smul, wf_msub; done || apply wf_outer).
  assert (HsD : shape A = shape (spec.smul k (spec.msub (np.outer u v) A)))
    by (by rewrite shape_smul, shape_msub).
  unfold np.madd. rewrite mscale_spec, bmat_same_shape by done.
  split_and!; [done|by apply wf_madd|by apply shape_madd].
Qed.

Section two_layer_nsm_run.

Context (solve_qp : matrix → vec → matrix → vec → result vec).
Context (x : vec) (h : heap) (o : two_layer_nsm.obj) (Whx Wgh Wyh Wyy Gi : matrix).
Context (Hst : two_layer_nsm_state h o Whx Wgh Wyh Wyy).
Context (Hx : length x = two_layer_nsm.x_dim o).
Context (Hinv : np.linalg.inv (mmul (np.T Wgh) Wgh) = Ok Gi).

Let s := two_layer_nsm.s_dim o.
Let t := two_layer_nsm.t o.
Let hv := spec.apply (mmul Gi Whx) x.
Let g := spec.apply Wgh hv.
Let xbar := spec.full_history (two_layer_nsm.x_bar o) x t.
Let hbar := spec.full_history (two_layer_nsm.h_bar o) hv t.
Let gbar := spec.full_history (two_layer_nsm.g_bar o) g t.
Let k := (1 / of_nat (100 + t))%Qc.
Let Whx' := relaxed Whx k (spec.vsub hv hbar) (spec.vsub x xbar).
Let Wgh' := relaxed Wgh k (spec.vsub g gbar) (spec.vsub hv hbar).
Let c := spec.apply Wyh hv.
Let o1 := two_layer_nsm.Obj (two_layer_nsm.eta0 o) (two_layer_nsm.decay o) t s
            (two_layer_nsm.x_dim o) xbar hbar gbar
            (length h) (length h + 1) (two_layer_nsm.Wyh o) (two_layer_nsm.Wyy o).

(** The whitening stage, up to the call of the solver. *)
Lemma two_layer_nsm_whitening :
  length hv = s ∧ length c = s ∧
  wf Whx' ∧ shape Whx' = shape Whx ∧ wf Wgh' ∧ shape Wgh' = shape Wgh ∧
  length xbar = two_layer_nsm.x_dim o ∧ length hbar = s ∧ length gbar = s ∧
  two_layer_nsm.fit_next solve_qp x (h, o) =
    match solve_qp Wyy c (np.eye s) (np.zeros s) with
    | Raise e => ((h ++ [Whx'; Wgh'], o1), Raise e)
    | Ok y =>
        match pydiv (two_layer_nsm.eta0 o)
                (1 + two_layer_nsm.decay o * of_nat t)%Qc with
        | Raise e => ((h ++ [Whx'; Wgh'], o1), Raise e)
        | Ok step =>
            match two_layer_nsm.relax Wyh step y hv with
            | Raise e => ((h ++ [Whx'; Wgh'], o1), Raise e)
            | Ok Wyh1 =>
            match two_layer_nsm.relax Wyy step y y with
            | Raise e => ((h ++ [Whx'; Wgh'], o1), Raise e)
            | Ok Wyy1 =>
            match np.linalg.det Wyy1 with
            | Raise e => ((h ++ [Whx'; Wgh'], o1), Raise e)
            | Ok d =>
            match (if decide (d < lit 1 10000)%Qc
                   then np.imadd Wyy1 (np.mscale (lit 1 10) (np.eye s))
                   else Ok Wyy1) with
            | Raise e => ((h ++ [Whx'; Wgh'], o1), Raise e)
            | Ok Wyy2 =>
                ((h ++ [Whx'; Wgh'; Wyh1; Wyy2],
                  two_layer_nsm.Obj (two_layer_nsm.eta0 o) (two_layer_nsm.decay o)
                    (t + 1) s (two_layer_nsm.x_dim o) xbar hbar gbar
                    (length h) (length h + 1) (length h + 2) (length h + 3)),
                 Ok y)
            end end end end end
    end.
Proof using Hst Hx Hinv.
  destruct Hst as [HWhx HWgh HWyh HWyy HwfWhx HwfWgh HwfWyh HwfWyy
                     HsWhx HsWgh HsWyh HsWyy Hxb Hhb Hgb].
  injection HsWhx as HrWhx HcWhx. injection HsWgh as HrWgh HcWgh.
  injection HsWyh as HrWyh HcWyh.
  fold s in HrWhx, HrWgh, HcWgh, HrWyh, HcWyh, Hhb, Hgb.
  destruct (inv_shape _ _ Hinv) as [HwfGi HsGi].
  rewrite !nrows_mmul, nrows_T, HcWgh in HsGi. injection HsGi as HrGi HcGi.
  assert (Hlhv : length hv = s).
  { unfold hv. by rewrite length_apply, nrows_mmul. }
  assert (Hlg : length g = s) by (unfold g; by rewrite length_apply).
  assert (Hlc : length c = s) by (unfold c; by rewrite length_apply).
  assert (Hlxbar : length xbar = two_layer_nsm.x_dim o)
    by (unfold xbar, spec.full_history; rewrite length_mean; congruence).
  assert (Hlhbar : length hbar = s)
    by (unfold hbar, spec.full_history; rewrite length_mean; congruence).
  assert (Hlgbar : length gbar = s)
    by (unfold gbar, spec.full_history; rewrite length_mean; congruence).
  destruct (relax_defined Whx k (spec.vsub hv hbar) (spec.vsub x xbar))
    as (HWhx' & HwfWhx' & HsWhx'); [done| |].
  { rewrite !length_vsub by congruence. unfold shape. congruence. }
  destruct (relax_defined Wgh k (spec.vsub g gbar) (spec.vsub hv hbar))
    as (HWgh' & HwfWgh' & HsWgh'); [done| |].
  { rewrite !length_vsub by congruence. unfold shape. congruence. }
  split_and!; try done.
  unfold two_layer_nsm.fit_next.
  cbv [bind get_self deref lift alloc update ret fst snd].
  rewrite HWgh, HWhx.
  rewrite matmul_defined by done.
  cbv [rbind]. rewrite Hinv.
  rewrite matmul_defined by congruence.
  rewrite matvec_defined by (unfold mmul; simpl; congruence).
  change (spec.apply (mmul Gi Whx) x) with hv.
  rewrite matvec_defined by congruence.
  change (spec.apply Wgh hv) with g.
  rewrite !mean_add_same_length by congruence.
  change (spec.vadd (two_layer_nsm.x_bar o) _) with xbar.
  change (spec.vadd (two_layer_nsm.h_bar o) _) with hbar.
  change (spec.vadd (two_layer_nsm.g_bar o) _) with gbar.
  rewrite (sub_same_length hv hbar), (sub_same_length x xbar),
    (sub_same_length g gbar) by congruence.
  fold t k. rewrite HWhx', HWgh'. fold Whx' Wgh'.
  pose proof (lookup_lt_Some _ _ _ HWyh) as HltWyh.
  pose proof (lookup_lt_Some _ _ _ HWyy) as HltWyy.
  rewrite !lookup_app_l by (rewrite ?length_app; simpl; lia).
  rewrite HWyh, HWyy.
  rewrite matvec_defined by congruence.
  change (spec.apply Wyh hv) with c. fold s.
  assert (Hmid :
    ((h ++ [Whx']) ++ [Wgh'],
     two_layer_nsm.set_Wgh (length (h ++ [Whx']))
       (two_layer_nsm.set_Whx (length h)
          (two_layer_nsm.set_g_bar gbar
             (two_layer_nsm.set_h_bar hbar (two_layer_nsm.set_x_bar xbar o)))))
    = (h ++ [Whx'; Wgh'], o1)).
  { rewrite <-app_assoc, length_app. done. }
  rewrite !Hmid. clear Hmid.
  destruct (solve_qp Wyy c (np.eye s) (np.zeros s)) as [y|e]; [|done].
  destruct (pydiv _ _) as [step|e]; [|done].
  destruct (two_layer_nsm.relax Wyh step y hv) as [Wyh1|e]; [|done].
  destruct (two_layer_nsm.relax Wyy step y y) as [Wyy1|e]; [|done].
  destruct (np.linalg.det Wyy1) as [d|e]; [|done].
  case_decide.
  - destruct (np.imadd Wyy1 _) as [Wyy2|e]; [|done].
    cbn [fst snd]. rewrite <-!app_assoc, !length_app. simpl.
    repeat f_equal; lia.
  - cbn [fst snd]. rewrite <-!app_assoc, !length_app. simpl.
    repeat f_equal; lia.
Qed.

End two_layer_nsm_run.

Lemma lookup_alloc4 (h : heap) (a b c d : matrix) :
  (h ++ [a; b; c; d]) !! length h = Some a ∧
  (h ++ [a; b; c; d]) !! (length h + 1) = Some b ∧
  (h ++ [a; b; c; d]) !! (length h + 2) = Some c ∧
  (h ++ [a; b; c; d]) !! (length h + 3) = Some d.
Proof.
  split_and!; rewrite lookup_app_r by lia.
  - by rewrite Nat.sub_diag.
  - by replace (length h + 1 - length h) with 1 by lia.
  - by replace (length h + 2 - length h) with 2 by lia.
  - by replace (length h + 3 - length h) with 3 by lia.
Qed.

Lemma two_layer_nsm_fit_next_run solve_qp (x : vec) (h : heap)
    (o : two_layer_nsm.obj) (Whx Wgh Wyh Wyy Gi : matrix) (y : vec) :
  quadprog.correct solve_qp →
  two_layer_nsm_state h o Whx Wgh Wyh Wyy →
  length x = two_layer_nsm.x_dim o →
  np.linalg.inv (mmul (np.T Wgh) Wgh) = Ok Gi →
  (1 + two_layer_nsm.decay o * of_nat (two_layer_nsm.t o))%Qc ≠ 0%Qc →
  let s := two_layer_nsm.s_dim o in
  let t := two_layer_nsm.t o in
  let hv := spec.apply (mmul Gi Whx) x in
  let g := spec.apply Wgh hv in
  solve_qp Wyy (spec.apply Wyh hv) (np.eye s) (np.zeros s) = Ok y →
  let xbar := spec.full_history (two_layer_nsm.x_bar o) x t in
  let hbar := spec.full_history (two_layer_nsm.h_bar o) hv t in
  let gbar := spec.full_history (two_layer_nsm.g_bar o) g t in
  let k := (1 / of_nat (100 + t))%Qc in
  let step := spec.step (two_layer_nsm.eta0 o) (two_layer_nsm.decay o) t in
  let Whx' := relaxed Whx k (spec.vsub hv hbar) (spec.vsub x xbar) in
  let Wgh' := relaxed Wgh k (spec.vsub g gbar) (spec.vsub hv hbar) in
  let Wyh' := relaxed Wyh step y hv in
  let Wyy' := spec.stabilizer s (relaxed Wyy step y y) in
  let h' := h ++ [Whx'; Wgh'; Wyh'; Wyy'] in
  let o' := two_layer_nsm.Obj (two_layer_nsm.eta0 o) (two_layer_nsm.decay o)
              (t + 1) s (two_layer_nsm.x_dim o) xbar hbar gbar
              (length h) (length h + 1) (length h + 2) (length h + 3) in
  two_layer_nsm.fit_next solve_qp x (h, o) = ((h', o'), Ok y) ∧
  two_layer_nsm_state h' o' Whx' Wgh' Wyh' Wyy'.
Proof.
  intros Hqp Hst Hx Hinv Hdecay s t hv g Hy.
  intros xbar hbar gbar k step Whx' Wgh' Wyh' Wyy' h' o'.
  pose proof (two_layer_nsm_whitening solve_qp x h o Whx Wgh Wyh Wyy Gi Hst Hx Hinv)
    as Hw.
  cbv zeta in Hw. fold s t hv g xbar hbar gbar k Whx' Wgh' in Hw.
  destruct Hw
    as (Hlhv & Hlc & HwfWhx' & HsWhx' & HwfWgh' & HsWgh' & Hlx & Hlh & Hlg & Hrun).
  destruct Hst as [HWhx HWgh HWyh HWyy HwfWhx HwfWgh HwfWyh HwfWyy
                     HsWhx HsWgh HsWyh HsWyy Hxb Hhb Hgb].
  fold s in HsWhx, HsWgh, HsWyh, HsWyy.
  assert (Hly : length y = s).
  { destruct (Hqp _ _ _ _ _ Hy) as [_ -> _ _]. fold hv. exact Hlc. }
  destruct (relax_defined Wyh step y hv) as (HWyh' & HwfWyh' & HsWyh'); [done| |].
  { congruence. }
  destruct (relax_defined Wyy step y y) as (HWyy1 & HwfWyy1 & HsWyy1); [done| |].
  { congruence. }
  assert (HwfWyy' : wf Wyy' ∧ shape Wyy' = (s, s)).
  { unfold Wyy', spec.stabilizer. case_decide; [|split; congruence].
    split.
    - apply wf_madd; [done|apply wf_smul, wf_eye|].
      rewrite shape_smul, shape_eye. congruence.
    - rewrite shape_madd; [congruence|].
      rewrite shape_smul, shape_eye. congruence. }
  split.
  - rewrite Hrun.
    fold hv in Hy. rewrite Hy. rewrite pydiv_defined by done.
    change (two_layer_nsm.eta0 o / _)%Qc with step.
    rewrite HWyh', HWyy1. fold Wyh'.
    rewrite det_square by (unfold shape in HsWyy1, HsWyy; congruence).
    unfold h', Wyy', spec.stabilizer.
    case_decide; [|done].
    rewrite mscale_spec, imadd_same_shape; [done|done|apply wf_smul, wf_eye|].
    rewrite shape_smul, shape_eye. congruence.
  - destruct (lookup_alloc4 h Whx' Wgh' Wyh' Wyy') as (L0 & L1 & L2 & L3).
    destruct HwfWyy' as [? ?].
    split; simpl; try done; try congruence.
    exact (eq_trans HsWyh' HsWyh).
Qed.


Lemma ex_nsm2_state :
  two_layer_nsm_state [ex.I2; ex.I2; ex.I2; ex.I2] ex.nsm2 ex.I2 ex.I2 ex.I2 ex.I2.
Proof. split; try done; apply wf_eye. Qed.


(** ** What a failing call leaves behind *)

Lemma bio_nica_fit_next_solver_raises solve_qp (x : vec) h o Wm Mm e :
  h !! bio_nica.W o = Some Wm →
  h !! bio_nica.M o = Some Mm →
  length x = bio_nica.x_dim o →
  ncols Wm = length x →
  solve_qp Mm (spec.apply Wm x) (np.eye (bio_nica.s_dim o))
    (np.zeros (bio_nica.s_dim o)) = Raise e →
  bio_nica.fit_next solve_qp x (h, o) = ((h, o), Raise e).
Proof.
  intros HW HM Hx Hc Hy. unfold bio_nica.fit_next.
  cbv [bind get_self assert deref lift store update ret fst snd].
  rewrite bool_decide_eq_true_2 by done.
  rewrite HW, matvec_defined by done. by rewrite HM, Hy.
Qed.



Lemma pydiv_zero a : pydiv a 0%Qc = Raise ZeroDivisionError.
Proof. done. Qed.

Lemma bio_nica_fit_next_division solve_qp (x : vec) h o Wm Mm (y : vec) :
  bio_nica_state h o Wm Mm →
  length x = bio_nica.x_dim o →
  solve_qp Mm (spec.apply Wm x) (np.eye (bio_nica.s_dim o))
    (np.zeros (bio_nica.s_dim o)) = Ok y →
  length y = bio_nica.s_dim o →
  let c := spec.apply Wm x in
  let xbar := spec.full_history (bio_nica.x_bar o) x (bio_nica.t o) in
  let cbar := spec.fixed_window (bio_nica.c_bar o) c 100 in
  let step := spec.step (bio_nica.eta0 o) (bio_nica.decay o) (bio_nica.t o) in
  let W' := spec.W_update Wm step y x c cbar xbar in
  let o' := bio_nica.set_c_bar cbar (bio_nica.set_x_bar xbar o) in
  ((1 + bio_nica.decay o * of_nat (bio_nica.t o))%Qc = 0%Qc →
   bio_nica.fit_next solve_qp x (h, o)
     = ((h, o'), Raise ZeroDivisionError)) ∧
  ((1 + bio_nica.decay o * of_nat (bio_nica.t o))%Qc ≠ 0%Qc →
   bio_nica.tau o = 0%Qc →
   bio_nica.fit_next solve_qp x (h, o)
     = ((<[bio_nica.W o := W']> h, o'), Raise ZeroDivisionError) ∧
   <[bio_nica.W o := W']> h !! bio_nica.M o = Some Mm).
Proof.
  intros [HW HM Hne HwfW HwfM HsW HsM Hxb Hcb] Hx Hy Hly.
  intros c xbar cbar step W' o'.
  injection HsW as HrW HcW. injection HsM as HrM HcM.
  assert (Hrun :
    bio_nica.fit_next solve_qp x (h, o) =
    match pydiv (bio_nica.eta0 o)
            (1 + bio_nica.decay o * of_nat (bio_nica.t o))%Qc with
    | Raise e => ((h, o'), Raise e)
    | Ok st =>
        match pydiv st (bio_nica.tau o) with
        | Raise e =>
            ((<[bio_nica.W o :=
                  spec.W_update Wm st y x c cbar xbar]> h, o'), Raise e)
        | Ok _ => bio_nica.fit_next solve_qp x (h, o)
        end
    end).
  { unfold bio_nica.fit_next.
    cbv [bind get_self assert deref lift store update ret fst snd].
    rewrite bool_decide_eq_true_2 by done.
    rewrite HW. rewrite matvec_defined by congruence.
    rewrite HM. rewrite Hy.
    rewrite mean_iadd_same_length by congruence.
    rewrite mean_iadd_same_length by (rewrite length_apply; congruence).
    change (spec.apply Wm x) with c.
    change (spec.vadd (bio_nica.c_bar o) _) with cbar.
    change (spec.vadd (bio_nica.x_bar o) _) with xbar.
    destruct (pydiv (bio_nica.eta0 o) _) as [st|e] eqn:Hst; [|done].
    assert (Hlc : length c = bio_nica.s_dim o)
      by (unfold c; rewrite length_apply; congruence).
    assert (Hlxbar : length xbar = bio_nica.x_dim o)
      by (unfold xbar, spec.full_history; rewrite length_mean; congruence).
    assert (Hlcbar : length cbar = bio_nica.s_dim o)
      by (unfold cbar, spec.fixed_window; rewrite length_mean; congruence).
    rewrite (sub_same_length c cbar) by congruence.
    rewrite (sub_same_length x xbar) by congruence.
    cbv [rbind].
    assert (HsD : shape (np.outer y x)
                  = shape (np.outer (spec.vsub c cbar) (spec.vsub x xbar))).
    { rewrite !shape_outer, !length_vsub by congruence. congruence. }
    rewrite msub_same_shape by (done || apply wf_outer).
    rewrite mscale_spec.
    rewrite imadd_same_shape; cycle 1.
    { done. }
    { apply wf_smul, wf_msub; done || apply wf_outer. }
    { rewrite shape_smul, shape_msub, shape_outer by done. unfold shape. congruence. }
    by destruct (pydiv st (bio_nica.tau o)). }
  split.
  - intros Hz. rewrite Hrun, Hz, pydiv_zero. done.
  - intros Hnz Hz. split.
    + rewrite Hrun, pydiv_defined by done. rewrite Hz, pydiv_zero. done.
    + by rewrite list_lookup_insert_ne.
Qed.

(** X9. A division by zero in [bio_nica.fit_next] comes after the running
    means have been written. With [1 + decay*t = 0] the call raises
    [ZeroDivisionError] having updated [x_bar] and [c_bar] only. With
    [tau = 0] it raises having also applied the update of [W]; [M] and the
    counter [t] are as before in both cases. *)
Theorem bio_nica_fit_next_division_by_zero solve_qp (x : vec) h o Wm Mm (y : vec) :
  bio_nica_state h o Wm Mm →
  length x = bio_nica.x_dim o →
  solve_qp Mm (spec.apply Wm x) (np.eye (bio_nica.s_dim o))
    (np.zeros (bio_nica.s_dim o)) = Ok y →
  length y = bio_nica.s_dim o →
  let c := spec.apply Wm x in
  let xbar := spec.full_history (bio_nica.x_bar o) x (bio_nica.t o) in
  let cbar := spec.fixed_window (bio_nica.c_bar o) c 100 in
  let step := spec.step (bio_nica.eta0 o) (bio_nica.decay o) (bio_nica.t o) in
  let W' := spec.W_update Wm step y x c cbar xbar in
  let o' := bio_nica.set_c_bar cbar (bio_nica.set_x_bar xbar o) in
  ((1 + bio_nica.decay o * of_nat (bio_nica.t o))%Qc = 0%Qc →
   fit_next solve_qp x (h, BioNICA o)
     = ((h, BioNICA o'), Raise ZeroDivisionError)) ∧
  ((1 + bio_nica.decay o * of_nat (bio_nica.t o))%Qc ≠ 0%Qc →
   bio_nica.tau o = 0%Qc →
   fit_next solve_qp x (h, BioNICA o)
     = ((<[bio_nica.W o := W']> h, BioNICA o'), Raise ZeroDivisionError) ∧
   <[bio_nica.W o := W']> h !! bio_nica.M o = Some Mm).
Proof.
  intros Hst Hx Hy Hly. cbv zeta.
  destruct (bio_nica_fit_next_division solve_qp x h o Wm Mm y Hst Hx Hy Hly)
    as [Hdecay Htau].
  cbv zeta in Hdecay, Htau.
  unfold fit_next, call; cbv [fst snd]. split.
  - intros Hz. by rewrite (Hdecay Hz).
  - intros Hnz Hz. destruct (Htau Hnz Hz) as [-> Hlook]. done.
Qed.

Lemma bio_nica_fit_next_division_by_zero_witness :
  let o := bio_nica.Obj 0 (lit 1 10) (lit 1 1000) 0%Qc 2 2 (np.zeros 2) (np.zeros 2) 0 1 in
  fit_next quadprog.solve_qp_eye ex.e1 ([ex.I2; ex.I2], BioNICA o)
    = (([ex.I2; Matrix 2 [[lit 6 5; 0%Qc]; [0%Qc; 1%Qc]]],
        BioNICA (bio_nica.Obj 0 (lit 1 10) (lit 1 1000) 0%Qc 2 2 ex.e1
                   [lit 1 100; 0%Qc] 0 1)),
       Raise ZeroDivisionError).
Proof.
  intros o.
  pose proof (bio_nica_fit_next_division_by_zero quadprog.solve_qp_eye ex.e1
                [ex.I2; ex.I2] o ex.I2 ex.I2 ex.e1) as H.
  cbv zeta in H.
  destruct H as [_ H].
  - split; try done; apply wf_eye.
  - reflexivity.
  - compute_done.
  - reflexivity.
  - destruct H as [H _]; [compute_done|reflexivity|].
    rewrite H. compute_done.
Defined.

(** ** Shapes are kept by every returning call *)

Lemma bio_nica_fit_next_kept solve_qp (x : vec) h o Wm Mm h' o' (y : vec) :
  quadprog.correct solve_qp →
  bio_nica_state h o Wm Mm →
  bio_nica.fit_next solve_qp x (h, o) = ((h', o'), Ok y) →
  length x = bio_nica.x_dim o ∧ length y = bio_nica.s_dim o ∧
  (∃ Wm' Mm', bio_nica_state h' o' Wm' Mm') ∧
  bio_nica.x_bar o' = spec.full_history (bio_nica.x_bar o) x (bio_nica.t o).
Proof.
  intros Hqp Hst Hrun.
  destruct (decide (length x = bio_nica.x_dim o)) as [Hx|Hx]; cycle 1.
  { by rewrite bio_nica_fit_next_asserted in Hrun. }
  pose proof Hst as [HW HM _ _ _ HsW _ _ _]. injection HsW as HrW HcW.
  destruct (solve_qp Mm (spec.apply Wm x) (np.eye (bio_nica.s_dim o))
              (np.zeros (bio_nica.s_dim o))) as [y0|e] eqn:Hy; cycle 1.
  { rewrite (bio_nica_fit_next_solver_raises solve_qp x h o Wm Mm e) in Hrun;
      done || congruence. }
  assert (Hly : length y0 = bio_nica.s_dim o).
  { destruct (Hqp _ _ _ _ _ Hy) as [_ -> _ _]. by rewrite length_apply. }
  destruct (bio_nica_fit_next_division solve_qp x h o Wm Mm y0 Hst Hx Hy Hly)
    as [Hdecay Htau]. cbv zeta in Hdecay, Htau.
  destruct (decide ((1 + bio_nica.decay o * of_nat (bio_nica.t o))%Qc = 0%Qc))
    as [Hz|Hnz].
  { by rewrite (Hdecay Hz) in Hrun. }
  destruct (decide (bio_nica.tau o = 0%Qc)) as [Hz|Hnt].
  { destruct (Htau Hnz Hz) as [Hr _]. by rewrite Hr in Hrun. }
  rewrite (bio_nica_fit_next_run solve_qp x h o Wm Mm y0) in Hrun by done.
  injection Hrun as <- <- <-.
  split_and!; try done.
  eexists _, _. by apply bio_nica_state_preserved.
Qed.

Lemma nonnegative_pca_fit_next_division (x : vec) h o Wm :
  h !! nonnegative_pca.W o = Some Wm →
  length x = nonnegative_pca.x_dim o →
  ncols Wm = length x →
  (1 + nonnegative_pca.decay o * of_nat (nonnegative_pca.t o))%Qc = 0%Qc →
  nonnegative_pca.fit_next x (h, o) = ((h, o), Raise ZeroDivisionError).
Proof.
  intros HW Hx Hc Hz. unfold nonnegative_pca.fit_next.
  cbv [bind get_self assert deref lift store update ret fst snd].
  rewrite bool_decide_eq_true_2 by done.
  rewrite HW, matvec_defined by done. by rewrite Hz, pydiv_zero.
Qed.

Lemma nonnegative_pca_fit_next_kept (x : vec) h o Wm h' o' (y : vec) :
  nonnegative_pca_state h o Wm →
  nonnegative_pca.fit_next x (h, o) = ((h', o'), Ok y) →
  length x = nonnegative_pca.x_dim o ∧ length y = nonnegative_pca.s_dim o ∧
  ∃ Wm', nonnegative_pca_state h' o' Wm'.
Proof.
  intros Hst Hrun.
  destruct (decide (length x = nonnegative_pca.x_dim o)) as [Hx|Hx]; cycle 1.
  { by rewrite nonnegative_pca_fit_next_asserted in Hrun. }
  pose proof Hst as [HW _ HsW]. injection HsW as HrW HcW.
  destruct (decide ((1 + nonnegative_pca.decay o
                       * of_nat (nonnegative_pca.t o))%Qc = 0%Qc)) as [Hz|Hnz].
  { rewrite (nonnegative_pca_fit_next_division x h o Wm) in Hrun;
      done || congruence. }
  destruct (nonnegative_pca_fit_next_run x h o Wm Hst Hx Hnz) as [Hr Hst'].
  cbv zeta in Hr, Hst'. rewrite Hr in Hrun. injection Hrun as <- <- <-.
  split_and!; [done| |by eexists].
  by rewrite length_maximum, length_apply.
Qed.

Lemma two_layer_nsm_fit_next_inv_raises solve_qp (x : vec) h o Whx Wgh Wyh Wyy e :
  two_layer_nsm_state h o Whx Wgh Wyh Wyy →
  np.linalg.inv (mmul (np.T Wgh) Wgh) = Raise e →
  two_layer_nsm.fit_next solve_qp x (h, o) = ((h, o), Raise e).
Proof.
  intros Hst Hinv. destruct Hst as [HWhx HWgh _ _ _ _ _ _ _ _ _ _ _ _ _].
  unfold two_layer_nsm.fit_next.
  cbv [bind get_self deref lift alloc update ret fst snd].
  rewrite HWgh, HWhx. rewrite matmul_defined by done.
  cbv [rbind]. by rewrite Hinv.
Qed.

Lemma two_layer_nsm_fit_next_mismatch solve_qp (x : vec) h o Whx Wgh Wyh Wyy Gi :
  two_layer_nsm_state h o Whx Wgh Wyh Wyy →
  np.linalg.inv (mmul (np.T Wgh) Wgh) = Ok Gi →
  length x ≠ two_layer_nsm.x_dim o →
  two_layer_nsm.fit_next solve_qp x (h, o) = ((h, o), Raise ValueError).
Proof.
  intros Hst Hinv Hx.
  destruct Hst as [HWhx HWgh _ _ _ _ _ _ HsWhx HsWgh _ _ _ _ _].
  injection HsWhx as HrWhx HcWhx. injection HsWgh as HrWgh HcWgh.
  destruct (inv_shape _ _ Hinv) as [_ HsGi].
  rewrite !nrows_mmul, nrows_T, HcWgh in HsGi. injection HsGi as HrGi HcGi.
  unfold two_layer_nsm.fit_next.
  cbv [bind get_self deref lift alloc update ret fst snd].
  rewrite HWgh, HWhx. rewrite matmul_defined by done.
  cbv [rbind]. rewrite Hinv.
  rewrite matmul_defined by congruence.
  unfold np.matvec. rewrite decide_False; [done|].
  unfold mmul; simpl. congruence.
Qed.

Lemma two_layer_nsm_fit_next_kept solve_qp (x : vec) h o Whx Wgh Wyh Wyy h' o'
    (y : vec) :
  quadprog.correct solve_qp →
  two_layer_nsm_state h o Whx Wgh Wyh Wyy →
  two_layer_nsm.fit_next solve_qp x (h, o) = ((h', o'), Ok y) →
  length x = two_layer_nsm.x_dim o ∧ length y = two_layer_nsm.s_dim o ∧
  (∃ Whx' Wgh' Wyh' Wyy', two_layer_nsm_state h' o' Whx' Wgh' Wyh' Wyy') ∧
  two_layer_nsm.x_bar o'
    = spec.full_history (two_layer_nsm.x_bar o) x (two_layer_nsm.t o).
Proof.
  intros Hqp Hst Hrun.
  destruct (np.linalg.inv (mmul (np.T Wgh) Wgh)) as [Gi|e] eqn:Hinv; cycle 1.
  { by rewrite (two_layer_nsm_fit_next_inv_raises solve_qp x h o Whx Wgh Wyh Wyy e)
      in Hrun. }
  destruct (decide (length x = two_layer_nsm.x_dim o)) as [Hx|Hx]; cycle 1.
  { by rewrite (two_layer_nsm_fit_next_mismatch solve_qp x h o Whx Wgh Wyh Wyy Gi)
      in Hrun. }
  pose proof (two_layer_nsm_whitening solve_qp x h o Whx Wgh Wyh Wyy Gi Hst Hx Hinv)
    as Hw.
  cbv zeta in Hw.
  destruct Hw as (_ & Hlc & _ & _ & _ & _ & _ & _ & _ & Hw).
  destruct (solve_qp Wyy (spec.apply Wyh (spec.apply (mmul Gi Whx) x))
              (np.eye (two_layer_nsm.s_dim o)) (np.zeros (two_layer_nsm.s_dim o)))
    as [y0|e] eqn:Hy; cycle 1.
  { rewrite Hw in Hrun. done. }
  destruct (decide ((1 + two_layer_nsm.decay o
                       * of_nat (two_layer_nsm.t o))%Qc = 0%Qc)) as [Hz|Hnz].
  { rewrite Hw, Hz, pydiv_zero in Hrun. done. }
  clear Hw.
  destruct (two_layer_nsm_fit_next_run solve_qp x h o Whx Wgh Wyh Wyy Gi y0
              Hqp Hst Hx Hinv Hnz Hy) as [Hr Hst'].
  cbv zeta in Hr, Hst'. rewrite Hr in Hrun. injection Hrun as <- <- <-.
  split_and!; try done.
  - destruct (Hqp _ _ _ _ _ Hy) as [_ -> _ _]. exact Hlc.
  - by eexists _, _, _, _.
Qed.

Lemma valid_input_mean h (l : learner) (m : vec) :
  valid h l → input_mean l = Some m → length m = x_dim l.
Proof.
  destruct l as [o|o|o]; simpl; [| |done].
  - intros (Wm & Mm & Hst) [= <-]. by destruct Hst.
  - intros (Whx & Wgh & Wyh & Wyy & Hst) [= <-]. by destruct Hst.
Qed.

Lemma fit_next_kept solve_qp (l l' : learner) (x : vec) (h h' : heap) (y : vec) :
  quadprog.correct solve_qp →
  valid h l →
  fit_next solve_qp x (h, l) = ((h', l'), Ok y) →
  valid h' l' ∧ length x = x_dim l ∧ length y = s_dim l ∧
  s_dim l' = s_dim l ∧ x_dim l' = x_dim l ∧ counter l' = counter l + 1 ∧
  ∀ m, input_mean l = Some m →
       input_mean l' = Some (spec.full_history m x (counter l)).
Proof.
  intros Hqp Hv Hrun. unfold fit_next, call in Hrun. cbv [fst snd] in Hrun.
  destruct l as [o|o|o]; simpl in Hv.
  - destruct Hv as (Wm & Mm & Hst).
    destruct (bio_nica.fit_next solve_qp x (h, o)) as [[h1 o1] r] eqn:Hm.
    injection Hrun as <- <- ->.
    destruct (bio_nica_fit_next_kept _ _ _ _ _ _ _ _ _ Hqp Hst Hm)
      as (Hx & Hy & Hst' & Hxb).
    pose proof (bio_nica_fit_next_counter solve_qp x o (h, o) (h1, o1) (Ok y)
                  (conj eq_refl eq_refl) Hm) as Hc.
    simpl in Hc. unfold bio_nica_fixed in Hc.
    destruct Hc as [Ht Hc]. injection Hc as _ _ _ Hs Hxd _ _.
    split_and!; simpl; try done. intros m [= <-]. by rewrite Hxb.
  - destruct Hv as (Whx & Wgh & Wyh & Wyy & Hst).
    destruct (two_layer_nsm.fit_next solve_qp x (h, o)) as [[h1 o1] r] eqn:Hm.
    injection Hrun as <- <- ->.
    destruct (two_layer_nsm_fit_next_kept _ _ _ _ _ _ _ _ _ _ _ Hqp Hst Hm)
      as (Hx & Hy & Hst' & Hxb).
    pose proof (two_layer_nsm_fit_next_counter solve_qp x o (h, o) (h1, o1) (Ok y)
                  (conj eq_refl eq_refl) Hm) as Hc.
    simpl in Hc. unfold two_layer_nsm_fixed in Hc.
    destruct Hc as [Ht Hc]. injection Hc as _ _ Hs Hxd.
    split_and!; simpl; try done. intros m [= <-]. by rewrite Hxb.
  - destruct Hv as (Wm & Hst).
    destruct (nonnegative_pca.fit_next x (h, o)) as [[h1 o1] r] eqn:Hm.
    injection Hrun as <- <- ->.
    destruct (nonnegative_pca_fit_next_kept _ _ _ _ _ _ _ Hst Hm)
      as (Hx & Hy & Hst').
    pose proof (nonnegative_pca_fit_next_counter x o (h, o) (h1, o1) (Ok y)
                  (conj eq_refl eq_refl) Hm) as Hc.
    simpl in Hc. unfold nonnegative_pca_fixed in Hc.
    destruct Hc as [Ht Hc]. injection Hc as _ _ Hs Hxd _.
    split_and!; simpl; done.
Qed.

(** X10. For a correct quadratic-programming routine and a learner whose
    matrices have the shapes of its class ([valid]), a call of [fit_next]
    that returns was given an input of length [x_dim] (also by
    [two_layer_nsm], which asserts nothing), returns a vector of length
    [s_dim], and leaves the learner with matrices of the same shapes and
    the same two dimensions. *)
Theorem fit_next_keeps_valid solve_qp (l l' : learner) (x : vec) (h h' : heap)
    (y : vec) :
  quadprog.correct solve_qp →
  valid h l →
  fit_next solve_qp x (h, l) = ((h', l'), Ok y) →
  valid h' l' ∧ length x = x_dim l ∧ length y = s_dim l ∧
  s_dim l' = s_dim l ∧ x_dim l' = x_dim l.
Proof.
  intros Hqp Hv Hrun.
  destruct (fit_next_kept solve_qp l l' x h h' y Hqp Hv Hrun)
    as (? & ? & ? & ? & ? & _).
  done.
Qed.

Lemma ex_nsm2_valid :
  valid [ex.I2; ex.I2; ex.I2; ex.I2] (TwoLayerNSM ex.nsm2).
Proof. eexists _, _, _, _. exact ex_nsm2_state. Qed.

Lemma fit_next_keeps_valid_witness :
  ∃ h' l', valid h' l' ∧ length ex.e1 = x_dim (TwoLayerNSM ex.nsm2) ∧
           length ex.e1 = s_dim (TwoLayerNSM ex.nsm2) ∧
           s_dim l' = s_dim (TwoLayerNSM ex.nsm2) ∧
           x_dim l' = x_dim (TwoLayerNSM ex.nsm2).
Proof.
  eexists _, _.
  apply (fit_next_keeps_valid quadprog.solve_qp_eye (TwoLayerNSM ex.nsm2) _ ex.e1
           [ex.I2; ex.I2; ex.I2; ex.I2] _ ex.e1).
  - exact solve_qp_eye_correct.
  - exact ex_nsm2_valid.
  - vm_compute. reflexivity.
Defined.

(** ** A stream of inputs *)

Lemma of_nat_succ t : of_nat (t + 1) = (of_nat t + 1)%Qc.
Proof.
  unfold of_nat. apply Qc_is_canon.
  unfold Qc_of_Z. cbn [this Qcplus Q2Qc]. rewrite !Qred_correct.
  replace (Z.of_nat (t + 1)) with (Z.of_nat t + 1)%Z by lia.
  rewrite inject_Z_plus. reflexivity.
Qed.

Lemma of_nat_nonneg t : (0 ≤ of_nat t)%Qc.
Proof.
  unfold of_nat, Qcle, Qc_of_Z. cbn [this Q2Qc]. rewrite !Qred_correct.
  change 0%Q with (inject_Z 0). rewrite <-Zle_Qle. lia.
Qed.

Lemma of_nat_succ_nonzero t : of_nat (t + 1) ≠ 0%Qc.
Proof.
  rewrite of_nat_succ. pose proof (of_nat_nonneg t) as H. intros Hz.
  assert (of_nat t = - (1))%Qc as Ht.
  { rewrite <-(Qcplus_0_l (- (1))), <-Hz. ring. }
  rewrite Ht in H. by vm_compute in H.
Qed.

Lemma mean_scalar (a b : Qc) t :
  (of_nat (t + 1) * (a + (b - a) / of_nat (t + 1)) = of_nat t * a + b)%Qc.
Proof.
  pose proof (of_nat_succ_nonzero t) as Hnz.
  rewrite of_nat_succ in *. field. done.
Qed.

(** [(t+1)] times the updated mean is [t] times the mean plus the sample. *)
Lemma full_history_sum (m x : vec) t :
  np.scale (of_nat (t + 1)) (spec.full_history m x t)
  = spec.vadd (np.scale (of_nat t) m) x.
Proof.
  unfold spec.full_history, spec.vadd, spec.vdiv, spec.vsub, np.scale.
  revert x. induction m as [|a m IH]; intros [|b x]; simpl; try done.
  f_equal; [apply mean_scalar|apply IH].
Qed.

Lemma vadd_assoc (a b c : vec) :
  spec.vadd (spec.vadd a b) c = spec.vadd a (spec.vadd b c).
Proof.
  unfold spec.vadd. revert b c.
  induction a as [|x a IH]; intros [|y b] [|z c]; simpl; try done.
  f_equal; [ring|apply IH].
Qed.

Lemma length_full_history (m x : vec) t :
  length m = length x → length (spec.full_history m x t) = length m.
Proof. intros Hl. unfold spec.full_history. by apply length_mean. Qed.

Lemma fit_all_kept solve_qp :
  quadprog.correct solve_qp →
  ∀ (xs : list vec) (h h' : heap) (l l' : learner) (ys : list vec),
    valid h l →
    fit_all solve_qp xs (h, l) = ((h', l'), Ok ys) →
    valid h' l' ∧
    Forall (λ x : vec, length x = x_dim l) xs ∧
    Forall (λ y : vec, length y = s_dim l) ys ∧
    s_dim l' = s_dim l ∧ x_dim l' = x_dim l ∧
    counter l' = counter l + length xs ∧
    ∀ m, input_mean l = Some m →
      ∃ m', input_mean l' = Some m' ∧
            np.scale (of_nat (counter l')) m'
            = spec.vadd (np.scale (of_nat (counter l)) m) (vsum (x_dim l) xs).
Proof.
  intros Hqp xs. induction xs as [|x xs IH]; intros h h' l l' ys Hv Hrun.
  - simpl in Hrun. injection Hrun as <- <- <-.
    split_and!; try done; try (simpl; lia).
    intros m Hm. exists m. split; [done|].
    simpl. rewrite <-(valid_input_mean h l m Hv Hm).
    replace (length m) with (length (np.scale (of_nat (counter l)) m))
      by (unfold np.scale; by rewrite length_fmap).
    by rewrite vadd_zeros_r.
  - simpl in Hrun.
    destruct (fit_next solve_qp x (h, l)) as [[h1 l1] [y|e]] eqn:Hstep; [|done].
    destruct (fit_all solve_qp xs (h1, l1)) as [[h2 l2] [ys'|e]] eqn:Hrest; [|done].
    injection Hrun as <- <- <-.
    destruct (fit_next_kept solve_qp l l1 x h h1 y Hqp Hv Hstep)
      as (Hv1 & Hx & Hy & Hs1 & Hx1 & Hc1 & Hm1).
    destruct (IH h1 h2 l1 l2 ys' Hv1 Hrest)
      as (Hv2 & Hxs & Hys & Hs2 & Hx2 & Hc2 & Hm2).
    rewrite Hs1, Hx1 in *.
    split_and!; try done.
    + by constructor.
    + by constructor.
    + simpl. lia.
    + intros m Hm. destruct (Hm2 _ (Hm1 m Hm)) as (m' & Hm' & Hsum).
      exists m'. split; [done|].
      rewrite Hsum, Hc1, full_history_sum. simpl. by rewrite vadd_assoc.
Qed.

(** X11. For a correct quadratic-programming routine and a learner whose
    matrices have the shapes of its class, a stream of calls of [fit_next]
    that all return leaves the learner in such a state again; every input
    of the stream had length [x_dim] and every output has length [s_dim]. *)
Theorem fit_all_keeps_valid solve_qp (xs ys : list vec) (h h' : heap)
    (l l' : learner) :
  quadprog.correct solve_qp →
  valid h l →
  fit_all solve_qp xs (h, l) = ((h', l'), Ok ys) →
  valid h' l' ∧
  Forall (λ x : vec, length x = x_dim l) xs ∧
  Forall (λ y : vec, length y = s_dim l) ys.
Proof.
  intros Hqp Hv Hrun.
  destruct (fit_all_kept solve_qp Hqp xs h h' l l' ys Hv Hrun) as (? & ? & ? & _).
  done.
Qed.

Lemma ex_pca_valid : valid [ex.I2] (NonnegativePCA ex.pca).
Proof. eexists. exact ex_pca_state. Qed.

Lemma fit_all_keeps_valid_witness :
  ∃ h' l', valid h' l' ∧
    Forall (λ x : vec, length x = x_dim (NonnegativePCA ex.pca)) [ex.e1; ex.ones] ∧
    Forall (λ y : vec, length y = s_dim (NonnegativePCA ex.pca))
      [ex.e1; [lit 1 1; lit 1 1]].
Proof.
  eexists _, _.
  apply (fit_all_keeps_valid quadprog.solve_qp_eye [ex.e1; ex.ones]
           [ex.e1; [lit 1 1; lit 1 1]] [ex.I2] _ (NonnegativePCA ex.pca) _).
  - exact solve_qp_eye_correct.
  - exact ex_pca_valid.
  - vm_compute. reflexivity.
Defined.





(** ** Construction *)

Lemma initial_kept (h h1 : heap) A0 r c fresh A :
  supplied_or h A0 r c fresh = Ok A →
  h `prefix_of` h1 →
  Forall wf h1 → wf fresh →
  ∃ m, (keep h1 A).1 !! (keep h1 A).2 = Some m ∧ wf m ∧
       h1 `prefix_of` (keep h1 A).1 ∧ Forall wf (keep h1 A).1 ∧
       length (keep h1 A).1 = length h1 + match A0 with Some _ => 0 | None => 1 end ∧
       ((A0 = Some (keep h1 A).2 ∧ (keep h1 A).2 < length h ∧ shape m = (r, c))
        ∨ (A0 = None ∧ (keep h1 A).2 = length h1 ∧ m = fresh)).
Proof.
  intros Hsup Hpre Hwf Hwff. destruct A0 as [l|]; simpl in Hsup.
  - destruct (h !! l) as [m|] eqn:Hl; [|done]. case_decide; [|done].
    injection Hsup as <-. simpl. exists m.
    pose proof (prefix_lookup_Some _ _ _ _ Hl Hpre) as Hl1.
    split_and!; try done.
    + by eapply Forall_lookup_1.
    + left. split_and!; [done| |done]. by eapply lookup_lt_Some.
  - injection Hsup as <-. simpl. exists fresh.
    split_and!; try done.
    + rewrite lookup_app_r by lia. by rewrite Nat.sub_diag.
    + by apply prefix_app_r.
    + apply Forall_app. split; [done|]. by constructor.
    + by rewrite length_app.
    + by right.
Qed.

Lemma bio_nica_init_valid randn s x dataset M0 W0 eta0 decay tau (h h' : heap) o :
  Forall wf h → wf randn → shape randn = (s, x) →
  (∀ a, M0 = Some a → W0 ≠ Some a) →
  bio_nica.__init__ randn s x dataset M0 W0 eta0 decay tau h = (h', Ok o) →
  valid h' (BioNICA o) ∧ h `prefix_of` h' ∧
  bio_nica.t o = 0 ∧ bio_nica.s_dim o = s ∧ bio_nica.x_dim o = x.
Proof.
  intros Hwf Hwfr Hsr Hne Hrun. unfold bio_nica.__init__ in Hrun.
  destruct (supplied_or h M0 s s (np.eye s)) as [Mi|e] eqn:HM; [|done].
  destruct (supplied_or h W0 s x randn) as [Wi|e] eqn:HW; [|done].
  destruct (bio_nica.preset dataset) as [[e d] ta].
  destruct (initial_kept h h M0 s s (np.eye s) Mi HM) as
    (Mm & HlM & HwfM & Hp1 & Hwf1 & Hn1 & HcM); [done|done|apply wf_eye|].
  destruct (keep h Mi) as [h1 lM] eqn:Hk1. cbn [fst snd] in *.
  destruct (initial_kept h h1 W0 s x randn Wi HW) as
    (Wm & HlW & HwfW & Hp2 & Hwf2 & Hn2 & HcW); [done..|].
  destruct (keep h1 Wi) as [h2 lW] eqn:Hk2. cbn [fst snd] in *.
  injection Hrun as <- <-.
  split_and!; try done; [|by etrans].
  exists Wm, Mm. split; simpl; try done.
  - by eapply prefix_lookup_Some.
  - destruct HcM as [(HM0 & HltM & _)|(HM0 & HeqM & _)],
      HcW as [(HW0 & HltW & _)|(HW0 & HeqW & _)]; subst M0 W0.
    + intros ->. by apply (Hne lM).
    + lia.
    + lia.
    + lia.
  - destruct HcW as [(_ & _ & ?)|(_ & _ & ->)]; done.
  - destruct HcM as [(_ & _ & ?)|(_ & _ & ->)]; [done|apply shape_eye].
  - apply length_zeros.
  - apply length_zeros.
Qed.

Lemma nonnegative_pca_init_valid randn s x dataset W0 eta0 decay (h h' : heap) o :
  Forall wf h → wf randn → shape randn = (s, x) →
  nonnegative_pca.__init__ randn s x dataset W0 eta0 decay h = (h', Ok o) →
  valid h' (NonnegativePCA o) ∧ h `prefix_of` h' ∧
  nonnegative_pca.t o = 0 ∧ nonnegative_pca.s_dim o = s ∧
  nonnegative_pca.x_dim o = x.
Proof.
  intros Hwf Hwfr Hsr Hrun. unfold nonnegative_pca.__init__ in Hrun.
  destruct (supplied_or h W0 s x randn) as [Wi|e] eqn:HW; [|done].
  destruct (nonnegative_pca.preset dataset) as [e d].
  destruct (initial_kept h h W0 s x randn Wi HW) as
    (Wm & HlW & HwfW & Hp1 & Hwf1 & Hn1 & HcW); [done..|].
  destruct (keep h Wi) as [h1 lW] eqn:Hk1. cbn [fst snd] in *.
  injection Hrun as <- <-.
  split_and!; try done.
  exists Wm. split; simpl; try done.
  destruct HcW as [(_ & _ & ?)|(_ & _ & ->)]; done.
Qed.

Lemma two_layer_nsm_init_valid randn_hx randn_yh s x dataset Whx0 Wgh0 Wyh0 Wyy0
    eta0 decay (h h' : heap) o :
  Forall wf h →
  wf randn_hx → shape randn_hx = (s, x) →
  wf randn_yh → shape randn_yh = (s, s) →
  Whx0 = None ∨ s = x →
  two_layer_nsm.__init__ randn_hx randn_yh s x dataset Whx0 Wgh0 Wyh0 Wyy0
    eta0 decay h = (h', Ok o) →
  valid h' (TwoLayerNSM o) ∧ h `prefix_of` h' ∧
  two_layer_nsm.t o = 0 ∧ two_layer_nsm.s_dim o = s ∧ two_layer_nsm.x_dim o = x.
Proof.
  intros Hwf Hwfhx Hshx Hwfyh Hsyh Hsq Hrun. unfold two_layer_nsm.__init__ in Hrun.
  destruct (supplied_or h Whx0 s s randn_hx) as [A1|e] eqn:H1; [|done].
  destruct (supplied_or h Wgh0 s s (np.eye s)) as [A2|e] eqn:H2; [|done].
  destruct (supplied_or h Wyh0 s s randn_yh) as [A3|e] eqn:H3; [|done].
  destruct (supplied_or h Wyy0 s s (np.eye s)) as [A4|e] eqn:H4; [|done].
  destruct (two_layer_nsm.preset dataset) as [e d].
  destruct (initial_kept h h Whx0 s s randn_hx A1 H1) as
    (M1 & Hl1 & Hw1 & Hp1 & Hwf1 & _ & Hc1); [done..|].
  destruct (keep h A1) as [h1 l1] eqn:Hk1. cbn [fst snd] in *.
  destruct (initial_kept h h1 Wgh0 s s (np.eye s) A2 H2) as
    (M2 & Hl2 & Hw2 & Hp2 & Hwf2 & _ & Hc2); [done|done|apply wf_eye|].
  destruct (keep h1 A2) as [h2 l2] eqn:Hk2. cbn [fst snd] in *.
  destruct (initial_kept h h2 Wyh0 s s randn_yh A3 H3) as
    (M3 & Hl3 & Hw3 & Hp3 & Hwf3 & _ & Hc3); [by etrans|done|done|].
  destruct (keep h2 A3) as [h3 l3] eqn:Hk3. cbn [fst snd] in *.
  destruct (initial_kept h h3 Wyy0 s s (np.eye s) A4 H4) as
    (M4 & Hl4 & Hw4 & Hp4 & Hwf4 & _ & Hc4);
    [by do 2 etrans|done|apply wf_eye|].
  destruct (keep h3 A4) as [h4 l4] eqn:Hk4. cbn [fst snd] in *.
  injection Hrun as <- <-.
  split_and!; try done; [|by do 3 etrans].
  exists M1, M2, M3, M4. split; simpl; try done.
  - eapply prefix_lookup_Some; [done|]. by do 2 etrans.
  - eapply prefix_lookup_Some; [done|]. by etrans.
  - by eapply prefix_lookup_Some.
  - destruct Hc1 as [(-> & _ & ?)|(_ & _ & ->)]; [|done].
    destruct Hsq as [|<-]; done.
  - destruct Hc2 as [(_ & _ & ?)|(_ & _ & ->)]; [done|apply shape_eye].
  - destruct Hc3 as [(_ & _ & ?)|(_ & _ & ->)]; done.
  - destruct Hc4 as [(_ & _ & ?)|(_ & _ & ->)]; [done|apply shape_eye].
  - apply length_zeros.
  - apply length_zeros.
  - apply length_zeros.
Qed.

(** X13. Construction yields a learner on which the methods can run. When
    every array of the store is rectangular, the random matrices drawn for
    missing arguments have the shapes asked of [randn], and a constructor
    returns, then its learner has matrices of the shapes of its class
    ([valid]), [t = 0] and the two dimensions given, and every object that
    existed before is still in the store at its place. This needs, for
    [bio_nica], that [M0] and [W0] are not one and the same object, and for
    [two_layer_nsm], whose assertion on [Whx0] compares with
    [(s_dim, s_dim)], that [Whx0] is left out or [s_dim = x_dim]. *)
Theorem construction_valid (h h' : heap) (s x : nat) (dataset : option string) :
  Forall wf h →
  (∀ randn M0 W0 eta0 decay tau o,
     wf randn → shape randn = (s, x) →
     (∀ a, M0 = Some a → W0 ≠ Some a) →
     bio_nica.__init__ randn s x dataset M0 W0 eta0 decay tau h = (h', Ok o) →
     valid h' (BioNICA o) ∧ h `prefix_of` h' ∧
     counter (BioNICA o) = 0 ∧ s_dim (BioNICA o) = s ∧ x_dim (BioNICA o) = x) ∧
  (∀ randn_hx randn_yh Whx0 Wgh0 Wyh0 Wyy0 eta0 decay o,
     wf randn_hx → shape randn_hx = (s, x) →
     wf randn_yh → shape randn_yh = (s, s) →
     Whx0 = None ∨ s = x →
     two_layer_nsm.__init__ randn_hx randn_yh s x dataset Whx0 Wgh0 Wyh0 Wyy0
       eta0 decay h = (h', Ok o) →
     valid h' (TwoLayerNSM o) ∧ h `prefix_of` h' ∧
     counter (TwoLayerNSM o) = 0 ∧ s_dim (TwoLayerNSM o) = s ∧
     x_dim (TwoLayerNSM o) = x) ∧
  (∀ randn W0 eta0 decay o,
     wf randn → shape randn = (s, x) →
     nonnegative_pca.__init__ randn s x dataset W0 eta0 decay h = (h', Ok o) →
     valid h' (NonnegativePCA o) ∧ h `prefix_of` h' ∧
     counter (NonnegativePCA o) = 0 ∧ s_dim (NonnegativePCA o) = s ∧
     x_dim (NonnegativePCA o) = x).
Proof.
  intros Hwf. split_and!.
  - intros randn M0 W0 eta0 decay tau o Hw Hs Hne Hrun.
    exact (bio_nica_init_valid randn s x dataset M0 W0 eta0 decay tau h h' o
             Hwf Hw Hs Hne Hrun).
  - intros randn_hx randn_yh Whx0 Wgh0 Wyh0 Wyy0 eta0 decay o Hw1 Hs1 Hw2 Hs2
      Hsq Hrun.
    exact (two_layer_nsm_init_valid randn_hx randn_yh s x dataset Whx0 Wgh0 Wyh0
             Wyy0 eta0 decay h h' o Hwf Hw1 Hs1 Hw2 Hs2 Hsq Hrun).
  - intros randn W0 eta0 decay o Hw Hs Hrun.
    exact (nonnegative_pca_init_valid randn s x dataset W0 eta0 decay h h' o
             Hwf Hw Hs Hrun).
Qed.

Lemma construction_valid_witness :
  let o := two_layer_nsm.Obj (lit 1 10) (lit 1 1000) 0 2 2 (np.zeros 2) (np.zeros 2)
             (np.zeros 2) 1 2 0 3 in
  let h' := [ex.I2; ex.I2; ex.I2; ex.I2] in
  valid h' (TwoLayerNSM o) ∧ [ex.I2] `prefix_of` h' ∧
  counter (TwoLayerNSM o) = 0 ∧ s_dim (TwoLayerNSM o) = 2 ∧
  x_dim (TwoLayerNSM o) = 2.
Proof.
  intros o h'.
  apply (proj1 (proj2 (construction_valid [ex.I2] h' 2 2 None
                         (Forall_cons_2 _ _ _ (wf_eye 2) (Forall_nil_2 _))))
           ex.I2 ex.I2 None None (Some 0) None None None o).
  - apply wf_eye.
  - reflexivity.
  - apply wf_eye.
  - reflexivity.
  - by left.
  - vm_compute. reflexivity.
Defined.

(** ** The objects a call writes to *)








(** ** [flip_weights] and the projection *)

Lemma insert_as_alter {A} (g : A → A) (l : list A) i r :
  l !! i = Some r → <[i := g r]> l = alter g i l.
Proof.
  intros Hr. pose proof (lookup_lt_Some _ _ _ Hr) as Hlt.
  apply list_eq. intros k. destruct (decide (i = k)) as [<-|Hne].
  - by rewrite list_lookup_insert_eq, list_lookup_alter_eq, Hr.
  - by rewrite list_lookup_insert_ne, list_lookup_alter_ne.
Qed.

Lemma negate_row_alter A (j : Z) :
  (0 ≤ j < Z.of_nat (nrows A))%Z →
  np.negate_row A j
  = Ok (Matrix (ncols A) (alter np.negative (Z.to_nat j) (rows A))).
Proof.
  intros Hj. destruct (negate_row_defined A j Hj) as (r & Hr & ->).
  by rewrite (insert_as_alter np.negative _ _ r).
Qed.

Lemma dot_negative (r x : vec) : np.dot (np.negative r) x = (- np.dot r x)%Qc.
Proof.
  unfold np.dot, np.negative. revert x.
  induction r as [|a r IH]; intros [|b x]; simpl; try (by apply Qc_is_canon).
  rewrite IH. ring.
Qed.

Lemma flip_weights_alter (l : learner) h (j : Z) A :
  (0 ≤ j < Z.of_nat (s_dim l))%Z →
  h !! designated l = Some A →
  nrows A = s_dim l →
  flip_weights j (h, l)
  = ((<[designated l :=
          Matrix (ncols A) (alter np.negative (Z.to_nat j) (rows A))]> h, l), Ok ()).
Proof.
  intros Hj HA Hn. apply flip_weights_run with A; [done|done|].
  apply negate_row_alter. lia.
Qed.

(** X15. What [flip_weights] is for. After a call [flip_weights(j)] with
    [j] in [[0, s_dim)], the designated matrix [A'] projects every input
    [x] to the projection [A·x] of before with its component [j] negated
    and all other components unchanged. *)
Theorem flip_weights_projection (l : learner) (h : heap) (j : Z) (A : matrix)
    (x : vec) :
  (0 ≤ j < Z.of_nat (s_dim l))%Z →
  h !! designated l = Some A →
  nrows A = s_dim l →
  ∃ h' A',
    flip_weights j (h, l) = ((h', l), Ok ()) ∧
    h' !! designated l = Some A' ∧
    spec.apply A' x = alter Qcopp (Z.to_nat j) (spec.apply A x).
Proof.
  intros Hj HA Hn. eexists _, _. split_and!.
  - by apply flip_weights_alter.
  - rewrite list_lookup_insert_eq; [done|]. by eapply lookup_lt_Some.
  - unfold spec.apply. simpl. apply list_fmap_alter.
    apply Forall_true. intros r. apply dot_negative.
Qed.

Lemma flip_weights_projection_witness :
  ∃ h' A',
    flip_weights 1 ([ex.I2; ex.I2], BioNICA ex.bio) = ((h', BioNICA ex.bio), Ok ()) ∧
    h' !! designated (BioNICA ex.bio) = Some A' ∧
    spec.apply A' ex.ones = alter Qcopp (Z.to_nat 1) (spec.apply ex.I2 ex.ones).
Proof.
  apply (flip_weights_projection (BioNICA ex.bio) [ex.I2; ex.I2] 1 ex.I2 ex.ones).
  - simpl. lia.
  - reflexivity.
  - reflexivity.
Defined.

(** X16. Calls of [flip_weights] on two rows commute: for [j] and [k] in
    [[0, s_dim)], [flip_weights(j)] followed by [flip_weights(k)] returns
    and ends in the same store and learner as [flip_weights(k)] followed by
    [flip_weights(j)]. *)
Theorem flip_weights_commute (l : learner) (h : heap) (j k : Z) (A : matrix) :
  (0 ≤ j < Z.of_nat (s_dim l))%Z →
  (0 ≤ k < Z.of_nat (s_dim l))%Z →
  h !! designated l = Some A →
  nrows A = s_dim l →
  ∃ h1 h2 h3,
    flip_weights j (h, l) = ((h1, l), Ok ()) ∧
    flip_weights k (h1, l) = ((h3, l), Ok ()) ∧
    flip_weights k (h, l) = ((h2, l), Ok ()) ∧
    flip_weights j (h2, l) = ((h3, l), Ok ()).
Proof.
  intros Hj Hk HA Hn.
  pose proof (lookup_lt_Some _ _ _ HA) as Hlt.
  set (Aj := Matrix (ncols A) (alter np.negative (Z.to_nat j) (rows A))).
  set (Ak := Matrix (ncols A) (alter np.negative (Z.to_nat k) (rows A))).
  exists (<[designated l := Aj]> h), (<[designated l := Ak]> h),
    (<[designated l :=
         Matrix (ncols A)
           (alter np.negative (Z.to_nat k)
              (alter np.negative (Z.to_nat j) (rows A)))]> h).
  split_and!.
  - by apply flip_weights_alter.
  - rewrite (flip_weights_alter l _ k Aj); try done.
    + by rewrite list_insert_insert_eq.
    + by rewrite list_lookup_insert_eq.
    + unfold nrows, Aj. simpl. by rewrite length_alter.
  - by apply flip_weights_alter.
  - rewrite (flip_weights_alter l _ j Ak); try done.
    + rewrite list_insert_insert_eq. simpl.
      destruct (decide (Z.to_nat j = Z.to_nat k)) as [->|Hne]; [done|].
      by rewrite list_alter_alter_ne.
    + by rewrite list_lookup_insert_eq.
    + unfold nrows, Ak. simpl. by rewrite length_alter.
Qed.

Lemma flip_weights_commute_witness :
  ∃ h1 h2 h3,
    flip_weights 0 ([ex.I2], NonnegativePCA ex.pca)
      = ((h1, NonnegativePCA ex.pca), Ok ()) ∧
    flip_weights 1 (h1, NonnegativePCA ex.pca)
      = ((h3, NonnegativePCA ex.pca), Ok ()) ∧
    flip_weights 1 ([ex.I2], NonnegativePCA ex.pca)
      = ((h2, NonnegativePCA ex.pca), Ok ()) ∧
    flip_weights 0 (h2, NonnegativePCA ex.pca)
      = ((h3, NonnegativePCA ex.pca), Ok ()).
Proof.
  apply (flip_weights_commute (NonnegativePCA ex.pca) [ex.I2] 0 1 ex.I2).
  - simpl. lia.
  - simpl. lia.
  - reflexivity.
  - reflexivity.
Defined.

(** ** The first call *)

















(** * Properties in binary64 *)

(** ** Running a method step by step *)

Section f64_monad_facts.
Context {S A B : Type}.

Lemma f64_bind_inv (c : f64.Py S A) (k : A → f64.Py S B) st st' b :
  f64.bind c k st = (st', Ok b) →
  ∃ st1 a, c st = (st1, Ok a) ∧ k a st1 = (st', Ok b).
Proof.
  unfold f64.bind. destruct (c st) as [st1 [a|e]]; [eauto|discriminate].
Qed.
End f64_monad_facts.

Lemma f64_lift_inv {S A} (r : result A) (st st' : list f64.matrix * S) a :
  f64.lift r st = (st', Ok a) → st' = st ∧ r = Ok a.
Proof. unfold f64.lift. by intros [= -> ->]. Qed.

Lemma f64_deref_inv {S} l (st st' : list f64.matrix * S) m :
  f64.deref l st = (st', Ok m) → st' = st ∧ st.1 !! l = Some m.
Proof.
  unfold f64.deref. destruct (st.1 !! l); intros [= <- ?]; by subst.
Qed.

Lemma f64_assert_inv {S} b (st st' : list f64.matrix * S) u :
  f64.assert b st = (st', Ok u) → st' = st ∧ b = true.
Proof. destruct b; unfold f64.assert, f64.ret, f64.raise; by intros [= <-]. Qed.





Lemma f64_call_inv {S A} (inj : S → f64.learner) (m : f64.Py S A) h o h' l' r :
  f64.call inj m h o = ((h', l'), r) → ∃ o', l' = inj o' ∧ m (h, o) = ((h', o'), r).
Proof.
  unfold f64.call. destruct (m (h, o)) as [[h1 o1] r1]. intros [= <- <- <-]. eauto.
Qed.

(** ** The Gram matrix of [two_layer_nsm] *)

(** C10, as the program has it. In [two_layer_nsm.fit_next] the inverse of
    the Gram matrix [Wghᵗ·Wgh] is computed before anything is written:
    whenever [np.linalg.inv] raises on that matrix, the call raises the
    same exception and the store and every field of the learner are as
    before the call, whatever [Wyy] holds. *)
Theorem fit_next_inv_raises (lib : f64.extern) (x : list float)
    (h : list f64.matrix) (o : f64.two_layer_nsm.obj) (A B G : f64.matrix) (e : exn) :
  h !! f64.two_layer_nsm.Wgh o = Some A →
  h !! f64.two_layer_nsm.Whx o = Some B →
  f64.np.matmul (f64.np.T A) A = Ok G →
  f64.linalg_inv lib G = Raise e →
  f64.fit_next lib x (h, f64.TwoLayerNSM o) = ((h, f64.TwoLayerNSM o), Raise e).
Proof.
  intros HA HB HG He. unfold f64.fit_next, f64.call; cbv [fst snd].
  unfold f64.two_layer_nsm.fit_next.
  cbv [f64.bind f64.get_self f64.deref f64.lift fst snd].
  rewrite HA, HB, HG. cbv [rbind]. by rewrite He.
Qed.

Lemma fit_next_inv_raises_witness :
  f64.fit_next f64.lib [1; 0]%float
    ([f64.ex.I2; f64.Matrix 2 [[1; 1]; [1; 1]]%float; f64.ex.I2; f64.ex.I2],
     f64.TwoLayerNSM f64.ex.nsm)
  = (([f64.ex.I2; f64.Matrix 2 [[1; 1]; [1; 1]]%float; f64.ex.I2; f64.ex.I2],
      f64.TwoLayerNSM f64.ex.nsm), Raise LinAlgError).
Proof.
  apply (fit_next_inv_raises f64.lib [1; 0]%float _ f64.ex.nsm
           (f64.Matrix 2 [[1; 1]; [1; 1]]%float) f64.ex.I2
           (f64.Matrix 2 [[2; 2]; [2; 2]]%float) LinAlgError).
  - reflexivity.
  - reflexivity.
  - vm_compute. reflexivity.
  - vm_compute. reflexivity.
Defined.

(** A singular Gram matrix that [np.linalg.inv] inverts. With
    [Wgh = [[3, 1], [6, 2]]] the Gram matrix is [[[45, 15], [15, 5]]],
    of determinant [45·5 − 15·15 = 0]. The factorisation scales the second
    row by the rounded reciprocal of the pivot 45 and is left with a second
    pivot that is not zero, so nothing raises: the call returns, [t] is 1,
    the running means are rewritten and the four matrices are new arrays. *)
Lemma singular_gram_returns :
  let h := [f64.ex.I2; f64.Matrix 2 [[3; 1]; [6; 2]]%float; f64.ex.I2; f64.ex.I2] in
  f64.np.matmul (f64.np.T (f64.Matrix 2 [[3; 1]; [6; 2]]%float))
    (f64.Matrix 2 [[3; 1]; [6; 2]]%float)
    = Ok (f64.Matrix 2 [[45; 15]; [15; 5]]%float) ∧
  spec.det (exact_matrix (f64.Matrix 2 [[45; 15]; [15; 5]]%float)) = 0%Qc ∧
  ∃ h' o' y,
    f64.fit_next f64.lib [1; 0]%float (h, f64.TwoLayerNSM f64.ex.nsm)
      = ((h', f64.TwoLayerNSM o'), Ok y) ∧
    f64.two_layer_nsm.t o' = 1 ∧
    f64.two_layer_nsm.x_bar o' = [1; 0]%float ∧
    f64.two_layer_nsm.x_bar f64.ex.nsm = [0; 0]%float ∧
    (f64.two_layer_nsm.Whx o', f64.two_layer_nsm.Wgh o',
     f64.two_layer_nsm.Wyh o', f64.two_layer_nsm.Wyy o') = (4, 5, 6, 7) ∧
    length h' = 8.
Proof.
  intros h. split_and!.
  - vm_compute. reflexivity.
  - compute_done.
  - eexists _, _, _. split_and!; [vm_compute; reflexivity|reflexivity..].
Qed.

(** ** What [fit_next] returns *)

Lemma f64_bio_nica_fit_next_returns lib (x : list float) st st' y :
  f64.bio_nica.fit_next lib x st = (st', Ok y) →
  ∃ G c, f64.solve_qp lib G c (f64.np.eye (f64.bio_nica.s_dim st.2))
           (f64.np.zeros (f64.bio_nica.s_dim st.2)) = Ok y.
Proof.
  unfold f64.bio_nica.fit_next. intros H.
  apply f64_bind_inv in H as (st1 & o & [= <- <-] & H).
  apply f64_bind_inv in H as (? & ? & [-> _]%f64_assert_inv & H).
  apply f64_bind_inv in H as (? & W0 & [-> _]%f64_deref_inv & H).
  apply f64_bind_inv in H as (? & c & [-> _]%f64_lift_inv & H).
  apply f64_bind_inv in H as (? & M0 & [-> _]%f64_deref_inv & H).
  apply f64_bind_inv in H as (? & y' & [-> Hy]%f64_lift_inv & H).
  exists M0, c. rewrite Hy. f_equal.
  repeat (apply f64_bind_inv in H as (? & ? & _ & H)).
  by injection H.
Qed.

Lemma f64_two_layer_nsm_fit_next_returns lib (x : list float) st st' y :
  f64.two_layer_nsm.fit_next lib x st = (st', Ok y) →
  ∃ G c, f64.solve_qp lib G c (f64.np.eye (f64.two_layer_nsm.s_dim st.2))
           (f64.np.zeros (f64.two_layer_nsm.s_dim st.2)) = Ok y.
Proof.
  unfold f64.two_layer_nsm.fit_next. intros H.
  apply f64_bind_inv in H as (st1 & o & [= <- <-] & H).
  do 19 (apply f64_bind_inv in H as (? & ? & _ & H)).
  apply f64_bind_inv in H as (? & y' & [_ Hy]%f64_lift_inv & H).
  eexists _, _. rewrite Hy. f_equal.
  repeat (apply f64_bind_inv in H as (? & ? & _ & H)).
  by injection H.
Qed.

Lemma f64_nonnegative_pca_fit_next_returns (x : list float) h o st' y :
  f64.nonnegative_pca.fit_next x (h, o) = (st', Ok y) →
  ∃ Wm p, h !! f64.nonnegative_pca.W o = Some Wm ∧
          f64.np.matvec Wm x = Ok p ∧ y = f64.np.maximum p 0%float.
Proof.
  unfold f64.nonnegative_pca.fit_next. intros H.
  apply f64_bind_inv in H as (st1 & o1 & [= <- <-] & H).
  apply f64_bind_inv in H as (? & ? & [-> _]%f64_assert_inv & H).
  apply f64_bind_inv in H as (? & W0 & [-> HW]%f64_deref_inv & H).
  apply f64_bind_inv in H as (? & p & [-> Hp]%f64_lift_inv & H).
  exists W0, p. split_and!; [done|done|].
  repeat (apply f64_bind_inv in H as (? & ? & _ & H)).
  by injection H.
Qed.

(** A number that is at least some number is not [nan]. *)
Lemma leb_not_nan (a e : float) : (a <=? e)%float = true → f64.is_nan e = false.
Proof.
  unfold f64.is_nan. rewrite FloatAxioms.leb_spec, FloatAxioms.eqb_spec.
  destruct (FloatOps.Prim2SF e) as [s|s| |s m k],
    (FloatOps.Prim2SF a) as [s'|s'| |s' m' k']; cbn; try done.
  all: try (by destruct s).
  all: unfold SpecFloat.SFeqb, SpecFloat.SFcompare; intros _.
  all: rewrite ?Z.compare_refl, ?Pos.compare_refl; cbn;
    destruct s; cbn; by rewrite ?Pos.compare_refl.
Qed.

(** The rectified entry is [≥ 0] exactly when the entry is not [nan]. *)
Lemma maximum_nonneg_iff (p : list float) :
  Forall f64.nonneg (f64.np.maximum p 0%float)
  ↔ Forall (λ e, f64.is_nan e = false) p.
Proof.
  unfold f64.np.maximum. rewrite Forall_fmap. apply Forall_iff. intros e.
  unfold f64.nonneg. simpl.
  destruct (0 <=? e)%float eqn:Hle; simpl.
  - rewrite Hle. split; [intros _; by apply leb_not_nan with 0%float|done].
  - destruct (f64.is_nan e) eqn:Hn.
    + rewrite Hle. done.
    + done.
Qed.

(** C1, as the program has it. Whenever [solve_qp] only returns vectors
    that satisfy the constraints, every vector that [fit_next] of
    [bio_nica] or [two_layer_nsm] returns has all its components [≥ 0]. A
    vector that [fit_next] of [nonnegative_pca] returns is the
    rectification [max(W·x, 0)] of the projection as computed, and all its
    components are [≥ 0] exactly when no component of the computed
    projection is [nan]. *)
Theorem fit_next_nonnegative_unless_nan (lib : f64.extern) (l l' : f64.learner)
    (x : list float) (h h' : list f64.matrix) (y : list float) :
  f64.feasible_solver (f64.solve_qp lib) →
  f64.fit_next lib x (h, l) = ((h', l'), Ok y) →
  match l with
  | f64.NonnegativePCA o =>
      ∃ Wm p, h !! f64.nonnegative_pca.W o = Some Wm ∧
              f64.np.matvec Wm x = Ok p ∧
              y = f64.np.maximum p 0%float ∧
              (Forall f64.nonneg y ↔ Forall (λ e, f64.is_nan e = false) p)
  | _ => Forall f64.nonneg y
  end.
Proof.
  intros Hqp H. unfold f64.fit_next in H. cbv [fst snd] in H.
  destruct l as [o|o|o]; apply f64_call_inv in H as (o' & _ & H).
  - apply f64_bio_nica_fit_next_returns in H as (G & c & H). by eapply Hqp.
  - apply f64_two_layer_nsm_fit_next_returns in H as (G & c & H). by eapply Hqp.
  - apply f64_nonnegative_pca_fit_next_returns in H as (Wm & p & HW & Hp & ->).
    exists Wm, p. split_and!; try done. apply maximum_nonneg_iff.
Qed.

Lemma solve_qp_diag_feasible : f64.feasible_solver f64.quadprog.solve_qp_diag.
Proof.
  intros G a n y. unfold f64.quadprog.solve_qp_diag.
  destruct (_ && _); [|done]. intros [= <-].
  apply Forall_forall. intros e (i & He)%list_elem_of_lookup_1.
  rewrite list_lookup_imap in He.
  destruct (a !! i) as [ai|]; [|done]. simpl in He. injection He as <-.
  unfold f64.nonneg.
  destruct (0 <? ai / _)%float eqn:Hlt; [|done].
  rewrite FloatAxioms.leb_spec. rewrite FloatAxioms.ltb_spec in Hlt.
  unfold SpecFloat.SFleb, SpecFloat.SFltb in *.
  by destruct (SpecFloat.SFcompare _ _) as [[]|].
Qed.

Lemma fit_next_nonnegative_unless_nan_witness :
  ∃ Wm p, [f64.ex.I2] !! f64.nonnegative_pca.W f64.ex.pca22 = Some Wm ∧
          f64.np.matvec Wm [1; -1]%float = Ok p ∧
          [1; 0]%float = f64.np.maximum p 0%float ∧
          (Forall f64.nonneg [1; 0]%float ↔ Forall (λ e, f64.is_nan e = false) p).
Proof.
  apply (fit_next_nonnegative_unless_nan f64.lib (f64.NonnegativePCA f64.ex.pca22)
           (f64.NonnegativePCA (f64.nonnegative_pca.set_t 1 f64.ex.pca22))
           [1; -1]%float [f64.ex.I2]
           [f64.Matrix 2 [[1; -0.10000000000000001]; [0; 1]]%float] [1; 0]%float).
  - exact solve_qp_diag_feasible.
  - vm_compute. reflexivity.
Defined.

(** Finite inputs on which [nonnegative_pca.fit_next] returns [nan]. With
    [W = [[1e200, -1e200]]] and [x = [1e200, 1e200]] the two products of
    the projection overflow to [+inf] and [-inf], their sum is [nan], and
    the call returns [[nan]], which is not [≥ 0]. *)
Lemma nonnegative_pca_returns_nan :
  f64.fit_next f64.lib [1e200; 1e200]%float
    ([f64.Matrix 2 [[1e200; -1e200]]%float], f64.NonnegativePCA f64.ex.pca12)
  = (([f64.Matrix 2 [[nan; nan]]%float],
      f64.NonnegativePCA (f64.nonnegative_pca.set_t 1 f64.ex.pca12)),
     Ok [nan]%float) ∧
  (1e200 * 1e200 = infinity ∧ -1e200 * 1e200 = neg_infinity)%float ∧
  (0 <=? nan)%float = false.
Proof. split_and!; vm_compute; reflexivity. Qed.

(** ** The stabilizer inside [fit_next] *)




(** ** The addition of [0.1 × Identity], entry by entry *)






(** ** Matrices that the addition of [0.1 × Identity] leaves as they are *)














